(** * Screen capture tool: session store, zoom transform, compositing, hotkeys

    A shallow embedding of [screen_capture_tool.py] and proofs about it.
    The layout follows the source: Python helpers first, then the
    functions of [ScreenCaptureTool] in the order the properties need
    them. Every effectful function threads the state it touches
    explicitly; dialog answers, clock readings and the results of
    external libraries are arguments. *)

From Stdlib Require Import ZArith NArith QArith Qminmax Qround Lia Bool.
From Stdlib Require Import String Ascii List DecimalString.
From stdpp Require Import base option list.
Import ListNotations.

Set Warnings "-register-all".
Local Open Scope string_scope.
Local Open Scope Z_scope.

(** ** Python [str] methods

    A [str] is a [string]. The methods below are those of Python on
    strings whose characters are code points below 256; each character
    is classified as Python classifies that code point. Text that the
    tool only stores and compares (names, descriptions, paths) is
    carried along unread. *)

Module PyStr.

Definition code (c : ascii) : N := N_of_ascii c.

Definition between (lo hi n : N) : bool := ((lo <=? n) && (n <=? hi))%N.

(** [c.isspace()] *)
Definition isspace_char (c : ascii) : bool :=
  let n := code c in
  between 9 13 n || between 28 32 n || (n =? 133)%N || (n =? 160)%N.

(** [c.isalpha()] *)
Definition isalpha_char (c : ascii) : bool :=
  let n := code c in
  between 65 90 n || between 97 122 n
  || (n =? 170)%N || (n =? 181)%N || (n =? 186)%N
  || between 192 214 n || between 216 246 n || between 248 255 n.

(** [c.isdigit()] *)
Definition isdigit_char (c : ascii) : bool :=
  let n := code c in
  between 48 57 n || (n =? 178)%N || (n =? 179)%N || (n =? 185)%N.

(** [c.lower()] *)
Definition lower_char (c : ascii) : ascii :=
  let n := code c in
  if between 65 90 n || (between 192 222 n && negb (n =? 215)%N)
  then ascii_of_N (n + 32) else c.

Fixpoint lower (s : string) : string :=
  match s with
  | EmptyString => EmptyString
  | String c r => String (lower_char c) (lower r)
  end.

Fixpoint lstrip (s : string) : string :=
  match s with
  | EmptyString => EmptyString
  | String c r => if isspace_char c then lstrip r else s
  end.

Definition is_empty (s : string) : bool :=
  match s with EmptyString => true | _ => false end.

Fixpoint rstrip (s : string) : string :=
  match s with
  | EmptyString => EmptyString
  | String c r =>
      let r' := rstrip r in
      if isspace_char c && is_empty r' then EmptyString else String c r'
  end.

(** [s.strip()] *)
Definition strip (s : string) : string := rstrip (lstrip s).

Fixpoint all_chars (p : ascii -> bool) (s : string) : bool :=
  match s with
  | EmptyString => true
  | String c r => p c && all_chars p r
  end.

(** [s.isalpha()], [s.isdigit()]: false on the empty string. *)
Definition isalpha (s : string) : bool := negb (is_empty s) && all_chars isalpha_char s.
Definition isdigit (s : string) : bool := negb (is_empty s) && all_chars isdigit_char s.

(** [s.split(sep)] for a one-character separator. *)
Fixpoint split (sep : ascii) (s : string) : list string :=
  match s with
  | EmptyString => [EmptyString]
  | String c r =>
      if Ascii.eqb c sep then EmptyString :: split sep r
      else match split sep r with
           | p :: ps => String c p :: ps
           | [] => [String c EmptyString]
           end
  end.

(** [s.startswith(c)] for a one-character prefix. *)
Definition startswith_char (c : ascii) (s : string) : bool :=
  match s with
  | String d _ => Ascii.eqb d c
  | EmptyString => false
  end.

(** [s[1:]] *)
Definition tail (s : string) : string :=
  match s with
  | String _ r => r
  | EmptyString => EmptyString
  end.

(** [s.endswith(suffix)] *)
Fixpoint endswith (s suffix : string) : bool :=
  String.eqb s suffix ||
  match s with
  | EmptyString => false
  | String _ r => endswith r suffix
  end.

(** [x in xs] for a collection of strings. *)
Definition mem (x : string) (xs : list string) : bool :=
  existsb (String.eqb x) xs.

(** No character of the string is white space. *)
Definition no_space (s : string) : bool := all_chars (fun c => negb (isspace_char c)) s.

End PyStr.

(** ** [set_hotkey]: the validator behind the confirm button *)

Module Hotkey.
Import PyStr.

Definition valid_modifiers : list string := ["ctrl"; "alt"; "shift"].

(** The condition of the [if] inside the loop of [confirm_hotkey], on a
    part that has already been stripped. *)
Definition part_rejected (part : string) : bool :=
  negb (is_empty part)
  && negb (mem part valid_modifiers)
  && negb (isalpha part && (String.length part =? 1)%nat)
  && negb (isdigit part && (String.length part =? 1)%nat)
  && negb (startswith_char "f" part && isdigit (tail part)).

Inductive outcome :=
| RejectedEmpty                 (* showerror: the hotkey must not be empty *)
| RejectedFormat                (* showerror: invalid hotkey format *)
| Accepted (new_hotkey : string). (* self.hotkey := new_hotkey, config saved *)

(** [confirm_hotkey], applied to the text of the entry field. *)
Definition confirm_hotkey (entry : string) : outcome :=
  let new_hotkey := lower (strip entry) in
  if is_empty new_hotkey then RejectedEmpty
  else if existsb (fun part => part_rejected (strip part)) (split "+" new_hotkey)
       then RejectedFormat
       else Accepted new_hotkey.

Definition accepts (entry : string) : bool :=
  match confirm_hotkey entry with Accepted _ => true | _ => false end.

(** *** The syntax the specification describes *)

Definition is_modifier (p : string) : bool := mem p valid_modifiers.

Definition function_keys : list string :=
  ["f1"; "f2"; "f3"; "f4"; "f5"; "f6"; "f7"; "f8"; "f9"; "f10"; "f11"; "f12"].

Definition ascii_letter (c : ascii) : bool :=
  between 65 90 (code c) || between 97 122 (code c).

Definition ascii_digit (c : ascii) : bool := between 48 57 (code c).

Definition is_base_key (p : string) : bool :=
  match p with
  | String c EmptyString => ascii_letter c || ascii_digit c
  | _ => mem p function_keys
  end.

(** A [+]-joined sequence of modifier names together with exactly one
    base key. *)
Definition spec_hotkey_syntax (s : string) : bool :=
  let parts := split "+" s in
  forallb (fun p => is_modifier p || is_base_key p) parts
  && (List.length (filter (fun p => is_base_key p = true) parts) =? 1)%nat.

(** A part of the described syntax. *)
Definition spec_token (p : string) : bool := is_modifier p || is_base_key p.

(** *** What the loop body lets through *)

Definition code_token (q : string) : Prop :=
  In q valid_modifiers
  \/ (exists c, q = String c "" /\ (isalpha_char c = true \/ isdigit_char c = true))
  \/ (exists ds, q = String "f" ds /\ ds <> "" /\ all_chars isdigit_char ds = true).

(** The same test as a boolean, read off the loop body. *)
Definition code_token_b (q : string) : bool :=
  mem q valid_modifiers
  || (isalpha q && (String.length q =? 1)%nat)
  || (isdigit q && (String.length q =? 1)%nat)
  || (startswith_char "f" q && isdigit (tail q)).

End Hotkey.

(** ** The preview canvas: wheel zoom around the cursor

    Canvas coordinates, the scale and the image position are Python
    floats in the source; they are rationals here, so [1.1] is [11/10]
    and the arithmetic is exact. *)

Module Zoom.
Local Open Scope Q_scope.

(** [int(x)]: truncation toward zero. *)
Definition py_int (q : Q) : Z := Z.quot (Qnum q) (Zpos (Qden q)).

(** [min(a, b)] and [max(a, b)]: the second argument replaces the first
    only when it is strictly smaller (larger). *)
Definition py_min (a b : Q) : Q := if Qlt_le_dec b a then b else a.
Definition py_max (a b : Q) : Q := if Qlt_le_dec a b then b else a.

Definition Qltb (a b : Q) : bool := negb (Qle_bool b a).

(** The attributes [show_capture_preview] stores on the canvas. The
    resized image is represented by its size: [Image.resize] is taken to
    return an image of the size it is asked for. *)
Record canvas := {
  original_width : Z;
  original_height : Z;
  resized_width : Z;
  resized_height : Z;
  scale : Q;
  x_pos : Q;
  y_pos : Q
}.

(** A wheel event, with [mouse_x = canvas.canvasx(event.x)] and
    [mouse_y = canvas.canvasy(event.y)]. [delta] is [None] when the
    event object has no such attribute. *)
Record wheel_event := {
  mouse_x : Q;
  mouse_y : Q;
  delta : option Z;
  num : Z
}.

(** The canvas as [show_capture_preview] sets it up for a screenshot of
    [img_width] x [img_height] on a screen of the given size; a
    screenshot has at least one pixel in each direction. *)
Definition init_canvas (screen_width screen_height img_width img_height : Z) : canvas :=
  let s := py_min (py_min (inject_Z screen_width / inject_Z img_width)
                          (inject_Z screen_height / inject_Z img_height)) 1 in
  let new_width := py_int (inject_Z img_width * s) in
  let new_height := py_int (inject_Z img_height * s) in
  {| original_width := img_width; original_height := img_height;
     resized_width := new_width; resized_height := new_height;
     scale := s;
     x_pos := inject_Z ((screen_width - new_width) / 2);
     y_pos := inject_Z ((screen_height - new_height) / 2) |}.

(** The test "is the mouse inside the image area". *)
Definition inside_image (c : canvas) (ev : wheel_event) : bool :=
  let rel_x := mouse_x ev - x_pos c in
  let rel_y := mouse_y ev - y_pos c in
  Qle_bool 0 rel_x && Qltb rel_x (inject_Z (resized_width c))
  && Qle_bool 0 rel_y && Qltb rel_y (inject_Z (resized_height c)).

Definition zoom_in (ev : wheel_event) : bool :=
  match delta ev with
  | Some d => (d >? 0)%Z
  | None => (num ev =? 4)%Z
  end.

Definition new_scale (c : canvas) (ev : wheel_event) : Q :=
  if zoom_in ev then py_min (scale c * (11 # 10)) 5
  else py_max (scale c / (11 # 10)) (1 # 10).

(** [on_mousewheel] *)
Definition on_mousewheel (c : canvas) (ev : wheel_event) : canvas :=
  let rel_x := mouse_x ev - x_pos c in
  let rel_y := mouse_y ev - y_pos c in
  if inside_image c ev then
    let ns := new_scale c ev in
    let orig_rel_x := rel_x / scale c in
    let orig_rel_y := rel_y / scale c in
    {| original_width := original_width c;
       original_height := original_height c;
       resized_width := py_int (inject_Z (original_width c) * ns);
       resized_height := py_int (inject_Z (original_height c) * ns);
       scale := ns;
       x_pos := mouse_x ev - orig_rel_x * ns;
       y_pos := mouse_y ev - orig_rel_y * ns |}
  else c.



(** The canvas after each of a sequence of wheel events. *)
Fixpoint wheel_trace (c : canvas) (evs : list wheel_event) : list canvas :=
  match evs with
  | [] => []
  | ev :: rest => let c' := on_mousewheel c ev in c' :: wheel_trace c' rest
  end.

Definition scale_in_bounds (c : canvas) : Prop := (1 # 10) <= scale c /\ scale c <= 5.

(** [zoom_image] of the read-only preview: the same clamped step, applied
    to [scale_factor] wherever the cursor is. *)
Definition zoom_image (scale_factor : Q) (event_delta : Z) : Q :=
  if (event_delta >? 0)%Z then py_min (scale_factor * (11 # 10)) 5
  else py_max (scale_factor / (11 # 10)) (1 # 10).

End Zoom.

(** ** The image library, as far as the tool uses it

    A raster is a size and a pixel function. Drawing and font loading
    belong to the library and are left open as an interface. *)

Module Pil.

Definition pixel := N.

Record raster := {
  r_width : Z;
  r_height : Z;
  r_pixel : Z -> Z -> pixel
}.

Definition box : Type := Z * Z * Z * Z.

(** A coordinate addresses a pixel of the raster. *)
Definition in_bounds (r : raster) (p : Z * Z) : bool :=
  (0 <=? fst p) && (fst p <? r_width r) && (0 <=? snd p) && (snd p <? r_height r).

(** [Image.crop(box)]: the rectangle from [(x1, y1)] up to, not
    including, [(x2, y2)]; pixels the box takes from outside the source
    are zero. *)
Definition crop (r : raster) (b : box) : raster :=
  let '(x1, y1, x2, y2) := b in
  {| r_width := x2 - x1;
     r_height := y2 - y1;
     r_pixel := fun x y =>
       if in_bounds r (x + x1, y + y1) then r_pixel r (x + x1) (y + y1) else 0%N |}.

(** [ImageDraw] and [ImageFont]. [truetype] is [None] where the library
    raises [OSError]. *)
Class Rasterizer := {
  font : Type;
  truetype : string -> Z -> option font;
  load_default : font;
  draw_line : raster -> Z * Z -> Z * Z -> string -> Z -> raster;
  draw_text : raster -> Z * Z -> string -> string -> font -> raster
}.

(** Image objects live in a heap; a location is the identity of an
    object. [copy] and [crop] allocate. *)
Abbreviation loc := nat (only parsing).
Abbreviation heap := (list raster) (only parsing).

Definition alloc (h : heap) (r : raster) : heap * loc := ((h ++ [r])%list, List.length h).

End Pil.

(** ** Compositing: [on_confirm] of the capture preview *)

Module Compose.
Import Pil.

Definition point : Type := Z * Z.

(** An entry of [annotation_paths]: points, colour, width. *)
Definition stroke : Type := list point * string * Z.

(** An entry of [text_annotations]: x, y, text, colour, font size. *)
Definition label : Type := Z * Z * string * string * Z.

(** The calls made on the [ImageDraw] object. *)
Inductive draw_call :=
| DrawLine (a b : point) (fill : string) (width : Z)
| DrawText (xy : point) (text fill : string) (size : Z).

(** [orig_x1 <= px <= orig_x2 and orig_y1 <= py <= orig_y2] *)
Definition in_region (reg : box) (p : point) : bool :=
  let '(x1, y1, x2, y2) := reg in
  (x1 <=? fst p) && (fst p <=? x2) && (y1 <=? snd p) && (snd p <=? y2).

Definition translate (reg : box) (p : point) : point :=
  let '(x1, y1, _, _) := reg in (fst p - x1, snd p - y1).

(** The inner loop that fills [adjusted_points]. *)
Definition adjusted_points (reg : box) (points : list point) : list point :=
  map (translate reg) (filter (fun p => in_region reg p = true) points).

(** [[pts[i], pts[i + 1]] for i in range(len(pts) - 1)] *)
Fixpoint consecutive (pts : list point) : list (point * point) :=
  match pts with
  | a :: (b :: _) as rest => (a, b) :: consecutive rest
  | _ => []
  end.

Definition line_calls (pts : list point) (color : string) (width : Z) : list draw_call :=
  map (fun ab => DrawLine (fst ab) (snd ab) color width) (consecutive pts).

(** The body of [for points, color, width in annotation_paths]. *)
Definition stroke_calls (selected_region : option box) (s : stroke) : list draw_call :=
  let '(points, color, width) := s in
  if (1 <? List.length points)%nat then
    match selected_region with
    | Some reg =>
        let adjusted := adjusted_points reg points in
        if (1 <? List.length adjusted)%nat then line_calls adjusted color width else []
    | None => line_calls points color width
    end
  else [].

(** The body of [for x, y, text, color, size in text_annotations]. *)
Definition label_calls (selected_region : option box) (l : label) : list draw_call :=
  let '(x, y, text, color, size) := l in
  match selected_region with
  | Some reg =>
      if in_region reg (x, y) then [DrawText (translate reg (x, y)) text color size] else []
  | None => [DrawText (x, y) text color size]
  end.

Definition draw_calls (selected_region : option box)
    (annotation_paths : list stroke) (text_annotations : list label) : list draw_call :=
  (flat_map (stroke_calls selected_region) annotation_paths
   ++ flat_map (label_calls selected_region) text_annotations)%list.

Section WithRasterizer.
Context {R : Rasterizer}.

Definition fonts_to_try : list string :=
  [ "SimHei"; "WenQuanYi Micro Hei"; "Heiti TC"; "Arial Unicode MS";
    "Microsoft YaHei"; "Arial";
    "C:/Windows/Fonts/simhei.ttf"; "C:/Windows/Fonts/msyh.ttf";
    "C:/Windows/Fonts/simsun.ttc"; "/Library/Fonts/SimHei.ttf";
    "/Library/Fonts/Microsoft YaHei.ttc";
    "/usr/share/fonts/opentype/noto/NotoSansSC-Regular.ttf";
    "/usr/share/fonts/truetype/wqy/wqy-zenhei.ttc" ].

Fixpoint first_font (sources : list string) (size : Z) : font :=
  match sources with
  | [] => load_default
  | src :: rest =>
      match truetype src size with
      | Some f => f
      | None => first_font rest size
      end
  end.

(** [Utils.get_font_with_chinese_support] *)
Definition get_font_with_chinese_support (size : Z) : font :=
  first_font fonts_to_try size.

Definition apply_call (r : raster) (c : draw_call) : raster :=
  match c with
  | DrawLine a b fill width => draw_line r a b fill width
  | DrawText xy text fill size =>
      draw_text r xy text fill (get_font_with_chinese_support size)
  end.

(** One call on [draw = ImageDraw.Draw(draw_image)] changes the object
    at [draw_image] and nothing else. *)
Definition draw_on (draw_image : loc) (h : heap) (c : draw_call) : heap :=
  alter (fun r => apply_call r c) draw_image h.

Definition nonempty {A} (l : list A) : bool :=
  match l with [] => false | _ => true end.

(** [on_confirm]. [original_image] is the object in
    [canvas.original_image]; the result is [preview_window.result], the
    pair of the final image object and the description. [None] only
    when [original_image] is not an object of the heap. *)
Definition on_confirm (h : heap) (original_image : loc)
    (selected_region : option box)
    (annotation_paths : list stroke) (text_annotations : list label)
    (description_var : string) : option (heap * (loc * string)) :=
  let description := PyStr.strip description_var in
  match h !! original_image with
  | None => None
  | Some base =>
      let '(h1, final_image) :=
        match selected_region with
        | Some reg => alloc h (crop base reg)
        | None => alloc h base
        end in
      if nonempty annotation_paths || nonempty text_annotations then
        match h1 !! final_image with
        | None => None
        | Some r =>
            let '(h2, draw_image) := alloc h1 r in
            let h3 := fold_left (draw_on draw_image)
                        (draw_calls selected_region annotation_paths text_annotations) h2 in
            Some (h3, (draw_image, description))
        end
      else Some (h1, (final_image, description))
  end.

End WithRasterizer.

(** *** The pointer handlers that produce the region and the strokes *)

Import Zoom.

(** [int((v - pos) / canvas.scale)] for an integer canvas coordinate. *)
Definition to_orig (v : Z) (pos s : Q) : Z :=
  py_int ((inject_Z v - pos) / s)%Q.

(** [on_mouse_up] in select mode: the region selected by a drag from
    [(start_x, start_y)] to [(event_x, event_y)], if it is accepted. *)
Definition select_region (c : canvas) (start_x start_y event_x event_y : Z) : option box :=
  let x1 := Z.min start_x event_x in
  let y1 := Z.min start_y event_y in
  let x2 := Z.max start_x event_x in
  let y2 := Z.max start_y event_y in
  if (x2 - x1 >? 5) && (y2 - y1 >? 5) then
    let orig_x1 := Z.max 0 (to_orig x1 (x_pos c) (scale c)) in
    let orig_y1 := Z.max 0 (to_orig y1 (y_pos c) (scale c)) in
    let orig_x2 := Z.min (original_width c) (to_orig x2 (x_pos c) (scale c)) in
    let orig_y2 := Z.min (original_height c) (to_orig y2 (y_pos c) (scale c)) in
    if (orig_x2 >? orig_x1) && (orig_y2 >? orig_y1)
    then Some (orig_x1, orig_y1, orig_x2, orig_y2) else None
  else None.

(** [on_mouse_move] in draw mode records a point when it lies on the
    image, both edges included. *)
Definition on_image (c : canvas) (x y : Z) : bool :=
  Qle_bool (x_pos c) (inject_Z x)
  && Qle_bool (inject_Z x) (x_pos c + inject_Z (resized_width c))
  && Qle_bool (y_pos c) (inject_Z y)
  && Qle_bool (inject_Z y) (y_pos c + inject_Z (resized_height c)).

(** [on_mouse_up] in draw mode: the recorded line in image coordinates,
    kept when it has more than one point. *)
Definition finish_stroke (c : canvas) (current_line : list point)
    (color : string) (width : Z) : option stroke :=
  if (1 <? List.length current_line)%nat then
    Some (map (fun p => (to_orig (fst p) (x_pos c) (scale c),
                         to_orig (snd p) (y_pos c) (scale c))) current_line,
          color, width)
  else None.

End Compose.

(** ** Python values as [json.load] returns them

    Numbers are integers: the tool writes only [duration] and capture
    ids. A [dict] keeps its items in insertion order; lookup takes the
    first item with the key. *)

Module Py.

Inductive pyval :=
| PNone
| PBool (b : bool)
| PInt (n : Z)
| PStr (s : string)
| PList (items : list pyval)
| PDict (items : list (string * pyval)).

Fixpoint assoc {A} (k : string) (d : list (string * A)) : option A :=
  match d with
  | [] => None
  | (k', v) :: rest => if String.eqb k k' then Some v else assoc k rest
  end.

(** [v[k]] for a string key; [None] where Python raises ([KeyError] on a
    dict without the key, [TypeError] on anything that is not a dict). *)
Definition getitem (v : pyval) (k : string) : option pyval :=
  match v with
  | PDict d => assoc k d
  | _ => None
  end.

(** The numeric value of an [int] or [bool]. *)
Definition as_number (v : pyval) : option Z :=
  match v with
  | PInt n => Some n
  | PBool b => Some (if b then 1 else 0)
  | _ => None
  end.

(** [a == b] *)
Fixpoint py_eqb (a b : pyval) {struct a} : bool :=
  match a, b with
  | PNone, PNone => true
  | PStr s, PStr t => String.eqb s t
  | PList xs, PList ys =>
      (fix go (xs ys : list pyval) {struct xs} : bool :=
         match xs, ys with
         | [], [] => true
         | x :: xs', y :: ys' => py_eqb x y && go xs' ys'
         | _, _ => false
         end) xs ys
  | PDict d, PDict e =>
      (List.length d =? List.length e)%nat &&
      (fix go (d : list (string * pyval)) : bool :=
         match d with
         | [] => true
         | (k, v) :: rest =>
             match assoc k e with
             | Some w => py_eqb v w && go rest
             | None => false
             end
         end) d
  | _, _ =>
      match as_number a, as_number b with
      | Some m, Some n => m =? n
      | _, _ => false
      end
  end.

(** [a < b]; [None] where Python raises [TypeError]. Strings compare
    character by character, lists element by element. *)
Fixpoint py_lt (a b : pyval) {struct a} : option bool :=
  match a, b with
  | PStr s, PStr t => Some (String.ltb s t)
  | PList xs, PList ys =>
      (fix go (xs ys : list pyval) {struct xs} : option bool :=
         match xs, ys with
         | [], [] => Some false
         | [], _ :: _ => Some true
         | _ :: _, [] => Some false
         | x :: xs', y :: ys' => if py_eqb x y then go xs' ys' else py_lt x y
         end) xs ys
  | _, _ =>
      match as_number a, as_number b with
      | Some m, Some n => Some (m <? n)
      | _, _ => None
      end
  end.

(** [l.sort(key=..., reverse=True)] on (key, item) pairs: a stable sort
    into descending key order. [None] when a comparison raises. *)
Fixpoint insert_desc (kx : pyval * pyval) (sorted : list (pyval * pyval))
    : option (list (pyval * pyval)) :=
  match sorted with
  | [] => Some [kx]
  | ky :: rest =>
      match py_lt (fst kx) (fst ky) with
      | None => None
      | Some true => option_map (cons ky) (insert_desc kx rest)
      | Some false => Some (kx :: ky :: rest)
      end
  end.

Fixpoint sort_desc (l : list (pyval * pyval)) : option (list (pyval * pyval)) :=
  match l with
  | [] => Some []
  | kx :: rest =>
      match sort_desc rest with
      | Some sorted => insert_desc kx sorted
      | None => None
      end
  end.

(** The key function is applied to every item before anything moves. *)
Fixpoint keyed (key : pyval -> option pyval) (l : list pyval)
    : option (list (pyval * pyval)) :=
  match l with
  | [] => Some []
  | x :: rest =>
      match key x, keyed key rest with
      | Some k, Some krest => Some ((k, x) :: krest)
      | _, _ => None
      end
  end.

Definition sort_by_key_desc (key : pyval -> option pyval) (l : list pyval)
    : option (list pyval) :=
  match keyed key l with
  | Some kl => option_map (map snd) (sort_desc kl)
  | None => None
  end.

(** [sub in s] for strings: [sub] occurs in [s]. *)
Fixpoint contains (s sub : string) : bool :=
  String.prefix sub s ||
  match s with
  | EmptyString => false
  | String _ r => contains r sub
  end.

(** [k in v] for a string [k]; [None] where Python raises [TypeError]. *)
Definition py_in (k : string) (v : pyval) : option bool :=
  match v with
  | PDict d => Some (match assoc k d with Some _ => true | None => false end)
  | PList l => Some (existsb (py_eqb (PStr k)) l)
  | PStr s => Some (contains s k)
  | _ => None
  end.

(** [all(k in v for k in keys)] *)
Fixpoint all_in (keys : list string) (v : pyval) : option bool :=
  match keys with
  | [] => Some true
  | k :: rest =>
      match py_in k v with
      | Some true => all_in rest v
      | other => other
      end
  end.

(** [len(v)], [None] where Python raises. *)
Definition py_len (v : pyval) : option nat :=
  match v with
  | PStr s => Some (String.length s)
  | PList l => Some (List.length l)
  | PDict d => Some (List.length d)
  | _ => None
  end.

End Py.

(** ** Sessions and captures

    The dicts the tool builds itself have a fixed set of keys; they are
    records here, and [session_to_py] is the dict that [json.dump]
    writes. *)

Module Session.
Import Py.

Record capture := {
  cap_id : Z;
  cap_time : string;
  cap_description : string;
  cap_image_path : string
}.

Record session := {
  s_id : string;
  s_name : string;
  s_description : string;
  s_start_time : string;
  s_end_time : string;
  s_duration : Z;
  s_captures : list capture
}.

Definition capture_to_py (c : capture) : pyval :=
  PDict [ ("id", PInt (cap_id c)); ("time", PStr (cap_time c));
          ("description", PStr (cap_description c));
          ("image_path", PStr (cap_image_path c)) ].

Definition session_to_py (s : session) : pyval :=
  PDict [ ("id", PStr (s_id s)); ("name", PStr (s_name s));
          ("description", PStr (s_description s));
          ("start_time", PStr (s_start_time s));
          ("end_time", PStr (s_end_time s));
          ("duration", PInt (s_duration s));
          ("captures", PList (map capture_to_py (s_captures s))) ].

(** [_init_empty_session] *)
Definition init_empty_session : session :=
  {| s_id := ""; s_name := ""; s_description := ""; s_start_time := "";
     s_end_time := ""; s_duration := 0; s_captures := [] |}.

Definition set_captures (s : session) (cs : list capture) : session :=
  {| s_id := s_id s; s_name := s_name s; s_description := s_description s;
     s_start_time := s_start_time s; s_end_time := s_end_time s;
     s_duration := s_duration s; s_captures := cs |}.

Definition set_cap_id (c : capture) (n : Z) : capture :=
  {| cap_id := n; cap_time := cap_time c; cap_description := cap_description c;
     cap_image_path := cap_image_path c |}.

Definition set_cap_description (c : capture) (d : string) : capture :=
  {| cap_id := cap_id c; cap_time := cap_time c; cap_description := d;
     cap_image_path := cap_image_path c |}.

(** The ids of the captures, in list order. *)
Definition capture_ids (s : session) : list Z := map cap_id (s_captures s).

(** [1, 2, ..., n] *)
Definition one_to (n : nat) : list Z := map (fun i => Z.of_nat i + 1) (seq 0 n).

Definition contiguous (s : session) : Prop :=
  capture_ids s = one_to (List.length (s_captures s)).

(** The decimal numeral of [n], for the placeholder description. *)
Definition decimal (n : Z) : string := NilZero.string_of_int (Z.to_int n).

(** The placeholder of a capture without a description. The characters
    of the literal lie outside the one-byte range and are written in
    UTF-8. *)
Definition placeholder_description (capture_count : Z) : string :=
  ("第" ++ decimal capture_count ++ "次记录")%string.

(** The lines of [capture_screen] that add the record:
    [capture_count = len(captures) + 1] and the [append]. *)
Definition append_capture (s : session) (time description img_path : string) : session :=
  let capture_count := Z.of_nat (List.length (s_captures s)) + 1 in
  set_captures s
    (s_captures s ++
     [ {| cap_id := capture_count;
          cap_time := time;
          cap_description :=
            if PyStr.is_empty description
            then placeholder_description capture_count else description;
          cap_image_path := img_path |} ])%list.

(** The search loop of [handle_capture_operation] and
    [preview_screenshot]: the first capture with the id, and its index. *)
Definition find_capture (s : session) (capture_id : Z) : option (nat * capture) :=
  list_find (fun cap => cap_id cap = capture_id) (s_captures s).

(** [for i, cap in enumerate(captures): cap["id"] = i + 1] *)
Definition renumber (cs : list capture) : list capture :=
  imap (fun i cap => set_cap_id cap (Z.of_nat i + 1)) cs.

(** [del session["captures"][capture_idx]] followed by the renumbering. *)
Definition delete_capture (s : session) (capture_idx : nat) : session :=
  set_captures s (renumber (delete capture_idx (s_captures s))).

End Session.

(** ** The file system and the dialogs

    Paths are strings, compared as strings. The store is a list of
    entries in the order in which a directory listing enumerates them;
    a new entry goes to the end. [w_locked] holds the paths on which
    the operating system refuses to remove or write. *)

Module Os.
Import Py Pil.

Inductive node :=
| Dir
| TextFile (parsed : option pyval)  (* what [json.load] yields; [None]: it raises *)
| ImageFile (r : raster).

Definition fs := list (string * node).

(** Message boxes, the temporary tip and the editor window, in the
    order in which they are shown. *)
Inductive ui_event :=
| WarnAlreadyCapturing
| WarnNameEmpty
| ErrCreateDirectory
| ErrHotkeyPermission
| ErrHotkeyRegistration
| InfoCaptureStarted
| WarnHotkeyCleanup
| InfoNothingToEdit
| OpenEditor (session_id : string)
| ErrMissingDependency
| ErrScreenshot
| ErrSaveScreenshot
| TempTip (capture_count : Z) (cropped : bool)
| ErrSaveSession
| ErrLoadHistory
| ErrDeleteImage
| WarnScreenshotMissing
| ErrSaveUpdatedScreenshot
| InfoAnnotationSaved
| ErrPreviewLoad
| WarnFileCorrupt (filename : string)
| WarnLoadFailed (filename : string)
| NoteFieldsMissing (filename : string).

Record world := {
  w_fs : fs;
  w_locked : list string;
  w_log : list ui_event
}.

Definition with_fs (w : world) (f : fs) : world :=
  {| w_fs := f; w_locked := w_locked w; w_log := w_log w |}.

Definition show (w : world) (e : ui_event) : world :=
  {| w_fs := w_fs w; w_locked := w_locked w; w_log := (w_log w ++ [e])%list |}.

Definition lookup (f : fs) (p : string) : option node := assoc p f.

(** [os.path.exists] *)
Definition exists_ (w : world) (p : string) : bool :=
  match lookup (w_fs w) p with Some _ => true | None => false end.

Fixpoint replace (f : fs) (p : string) (n : node) : fs :=
  match f with
  | [] => []
  | (q, m) :: rest =>
      if String.eqb p q then (q, n) :: rest else (q, m) :: replace rest p n
  end.

Definition put (f : fs) (p : string) (n : node) : fs :=
  match lookup f p with
  | Some _ => replace f p n
  | None => (f ++ [(p, n)])%list
  end.

Definition locked (w : world) (p : string) : bool := PyStr.mem p (w_locked w).

(** Writing a file, as [open(p, "w")] with [json.dump] or [Image.save]
    do: [None] where that raises, on a locked path or a directory. *)
Definition write (w : world) (p : string) (n : node) : option world :=
  if locked w p then None
  else match lookup (w_fs w) p with
       | Some Dir => None
       | _ => Some (with_fs w (put (w_fs w) p n))
       end.

(** [os.remove]: [None] where it raises, on a missing path, a directory
    or a locked path. *)
Definition remove (w : world) (p : string) : option world :=
  if locked w p then None
  else match lookup (w_fs w) p with
       | Some Dir | None => None
       | Some _ => Some (with_fs w (filter (fun e => negb (String.eqb (fst e) p)) (w_fs w)))
       end.

(** [os.makedirs] on a path that does not exist. *)
Definition makedirs (w : world) (p : string) : option world :=
  if locked w p then None else Some (with_fs w (put (w_fs w) p Dir)).

(** [os.path.join] of two components (POSIX). *)
Definition dir_prefix (d : string) : string :=
  if PyStr.is_empty d || PyStr.endswith d "/" then d else (d ++ "/")%string.

Definition join (a b : string) : string :=
  if PyStr.startswith_char "/" b then b else (dir_prefix a ++ b)%string.

Fixpoint strip_prefix (pre s : string) : option string :=
  match pre, s with
  | EmptyString, _ => Some s
  | String c pre', String d s' => if Ascii.eqb c d then strip_prefix pre' s' else None
  | String _ _, EmptyString => None
  end.

Definition is_name (n : string) : bool :=
  negb (PyStr.is_empty n) && PyStr.all_chars (fun c => negb (Ascii.eqb c "/")) n.

(** The name under which a path is an entry of directory [d], if it is
    one. *)
Definition child_name (d p : string) : option string :=
  match strip_prefix (dir_prefix d) p with
  | Some n => if is_name n then Some n else None
  | None => None
  end.

(** [os.listdir]: [None] where it raises because [d] is not a
    directory. *)
Definition listdir (w : world) (d : string) : option (list string) :=
  match lookup (w_fs w) d with
  | Some Dir => Some (omap (fun e => child_name d (fst e)) (w_fs w))
  | _ => None
  end.

(** [json.load(open(p))]: [None] where opening or parsing raises. *)
Definition read_json (w : world) (p : string) : option pyval :=
  match lookup (w_fs w) p with
  | Some (TextFile (Some v)) => Some v
  | _ => None
  end.

(** [Image.open(p)]: [None] where it raises. *)
Definition open_image (w : world) (p : string) : option raster :=
  match lookup (w_fs w) p with
  | Some (ImageFile r) => Some r
  | _ => None
  end.

(** The path can be written: it is not locked and not a directory. *)
Definition writable (w : world) (p : string) : Prop :=
  locked w p = false /\ lookup (w_fs w) p <> Some Dir.

(** Every entry of directory [d] named [*.json] opens and parses. *)
Definition records_load (w : world) (d : string) : Prop :=
  forall names name,
    listdir w d = Some names -> In name names ->
    PyStr.endswith name ".json" = true ->
    read_json w (join d name) <> None.

End Os.

(** ** [ScreenCaptureTool]

    The object's attributes are the record [tool]; a method takes the
    tool and the world and returns both. What the user answers in a
    dialog, what the clock shows and what an external call does arrive
    as arguments. *)

Module Tool.
Import Py Pil Session Os Compose.

Record tool := {
  current_session_id : option string;
  current_session : session;
  history_sessions : list pyval;
  sessions_dir : string;
  is_capturing : bool;
  hotkey : string;
  hotkey_obj : option string;
  start_time : Q;
  images_dir : string
}.

Definition set_session (t : tool) (id : option string) (s : session) : tool :=
  {| current_session_id := id; current_session := s;
     history_sessions := history_sessions t; sessions_dir := sessions_dir t;
     is_capturing := is_capturing t; hotkey := hotkey t; hotkey_obj := hotkey_obj t;
     start_time := start_time t; images_dir := images_dir t |}.

Definition set_history (t : tool) (h : list pyval) : tool :=
  {| current_session_id := current_session_id t; current_session := current_session t;
     history_sessions := h; sessions_dir := sessions_dir t;
     is_capturing := is_capturing t; hotkey := hotkey t; hotkey_obj := hotkey_obj t;
     start_time := start_time t; images_dir := images_dir t |}.

Definition set_capturing (t : tool) (b : bool) (obj : option string) (started : Q) : tool :=
  {| current_session_id := current_session_id t; current_session := current_session t;
     history_sessions := history_sessions t; sessions_dir := sessions_dir t;
     is_capturing := b; hotkey := hotkey t; hotkey_obj := obj;
     start_time := started; images_dir := images_dir t |}.

Definition set_images_dir (t : tool) (d : string) : tool :=
  {| current_session_id := current_session_id t; current_session := current_session t;
     history_sessions := history_sessions t; sessions_dir := sessions_dir t;
     is_capturing := is_capturing t; hotkey := hotkey t; hotkey_obj := hotkey_obj t;
     start_time := start_time t; images_dir := d |}.

(** How a call ends: it returns, or an exception leaves it. *)
Inductive completion := Returned | Raised.

(** The path of the record of a session id. *)
Definition session_path (dir id : string) : string := join dir (id ++ ".json")%string.

(** [save_session] *)
Definition save_session (dir : string) (s : session) (w : world) : world :=
  match write w (session_path dir (s_id s)) (TextFile (Some (session_to_py s))) with
  | Some w' => w'
  | None => show w ErrSaveSession
  end.

(** [save_current_session]. The guard tests the id and the session dict
    for truth; the dict has its seven keys and is never empty, so the
    id decides. *)
Definition save_current_session (t : tool) (w : world) : world :=
  match current_session_id t with
  | Some id =>
      if PyStr.is_empty id then w else save_session (sessions_dir t) (current_session t) w
  | None => w
  end.

(** The [for] loop of [load_history_sessions] over the listing: the
    sessions appended so far, and whether the loop ran to its end. *)
Fixpoint load_files (w : world) (dir : string) (names : list string) (acc : list pyval)
    : list pyval * bool :=
  match names with
  | [] => (acc, true)
  | filename :: rest =>
      if PyStr.endswith filename ".json" then
        match read_json w (join dir filename) with
        | Some session => load_files w dir rest (acc ++ [session])%list
        | None => (acc, false)
        end
      else load_files w dir rest acc
  end.

(** [load_history_sessions]. One [try] encloses the loop and the sort:
    the first exception ends the loading with an error dialog and
    leaves in [history_sessions] what had been appended. When the sort
    raises, the order of the list is the order before the sort. *)
Definition load_history_sessions (t : tool) (w : world) : tool * world :=
  match listdir w (sessions_dir t) with
  | None => (set_history t [], show w ErrLoadHistory)
  | Some names =>
      match load_files w (sessions_dir t) names [] with
      | (loaded, false) => (set_history t loaded, show w ErrLoadHistory)
      | (loaded, true) =>
          match sort_by_key_desc (fun x => getitem x "start_time") loaded with
          | Some sorted => (set_history t sorted, w)
          | None => (set_history t loaded, show w ErrLoadHistory)
          end
      end
  end.

(** The row [update_history_list] inserts for a session can be built:
    [name], [start_time] and [id] are there, [duration] is a number and
    [captures] has a length. *)
Definition displayable (v : pyval) : bool :=
  match getitem v "name", getitem v "start_time", getitem v "duration",
        getitem v "captures", getitem v "id" with
  | Some _, Some _, Some d, Some c, Some _ =>
      match as_number d, py_len c with
      | Some _, Some _ => true
      | _, _ => false
      end
  | _, _, _, _, _ => false
  end.

(** [update_history_list]; the rows of the table are not kept. *)
Definition update_history_list (t : tool) : completion :=
  if forallb displayable (history_sessions t) then Returned else Raised.

(** The id under which a loaded session is listed. *)
Definition loaded_id (v : pyval) : option string :=
  match getitem v "id" with
  | Some (PStr id) => Some id
  | _ => None
  end.

Definition history_ids (t : tool) : list string := omap loaded_id (history_sessions t).

(** The fields a persisted session record must have. *)
Definition required_fields : list string :=
  ["id"; "name"; "description"; "start_time"; "end_time"; "duration"; "captures"].

(** A loaded value is a record with every required field. *)
Definition well_formed_record (v : pyval) : bool :=
  forallb (fun k => match getitem v k with Some _ => true | None => false end)
    required_fields.

(** The records of the first entries of a listing, for the entries
    named [*.json]. *)
Definition records_of (w : world) (dir : string) (names : list string) : list pyval :=
  omap (fun n => if PyStr.endswith n ".json" then read_json w (join dir n) else None) names.

(** *** Starting and stopping *)

Inductive hotkey_result := HotkeyRegistered | HotkeyPermissionError | HotkeyOtherError.

Record start_input := {
  ask_name : option string;        (* the answer to the name dialog *)
  ask_description : option string; (* the answer to the description dialog *)
  new_uuid : string;               (* str(uuid.uuid4()) *)
  start_timestamp : string;        (* Utils.get_timestamp() *)
  start_clock : Q;                 (* time.time() *)
  add_hotkey : hotkey_result       (* keyboard.add_hotkey *)
}.

Definition blank (s : option string) : bool :=
  match s with
  | None => true
  | Some n => PyStr.is_empty n || PyStr.is_empty (PyStr.strip n)
  end.

(** [Utils.ensure_dir] *)
Definition ensure_dir (w : world) (path : string) : world * bool :=
  if exists_ w path then (w, true)
  else match makedirs w path with
       | Some w' => (w', true)
       | None => (show w ErrCreateDirectory, false)
       end.

(** [start_capture] *)
Definition start_capture (i : start_input) (t : tool) (w : world) : tool * world :=
  if is_capturing t then (t, show w WarnAlreadyCapturing)
  else if blank (ask_name i) then (t, show w WarnNameEmpty)
  else
    let session_name := PyStr.strip (default "" (ask_name i)) in
    let t1 := set_session t (Some (new_uuid i))
                {| s_id := new_uuid i; s_name := session_name;
                   s_description :=
                     match ask_description i with
                     | Some d => d     (* [answer or ""] *)
                     | None => ""
                     end;
                   s_start_time := start_timestamp i; s_end_time := "";
                   s_duration := 0; s_captures := [] |} in
    let t2 := set_images_dir t1 (join (sessions_dir t1) (new_uuid i)) in
    match ensure_dir w (images_dir t2) with
    | (w1, false) => (t2, w1)
    | (w1, true) =>
        match add_hotkey i with
        | HotkeyPermissionError => (t2, show w1 ErrHotkeyPermission)
        | HotkeyOtherError => (t2, show w1 ErrHotkeyRegistration)
        | HotkeyRegistered =>
            (set_capturing t2 true (Some (hotkey t2)) (start_clock i),
             show w1 InfoCaptureStarted)
        end
    end.

Record stop_input := {
  remove_hotkey_ok : bool;  (* keyboard.remove_hotkey returns *)
  stop_timestamp : string;  (* Utils.get_timestamp() *)
  stop_clock : Q            (* time.time() *)
}.

Definition finish_session (s : session) (end_time : string) (duration : Z) : session :=
  {| s_id := s_id s; s_name := s_name s; s_description := s_description s;
     s_start_time := s_start_time s; s_end_time := end_time;
     s_duration := duration; s_captures := s_captures s |}.

(** [stop_capture] *)
Definition stop_capture (i : stop_input) (t : tool) (w : world)
    : tool * world * completion :=
  if negb (is_capturing t) then (t, w, Returned)
  else
    let '(obj, w1) :=
      match hotkey_obj t with
      | Some h => if remove_hotkey_ok i then (None, w) else (Some h, show w WarnHotkeyCleanup)
      | None => (None, w)
      end in
    let t1 := set_capturing t false obj (start_time t) in
    let t2 := set_session t1 (current_session_id t1)
                (finish_session (current_session t1) (stop_timestamp i)
                   (Zoom.py_int (stop_clock i - start_time t1)%Q)) in
    let w2 := save_current_session t2 w1 in
    let '(t3, w3) := load_history_sessions t2 w2 in
    match update_history_list t3 with
    | Raised => (t3, w3, Raised)
    | Returned =>
        if nonempty (s_captures (current_session t3))
        then (t3, show w3 (OpenEditor (s_id (current_session t3))), Returned)
        else (t3, show w3 InfoNothingToEdit, Returned)
    end.

(** The session as [stop_capture] stamps it. *)
Definition stopped_session (i : stop_input) (t : tool) : session :=
  finish_session (current_session t) (stop_timestamp i)
    (Zoom.py_int (stop_clock i - start_time t)%Q).

(** *** The capture preview, a trigger, and the editor window *)

(** What the user does in the preview window: cancel, or confirm with
    the region, strokes, labels and description text present then. *)
Inductive interaction :=
| Cancel
| Confirm (selected_region : option box) (annotation_paths : list stroke)
          (text_annotations : list label) (description_var : string).

Inductive grab_result :=
| Grabbed (screenshot : raster)  (* ImageGrab.grab() returns *)
| GrabImportError
| GrabOtherError.

Record trigger_input := {
  grab : grab_result;
  user : interaction;
  file_timestamp : string;     (* Utils.get_file_timestamp() *)
  capture_timestamp : string;  (* Utils.get_timestamp() *)
  on_stop : stop_input         (* for the stop after a missing dependency *)
}.

(** The two operations of the action column of the capture table. *)
Inductive capture_action :=
| EditDescription (answer : option string)  (* the dialog's result *)
| DeleteCapture (confirmed : bool).         (* the answer to askyesno *)

Definition describe (s : session) (capture_idx : nat) (d : string) : session :=
  set_captures s (alter (fun c => set_cap_description c d) capture_idx (s_captures s)).

(** [handle_capture_operation] for a click in the action column of the
    row tagged [capture_id]. *)
Definition handle_capture_operation (dir : string) (capture_id : Z) (a : capture_action)
    (s : session) (w : world) : session * world :=
  match find_capture s capture_id with
  | None => (s, w)
  | Some (capture_idx, target_capture) =>
      match a with
      | EditDescription None => (s, w)
      | EditDescription (Some new_desc) =>
          let s' := describe s capture_idx new_desc in
          (s', save_session dir s' w)
      | DeleteCapture false => (s, w)
      | DeleteCapture true =>
          let removed :=
            if exists_ w (cap_image_path target_capture)
            then remove w (cap_image_path target_capture)
            else Some w in
          match removed with
          | None => (s, show w ErrDeleteImage)
          | Some w1 =>
              let s' := delete_capture s capture_idx in
              (s', save_session dir s' w1)
          end
      end
  end.

Section WithRasterizer.
Context {R : Rasterizer}.

(** [show_capture_preview]: the window's result. *)
Definition show_capture_preview (h : heap) (screenshot : loc) (u : interaction)
    : heap * option (loc * string) :=
  match u with
  | Cancel => (h, None)
  | Confirm reg paths texts d =>
      match on_confirm h screenshot reg paths texts d with
      | Some (h', result) => (h', Some result)
      | None => (h, None)
      end
  end.

Definition same_size (a b : raster) : bool :=
  (r_width a =? r_width b) && (r_height a =? r_height b).

(** [capture_screen], the hotkey callback. *)
Definition capture_screen (i : trigger_input) (t : tool) (w : world) (h : heap)
    : tool * world * heap * completion :=
  if negb (is_capturing t) then (t, w, h, Returned)
  else
    match (if exists_ w (images_dir t) then Some w else makedirs w (images_dir t)) with
    | None => (t, show w ErrScreenshot, h, Returned)
    | Some w1 =>
        match grab i with
        | GrabImportError =>
            let '(t', w', c) := stop_capture (on_stop i) t (show w1 ErrMissingDependency) in
            (t', w', h, c)
        | GrabOtherError => (t, show w1 ErrScreenshot, h, Returned)
        | Grabbed shot =>
            let '(h1, screenshot) := alloc h shot in
            match show_capture_preview h1 screenshot (user i) with
            | (h2, None) => (t, w1, h2, Returned)
            | (h2, Some (final_image, description)) =>
                match h2 !! final_image with
                | None => (t, w1, h2, Returned)
                | Some final =>
                    let img_path :=
                      join (images_dir t) ("capture_" ++ file_timestamp i ++ ".png")%string in
                    match write w1 img_path (ImageFile final) with
                    | None => (t, show w1 ErrSaveScreenshot, h2, Returned)
                    | Some w2 =>
                        let s' := append_capture (current_session t)
                                    (capture_timestamp i) description img_path in
                        (set_session t (current_session_id t) s',
                         show w2 (TempTip (Z.of_nat (List.length (s_captures s')))
                                          (negb (same_size final shot))),
                         h2, Returned)
                    end
                end
            end
        end
    end.

(** [preview_screenshot], the double click on a row of the capture
    table: the stored capture is opened in the preview and, when the
    user confirms, the result is saved over it. *)
Definition preview_screenshot (dir : string) (capture_id : Z) (u : interaction)
    (s : session) (w : world) (h : heap) : session * world * heap :=
  match find_capture s capture_id with
  | None => (s, show w WarnScreenshotMissing, h)
  | Some (capture_idx, target_capture) =>
      let path := cap_image_path target_capture in
      if negb (exists_ w path) then (s, show w WarnScreenshotMissing, h)
      else
        match open_image w path with
        | None => (s, show w ErrPreviewLoad, h)
        | Some img =>
            let '(h0, _) := alloc h img in
            let '(h1, screenshot) := alloc h0 img in
            let original_description := cap_description target_capture in
            match show_capture_preview h1 screenshot u with
            | (h2, None) => (s, w, h2)
            | (h2, Some (updated_image, updated_description)) =>
                match h2 !! updated_image with
                | None => (s, w, h2)
                | Some updated =>
                    match write w path (ImageFile updated) with
                    | None => (s, show w ErrSaveUpdatedScreenshot, h2)
                    | Some w1 =>
                        let s' :=
                          if String.eqb updated_description original_description then s
                          else describe s capture_idx updated_description in
                        (s', show (save_session dir s' w1) InfoAnnotationSaved, h2)
                    end
                end
            end
        end
  end.

End WithRasterizer.

(** *** Sequences of structural operations on one session *)

Inductive capture_op :=
| OpAppend (time description img_path : string)
| OpClick (capture_id : Z) (a : capture_action).

Definition apply_op (dir : string) (o : capture_op) (sw : session * world)
    : session * world :=
  match o with
  | OpAppend time description img_path =>
      (append_capture (fst sw) time description img_path, snd sw)
  | OpClick capture_id a => handle_capture_operation dir capture_id a (fst sw) (snd sw)
  end.

(** The session and the world after each operation. *)
Fixpoint op_trace (dir : string) (ops : list capture_op) (sw : session * world)
    : list (session * world) :=
  match ops with
  | [] => []
  | o :: rest => let sw' := apply_op dir o sw in sw' :: op_trace dir rest sw'
  end.

End Tool.

(** ** The loader of [screen_capture_tool1.1.py]

    The earlier version of the tool reads each record under a [try] of
    its own and checks the required keys before it keeps the record. *)

Module ToolV11.
Import Py Os Tool.

Definition required_keys : list string :=
  ["id"; "name"; "start_time"; "end_time"; "duration"; "captures"].

(** The body of the loop for one file name ending in [.json]: the
    record to append, or the diagnostic. *)
Definition load_one (w : world) (dir filename : string) : pyval + ui_event :=
  match lookup (w_fs w) (join dir filename) with
  | Some (TextFile (Some session)) =>
      match all_in required_keys session with
      | Some true => inl session
      | Some false => inr (NoteFieldsMissing filename)
      | None => inr (WarnLoadFailed filename)
      end
  | Some (TextFile None) => inr (WarnFileCorrupt filename)
  | _ => inr (WarnLoadFailed filename)
  end.

Fixpoint load_files (w : world) (dir : string) (names : list string)
    (acc : list pyval) (log : list ui_event) : list pyval * list ui_event :=
  match names with
  | [] => (acc, log)
  | filename :: rest =>
      if negb (PyStr.endswith filename ".json") then load_files w dir rest acc log
      else match load_one w dir filename with
           | inl session => load_files w dir rest (acc ++ [session])%list log
           | inr e => load_files w dir rest acc (log ++ [e])%list
           end
  end.

Definition add_log (w : world) (es : list ui_event) : world :=
  {| w_fs := w_fs w; w_locked := w_locked w; w_log := (w_log w ++ es)%list |}.

(** [load_history_sessions] of version 1.1. The sort stands outside
    every [try]. *)
Definition load_history_sessions (t : tool) (w : world) : tool * world * completion :=
  if negb (exists_ w (sessions_dir t)) then (set_history t [], w, Returned)
  else
    match listdir w (sessions_dir t) with
    | None => (set_history t [], w, Raised)
    | Some names =>
        let '(loaded, log) := load_files w (sessions_dir t) names [] [] in
        match sort_by_key_desc (fun x => getitem x "start_time") loaded with
        | Some sorted => (set_history t sorted, add_log w log, Returned)
        | None => (set_history t loaded, add_log w log, Raised)
        end
    end.

(** The records kept and the diagnostics shown for a listing. *)
Definition kept (w : world) (dir : string) (names : list string) : list pyval :=
  omap (fun n =>
          if PyStr.endswith n ".json"
          then match load_one w dir n with inl v => Some v | inr _ => None end
          else None) names.

Definition diagnostics (w : world) (dir : string) (names : list string) : list ui_event :=
  omap (fun n =>
          if PyStr.endswith n ".json"
          then match load_one w dir n with inl _ => None | inr e => Some e end
          else None) names.

End ToolV11.

(** ** Concrete inputs used in the examples *)

Module Demo.
Import Zoom.
Local Open Scope Q_scope.

Definition demo_canvas : canvas := init_canvas 1920 1080 3840 2160.


Definition zoom_in_at (x y : Q) : wheel_event :=
  {| mouse_x := x; mouse_y := y; delta := Some 120%Z; num := 0 |}.

Definition zoom_out_at (x y : Q) : wheel_event :=
  {| mouse_x := x; mouse_y := y; delta := Some (-120)%Z; num := 0 |}.

End Demo.

Module Sample.
Import Py Pil Session Os Tool Compose.

Definition dir : string := "/home/u/.screen_capture_sessions".
Definition sid : string := "0b9d4c1e-5a77-4a0e-9c55-2f1d3e6a7b80".

Definition img1 : string := join (join dir sid) "capture_20240101_120003.png".
Definition img2 : string := join (join dir sid) "capture_20240101_120010.png".

Definition flat (width height : Z) (p : pixel) : raster :=
  {| r_width := width; r_height := height; r_pixel := fun _ _ => p |}.

(** A stopped session with two captures. *)
Definition two_captures : session :=
  {| s_id := sid; s_name := "Demo"; s_description := "";
     s_start_time := "2024-01-01 12:00:00"; s_end_time := "2024-01-01 12:00:20";
     s_duration := 20;
     s_captures :=
       [ {| cap_id := 1; cap_time := "2024-01-01 12:00:03";
            cap_description := "open the dialog"; cap_image_path := img1 |};
         {| cap_id := 2; cap_time := "2024-01-01 12:00:10";
            cap_description := "press save"; cap_image_path := img2 |} ] |}.

Definition store : fs :=
  [ (dir, Dir); (join dir sid, Dir);
    (img1, ImageFile (flat 20 20 7%N)); (img2, ImageFile (flat 20 20 9%N));
    (session_path dir sid, TextFile (Some (session_to_py two_captures))) ].

Definition world0 : world := {| w_fs := store; w_locked := []; w_log := [] |}.

(** The first image cannot be removed. *)
Definition world_locked : world := {| w_fs := store; w_locked := [img1]; w_log := [] |}.

(** The first image has disappeared from the disk. *)
Definition world_missing : world :=
  {| w_fs := filter (fun e => negb (String.eqb (fst e) img1)) store;
     w_locked := []; w_log := [] |}.

(** The tool as [__init__] leaves it, over an empty sessions directory. *)
Definition tool0 : tool :=
  {| current_session_id := None; current_session := init_empty_session;
     history_sessions := []; sessions_dir := dir; is_capturing := false;
     hotkey := "ctrl+alt+o"; hotkey_obj := None; start_time := 0; images_dir := "" |}.

Definition empty_store : world := {| w_fs := [(dir, Dir)]; w_locked := []; w_log := [] |}.

Definition start_demo : start_input :=
  {| ask_name := Some "Demo"; ask_description := None; new_uuid := sid;
     start_timestamp := "2024-01-01 12:00:00"; start_clock := 1704110400;
     add_hotkey := HotkeyRegistered |}.

Definition stop_demo : stop_input :=
  {| remove_hotkey_ok := true; stop_timestamp := "2024-01-01 12:00:20";
     stop_clock := (3408220841 # 2) |}.

(** Armed, nothing captured yet. *)
Definition armed : tool * world := start_capture start_demo tool0 empty_store.

(** A record cut short by hand: no [captures]. *)
Definition truncated_record : pyval :=
  PDict [ ("id", PStr "t1"); ("name", PStr "cut");
          ("start_time", PStr "2024-02-01 09:00:00") ].

(** A sessions directory whose first entry is not valid JSON. *)
Definition broken_store : world :=
  {| w_fs := [ (dir, Dir); (join dir "a.json", TextFile None);
               (session_path dir sid, TextFile (Some (session_to_py two_captures))) ];
     w_locked := []; w_log := [] |}.

(** A sessions directory with the truncated record next to a whole one. *)
Definition truncated_store : world :=
  {| w_fs := [ (dir, Dir); (session_path dir sid, TextFile (Some (session_to_py two_captures)));
               (join dir "t1.json", TextFile (Some truncated_record)) ];
     w_locked := []; w_log := [] |}.

End Sample.

Module SampleCompose.
Import Pil Compose Zoom.

(** The preview of a 20 x 20 capture on a 100 x 100 screen: scale 1,
    image at (40, 40). *)
Definition small_canvas : canvas := init_canvas 100 100 20 20.

(** The region selected by dragging from the image corner to the image
    centre, and a stroke drawn down the line that ends the region. *)
Definition dragged_region : option box := select_region small_canvas 40 40 50 50.
Definition edge_stroke : option stroke :=
  finish_stroke small_canvas [(50, 45); (50, 47)] "red" 2.

Definition edge_region : box := (0, 0, 10, 10).
Definition edge_points : list point := [(10, 5); (10, 7)].

(** A stroke that leaves the region and comes back. *)
Definition crossing_points : list point := [(2, 2); (4, 4); (14, 4); (15, 9); (9, 9)].

(** A rasterizer that draws nothing, for running [on_confirm] on inputs
    where what is drawn does not matter. *)
Definition blank_rasterizer : Rasterizer :=
  {| font := unit;
     truetype := fun _ _ => None;
     load_default := tt;
     draw_line := fun r _ _ _ _ => r;
     draw_text := fun r _ _ _ _ => r |}.

End SampleCompose.

(** ** The preview window: pointer handlers, tools and the wheel

    The closures of [show_capture_preview] share a handful of variables;
    they are the fields of [preview]. A handler takes the state and
    returns the state, or nothing where the source would raise. What a
    handler only draws on the screen is left out. *)

Module Preview.
Import Pil Compose Zoom.

Inductive mode := SelectMode | DrawMode | TextMode.

Record preview := {
  pv_canvas : canvas;
  current_mode : mode;
  rect_id : bool;                 (* a selection rectangle is being dragged *)
  start_x : Z;
  start_y : Z;
  selected_region : option box;
  drawing : bool;
  current_line : list point;      (* canvas coordinates *)
  annotation_paths : list stroke; (* image coordinates *)
  text_annotations : list label;
  annotation_color : string;
  annotation_width : Z;
  font_size : Z
}.

(** The variables as [show_capture_preview] initialises them. *)
Definition open_preview (c : canvas) : preview :=
  {| pv_canvas := c; current_mode := SelectMode; rect_id := false;
     start_x := 0; start_y := 0; selected_region := None;
     drawing := false; current_line := [];
     annotation_paths := []; text_annotations := [];
     annotation_color := "red"; annotation_width := 2; font_size := 12 |}.

Definition color_options : list string :=
  ["red"; "blue"; "green"; "black"; "yellow"; "purple"; "orange"; "white"].

Definition mode_eqb (a b : mode) : bool :=
  match a, b with
  | SelectMode, SelectMode | DrawMode, DrawMode | TextMode, TextMode => true
  | _, _ => false
  end.

(** [on_mouse_down]; [answer] is what the text dialog returns, asked
    only in text mode. *)
Definition on_mouse_down (p : preview) (x y : Z) (answer : option string) : preview :=
  let c := pv_canvas p in
  if on_image c x y then
    match current_mode p with
    | SelectMode =>
        {| pv_canvas := c; current_mode := current_mode p; rect_id := true;
           start_x := x; start_y := y; selected_region := selected_region p;
           drawing := drawing p; current_line := current_line p;
           annotation_paths := annotation_paths p;
           text_annotations := text_annotations p;
           annotation_color := annotation_color p;
           annotation_width := annotation_width p; font_size := font_size p |}
    | DrawMode =>
        {| pv_canvas := c; current_mode := current_mode p; rect_id := rect_id p;
           start_x := x; start_y := y; selected_region := selected_region p;
           drawing := true; current_line := [(x, y)];
           annotation_paths := annotation_paths p;
           text_annotations := text_annotations p;
           annotation_color := annotation_color p;
           annotation_width := annotation_width p; font_size := font_size p |}
    | TextMode =>
        let texts :=
          match answer with
          | Some text =>
              if negb (PyStr.is_empty text) && negb (PyStr.is_empty (PyStr.strip text))
              then (text_annotations p ++
                    [(to_orig x (x_pos c) (scale c), to_orig y (y_pos c) (scale c),
                      PyStr.strip text, annotation_color p, font_size p)])%list
              else text_annotations p
          | None => text_annotations p
          end in
        {| pv_canvas := c; current_mode := current_mode p; rect_id := rect_id p;
           start_x := x; start_y := y; selected_region := selected_region p;
           drawing := drawing p; current_line := current_line p;
           annotation_paths := annotation_paths p;
           text_annotations := texts;
           annotation_color := annotation_color p;
           annotation_width := annotation_width p; font_size := font_size p |}
    end
  else p.

Definition set_current_line (p : preview) (l : list point) : preview :=
  {| pv_canvas := pv_canvas p; current_mode := current_mode p; rect_id := rect_id p;
     start_x := start_x p; start_y := start_y p; selected_region := selected_region p;
     drawing := drawing p; current_line := l;
     annotation_paths := annotation_paths p; text_annotations := text_annotations p;
     annotation_color := annotation_color p;
     annotation_width := annotation_width p; font_size := font_size p |}.

(** [on_mouse_move]. In draw mode the new point is appended and the
    segment from [current_line[-2]] is drawn; [None] where that index
    does not exist. *)
Definition on_mouse_move (p : preview) (x y : Z) : option preview :=
  if mode_eqb (current_mode p) SelectMode && rect_id p then Some p
  else if mode_eqb (current_mode p) DrawMode && drawing p then
    if on_image (pv_canvas p) x y then
      let line := (current_line p ++ [(x, y)])%list in
      if (2 <=? List.length line)%nat then Some (set_current_line p line) else None
    else Some p
  else Some p.

(** [on_mouse_up] *)
Definition on_mouse_up (p : preview) (x y : Z) : preview :=
  let c := pv_canvas p in
  if mode_eqb (current_mode p) SelectMode && rect_id p then
    {| pv_canvas := c; current_mode := current_mode p; rect_id := false;
       start_x := start_x p; start_y := start_y p;
       selected_region :=
         match select_region c (start_x p) (start_y p) x y with
         | Some reg => Some reg
         | None => selected_region p
         end;
       drawing := drawing p; current_line := current_line p;
       annotation_paths := annotation_paths p;
       text_annotations := text_annotations p;
       annotation_color := annotation_color p;
       annotation_width := annotation_width p; font_size := font_size p |}
  else if mode_eqb (current_mode p) DrawMode && drawing p then
    {| pv_canvas := c; current_mode := current_mode p; rect_id := rect_id p;
       start_x := start_x p; start_y := start_y p;
       selected_region := selected_region p;
       drawing := false; current_line := [];
       annotation_paths :=
         match finish_stroke c (current_line p) (annotation_color p) (annotation_width p) with
         | Some s => (annotation_paths p ++ [s])%list
         | None => annotation_paths p
         end;
       text_annotations := text_annotations p;
       annotation_color := annotation_color p;
       annotation_width := annotation_width p; font_size := font_size p |}
  else p.

(** [switch_mode] *)
Definition switch_mode (p : preview) (m : mode) : preview :=
  {| pv_canvas := pv_canvas p; current_mode := m; rect_id := rect_id p;
     start_x := start_x p; start_y := start_y p; selected_region := selected_region p;
     drawing := drawing p; current_line := current_line p;
     annotation_paths := annotation_paths p; text_annotations := text_annotations p;
     annotation_color := annotation_color p;
     annotation_width := annotation_width p; font_size := font_size p |}.

(** [clear_annotations] *)
Definition clear_annotations (p : preview) : preview :=
  {| pv_canvas := pv_canvas p; current_mode := current_mode p; rect_id := rect_id p;
     start_x := start_x p; start_y := start_y p; selected_region := selected_region p;
     drawing := drawing p; current_line := current_line p;
     annotation_paths := []; text_annotations := [];
     annotation_color := annotation_color p;
     annotation_width := annotation_width p; font_size := font_size p |}.

(** [select_color], called by the button of the colour with the given
    position in [color_options]. *)
Definition select_color (p : preview) (button : nat) : preview :=
  match color_options !! button with
  | Some color =>
      {| pv_canvas := pv_canvas p; current_mode := current_mode p; rect_id := rect_id p;
         start_x := start_x p; start_y := start_y p;
         selected_region := selected_region p;
         drawing := drawing p; current_line := current_line p;
         annotation_paths := annotation_paths p;
         text_annotations := text_annotations p;
         annotation_color := color;
         annotation_width := annotation_width p; font_size := font_size p |}
  | None => p
  end.

(** [int(s)] for a string: the decimal value of a string of the digits
    0 to 9; [None] where Python raises [ValueError] on a string for
    which [isdigit] holds. *)
Fixpoint decimal_value (acc : Z) (s : string) : option Z :=
  match s with
  | EmptyString => Some acc
  | String c r =>
      if PyStr.between 48 57 (PyStr.code c)
      then decimal_value (10 * acc + Z.of_N (PyStr.code c) - 48) r
      else None
  end.

(** [on_confirm] of the font size dialog. *)
Definition confirm_font_size (p : preview) (size_str : string) : option preview :=
  if negb (PyStr.is_empty size_str) && PyStr.isdigit size_str then
    match decimal_value 0 size_str with
    | None => None
    | Some size =>
        if (1 <=? size) && (size <=? 99) then
          Some {| pv_canvas := pv_canvas p; current_mode := current_mode p;
                  rect_id := rect_id p; start_x := start_x p; start_y := start_y p;
                  selected_region := selected_region p;
                  drawing := drawing p; current_line := current_line p;
                  annotation_paths := annotation_paths p;
                  text_annotations := text_annotations p;
                  annotation_color := annotation_color p;
                  annotation_width := annotation_width p; font_size := size |}
        else Some p
    end
  else Some p.

(** [on_mousewheel] changes the canvas attributes only. *)
Definition wheel (p : preview) (ev : wheel_event) : preview :=
  {| pv_canvas := on_mousewheel (pv_canvas p) ev; current_mode := current_mode p;
     rect_id := rect_id p; start_x := start_x p; start_y := start_y p;
     selected_region := selected_region p;
     drawing := drawing p; current_line := current_line p;
     annotation_paths := annotation_paths p; text_annotations := text_annotations p;
     annotation_color := annotation_color p;
     annotation_width := annotation_width p; font_size := font_size p |}.

Inductive event :=
| MouseDown (x y : Z) (answer : option string)
| MouseMove (x y : Z)
| MouseUp (x y : Z)
| Wheel (ev : wheel_event)
| SwitchMode (m : mode)
| ClearAnnotations
| PickColor (button : nat)
| ConfirmFontSize (size_str : string).

Definition step (p : preview) (e : event) : option preview :=
  match e with
  | MouseDown x y answer => Some (on_mouse_down p x y answer)
  | MouseMove x y => on_mouse_move p x y
  | MouseUp x y => Some (on_mouse_up p x y)
  | Wheel ev => Some (wheel p ev)
  | SwitchMode m => Some (switch_mode p m)
  | ClearAnnotations => Some (clear_annotations p)
  | PickColor button => Some (select_color p button)
  | ConfirmFontSize size_str => confirm_font_size p size_str
  end.

(** The state after a sequence of events; [None] when a handler raised. *)
Fixpoint run (p : preview) (evs : list event) : option preview :=
  match evs with
  | [] => Some p
  | e :: rest =>
      match step p e with
      | Some p' => run p' rest
      | None => None
      end
  end.



(** A box that [Image.crop] can cut out of the original image. *)
Definition box_in_image (c : canvas) (b : box) : Prop :=
  let '(x1, y1, x2, y2) := b in
  0 <= x1 /\ x1 < x2 /\ x2 <= original_width c
  /\ 0 <= y1 /\ y1 < y2 /\ y2 <= original_height c.


(** The shape of what the handlers record. *)
Definition stroke_ok (s : stroke) : Prop :=
  let '(points, color, width) := s in
  (2 <= List.length points)%nat /\ width = 2 /\ In color color_options.

Definition label_ok (l : label) : Prop :=
  let '(_, _, text, color, size) := l in
  text <> "" /\ 1 <= size <= 99 /\ In color color_options.

Definition tidy (p : preview) : Prop :=
  (drawing p = true -> current_line p <> [])
  /\ Forall stroke_ok (annotation_paths p)
  /\ Forall label_ok (text_annotations p)
  /\ In (annotation_color p) color_options
  /\ annotation_width p = 2
  /\ 1 <= font_size p <= 99
  /\ (forall b, selected_region p = Some b -> box_in_image (pv_canvas p) b).


(** A draw gesture and a text click on the preview of a 200 x 100
    capture shown on a 400 x 300 screen, after one zoom step. *)
Definition sample_events : list event :=
  [ Wheel {| mouse_x := 150; mouse_y := 120; delta := Some 120; num := 0 |};
    MouseDown 120 110 None; MouseUp 180 160;
    SwitchMode DrawMode; PickColor 1;
    MouseDown 130 120 None; MouseMove 140 125; MouseMove 900 125; MouseMove 150 140;
    MouseUp 150 140;
    ConfirmFontSize "018"; SwitchMode TextMode;
    MouseDown 160 130 (Some " note ") ].

Definition sample_canvas : canvas := init_canvas 400 300 200 100.

(** A selection only: one zoom step, then a drag in select mode. *)
Definition selection_events : list event :=
  [ Wheel {| mouse_x := 150; mouse_y := 120; delta := Some 120; num := 0 |};
    MouseDown 120 110 None; MouseMove 150 130; MouseUp 180 160 ].

End Preview.

(** ** More of the session store: deleting a session, the hotkey file,
    durations, the font of the PDF report *)

From Stdlib Require Import Sorted DecimalPos DecimalZ.

Module Store.
Import Py Pil Session Os Tool.

(** The [start_time] of a loaded record when it is a string. *)
Definition start_key (v : pyval) : string :=
  match getitem v "start_time" with
  | Some (PStr s) => s
  | _ => ""
  end.

Definition has_string_start_time (v : pyval) : Prop :=
  exists s, getitem v "start_time" = Some (PStr s).

(** [a] does not start before [b]. *)
Definition not_older (a b : pyval) : Prop :=
  String.ltb (start_key a) (start_key b) = false.

(** The record's [start_time] is the string [ts]. *)
Definition same_start (ts : string) (v : pyval) : bool := String.eqb (start_key v) ts.

(** The (key, item) pairs that [keyed] builds from records with a
    string [start_time]. *)
Definition string_keyed (kl : list (pyval * pyval)) : Prop :=
  Forall (fun kx => fst kx = PStr (start_key (snd kx))) kl.

(** The dialogs of the functions of this module, in the order shown. *)
Inductive notice :=
| ErrDeleteRecord      (* the record file could not be removed *)
| ErrDeleteImages      (* an image or the image directory could not be removed *)
| InfoHistoryDeleted
| WarnSaveHotkeyConfig
| WarnLoadHotkeyConfig
| ErrHotkeyEmpty
| ErrHotkeyFormat
| InfoHotkeySet
| InfoSessionUpdated.

(** [os.rmdir]: [None] where it raises, on a locked path, on anything
    but a directory and on a directory that still has an entry. *)
Definition rmdir (w : world) (p : string) : option world :=
  if locked w p then None
  else match lookup (w_fs w) p, listdir w p with
       | Some Dir, Some [] =>
           Some (with_fs w (filter (fun e => negb (String.eqb (fst e) p)) (w_fs w)))
       | _, _ => None
       end.

(** The loop [for img_file in os.listdir(images_dir): os.remove(...)]
    over a listing taken beforehand; it stops at the first failure. *)
Fixpoint remove_all (w : world) (dir : string) (names : list string) : world * bool :=
  match names with
  | [] => (w, true)
  | n :: rest =>
      match remove w (join dir n) with
      | Some w' => remove_all w' dir rest
      | None => (w, false)
      end
  end.

(** The search loop of [delete_session_by_id]: the first session whose
    ["id"] equals the id; [None] where [session["id"]] raises before a
    match is found. *)
Fixpoint find_session (history : list pyval) (session_id : string)
    : option (option pyval) :=
  match history with
  | [] => Some None
  | session :: rest =>
      match getitem session "id" with
      | None => None
      | Some v =>
          if py_eqb v (PStr session_id) then Some (Some session)
          else find_session rest session_id
      end
  end.

(** [list.remove(x)]: without the first element equal to [x]. *)
Fixpoint remove_first (x : pyval) (l : list pyval) : list pyval :=
  match l with
  | [] => []
  | y :: rest => if py_eqb y x then rest else y :: remove_first x rest
  end.

(** The [try] block over the image directory: every entry listed is
    removed, then the directory; [false] where the block is left by an
    exception. *)
Definition remove_images (w : world) (images_dir : string) : world * bool :=
  match listdir w images_dir with
  | None => (w, false)
  | Some names =>
      match remove_all w images_dir names with
      | (w2, true) =>
          match rmdir w2 images_dir with
          | Some w3 => (w3, true)
          | None => (w2, false)
          end
      | (w2, false) => (w2, false)
      end
  end.

(** [delete_session_by_id] *)
Definition delete_session_by_id (session_id : string) (t : tool) (w : world)
    : tool * world * list notice * completion :=
  match find_session (history_sessions t) session_id with
  | None => (t, w, [], Raised)
  | Some None => (t, w, [], Returned)
  | Some (Some session_to_remove) =>
      let session_path := join (sessions_dir t) (session_id ++ ".json")%string in
      match (if exists_ w session_path then remove w session_path else Some w) with
      | None => (t, w, [ErrDeleteRecord], Returned)
      | Some w1 =>
          let images_dir := join (sessions_dir t) session_id in
          match (if exists_ w1 images_dir then remove_images w1 images_dir
                 else (w1, true)) with
          | (w2, false) => (t, w2, [ErrDeleteImages], Returned)
          | (w2, true) =>
              let t' := set_history t (remove_first session_to_remove (history_sessions t)) in
              match update_history_list t' with
              | Raised => (t', w2, [], Raised)
              | Returned => (t', w2, [InfoHistoryDeleted], Returned)
              end
          end
      end
  end.

(** What a step that only takes entries away leaves: the locks and the
    dialogs as they were, no new entry, and every path either as it
    was or absent, the latter only for the paths in [gone]. *)
Definition shrinks (gone : string -> Prop) (w w' : world) : Prop :=
  w_locked w' = w_locked w /\ w_log w' = w_log w
  /\ (forall e, In e (w_fs w') -> In e (w_fs w))
  /\ (forall q, lookup (w_fs w') q = lookup (w_fs w) q
                \/ (gone q /\ lookup (w_fs w') q = None)).

(** The paths at or directly inside directory [d]. *)
Definition under (d : string) (q : string) : Prop := q = d \/ child_name d q <> None.

(** *** The hotkey configuration file *)

Definition default_hotkey : string := "ctrl+alt+o".

(** [save_hotkey_config], writing to [config_file]. [self.hotkey] is
    whatever the last load or the last accepted entry left there. *)
Definition save_hotkey_config (config_file : string) (hotkey : pyval) (w : world)
    : world * list notice :=
  match write w config_file (TextFile (Some (PDict [("hotkey", hotkey)]))) with
  | Some w' => (w', [])
  | None => (w, [WarnSaveHotkeyConfig])
  end.

(** [load_hotkey_config]: the new value of [self.hotkey]. Whatever is
    stored under ["hotkey"] is taken as it is. *)
Definition load_hotkey_config (config_file : string) (hotkey : pyval) (w : world)
    : pyval * list notice :=
  if exists_ w config_file then
    match read_json w config_file with
    | None => (PStr default_hotkey, [WarnLoadHotkeyConfig])
    | Some config =>
        match py_in "hotkey" config with
        | None => (PStr default_hotkey, [WarnLoadHotkeyConfig])
        | Some false => (hotkey, [])
        | Some true =>
            match getitem config "hotkey" with
            | Some v => (v, [])
            | None => (PStr default_hotkey, [WarnLoadHotkeyConfig])
            end
        end
    end
  else (hotkey, []).

(** The confirm button of [set_hotkey]: an accepted entry becomes the
    hotkey and is saved; a rejected one changes nothing. *)
Definition confirm_hotkey (config_file : string) (entry : string) (hotkey : pyval)
    (w : world) : pyval * world * list notice :=
  match Hotkey.confirm_hotkey entry with
  | Hotkey.RejectedEmpty => (hotkey, w, [ErrHotkeyEmpty])
  | Hotkey.RejectedFormat => (hotkey, w, [ErrHotkeyFormat])
  | Hotkey.Accepted new_hotkey =>
      let '(w', ns) := save_hotkey_config config_file (PStr new_hotkey) w in
      (PStr new_hotkey, w', (ns ++ [InfoHotkeySet])%list)
  end.

(** *** [Utils.format_duration] *)

(** [divmod] twice: hours, minutes, seconds. *)
Definition duration_parts (seconds : Z) : Z * Z * Z :=
  let minutes := seconds / 60 in
  let seconds' := seconds mod 60 in
  let hours := minutes / 60 in
  let minutes' := minutes mod 60 in
  (hours, minutes', seconds').

Definition format_duration (seconds : Z) : string :=
  let '(hours, minutes, seconds') := duration_parts seconds in
  if hours >? 0 then (decimal hours ++ "h" ++ decimal minutes ++ "m")%string
  else if minutes >? 0 then (decimal minutes ++ "m" ++ decimal seconds' ++ "s")%string
  else (decimal seconds' ++ "s")%string.

End Store.

(** ** [format_duration] of [screen_capture_tool1.1.py] *)

Module DurationV11.
Import Session.

Definition format_duration (seconds : Z) : string :=
  let hours := seconds / 3600 in
  let remainder := seconds mod 3600 in
  let minutes := remainder / 60 in
  let seconds' := remainder mod 60 in
  if hours >? 0
  then (decimal hours ++ "h" ++ decimal minutes ++ "m" ++ decimal seconds' ++ "s")%string
  else if minutes >? 0 then (decimal minutes ++ "m" ++ decimal seconds' ++ "s")%string
  else (decimal seconds' ++ "s")%string.

End DurationV11.

(** ** The tool over a sequence of user actions

    The start button, the hotkey and the stop button, in any order. An
    exception that leaves a callback is reported by the event loop and
    the tool goes on in the state the callback left. *)

Module Run.
Import Py Pil Session Os Tool.

Inductive action :=
| Start (i : start_input)
| Trigger (i : trigger_input)
| Stop (i : stop_input).

Section WithRasterizer.
Context {R : Rasterizer}.

Definition step (a : action) (st : tool * world * heap) : tool * world * heap :=
  let '(t, w, h) := st in
  match a with
  | Start i => let '(t', w') := start_capture i t w in (t', w', h)
  | Trigger i => let '(t', w', h', _) := capture_screen i t w h in (t', w', h')
  | Stop i => let '(t', w', _) := stop_capture i t w in (t', w', h)
  end.

Definition run (actions : list action) (st : tool * world * heap) : tool * world * heap :=
  fold_left (fun st a => step a st) actions st.

End WithRasterizer.

(** The file name of a capture saved at [file_timestamp]. *)
Definition capture_file (file_timestamp : string) : string :=
  ("capture_" ++ file_timestamp ++ ".png")%string.

(** A capture record points to an image file in the image directory. *)
Definition capture_on_disk (t : tool) (w : world) (c : capture) : Prop :=
  (exists file_timestamp,
     cap_image_path c = join (images_dir t) (capture_file file_timestamp))
  /\ open_image w (cap_image_path c) <> None.

(** The current session is in order: its capture ids are 1..n, every
    capture has its image file, and while the hotkey is armed the
    session id, the image directory and the hotkey handle belong to
    this session. *)
Definition in_order (t : tool) (w : world) : Prop :=
  contiguous (current_session t)
  /\ Forall (capture_on_disk t w) (s_captures (current_session t))
  /\ (is_capturing t = true ->
      current_session_id t = Some (s_id (current_session t))
      /\ images_dir t = join (sessions_dir t) (s_id (current_session t))
      /\ hotkey_obj t <> None).

End Run.

(** ** The editor window

    The handlers bound in [open_editor_window], on the session the
    window was opened with. *)

Module Editor.
Import Py Pil Session Os Tool Store.

Definition set_info (s : session) (name description : string) : session :=
  {| s_id := s_id s; s_name := name; s_description := description;
     s_start_time := s_start_time s; s_end_time := s_end_time s;
     s_duration := s_duration s; s_captures := s_captures s |}.

(** [save_session_info], with the text of the name entry and of the
    description box. *)
Definition save_session_info (t : tool) (name_var desc_text : string)
    (s : session) (w : world) : session * world * list notice * completion :=
  let s' := set_info s (PyStr.strip name_var) (PyStr.strip desc_text) in
  let w' := save_session (sessions_dir t) s' w in
  match update_history_list t with
  | Raised => (s', w', [], Raised)
  | Returned => (s', w', [InfoSessionUpdated], Returned)
  end.

Inductive action :=
| Click (capture_id : Z) (a : capture_action)  (* the action column of a row *)
| Reedit (capture_id : Z) (u : interaction)    (* a double click on a row *)
| SaveInfo (name_var desc_text : string).      (* the save button *)

Section WithRasterizer.
Context {R : Rasterizer}.

Definition step (t : tool) (a : action) (st : session * world * heap)
    : session * world * heap :=
  let '(s, w, h) := st in
  match a with
  | Click capture_id a =>
      let '(s', w') := handle_capture_operation (sessions_dir t) capture_id a s w in
      (s', w', h)
  | Reedit capture_id u => preview_screenshot (sessions_dir t) capture_id u s w h
  | SaveInfo name_var desc_text =>
      let '(s', w', _, _) := save_session_info t name_var desc_text s w in (s', w', h)
  end.

Definition run (t : tool) (actions : list action) (st : session * world * heap)
    : session * world * heap :=
  fold_left (fun st a => step t a st) actions st.

End WithRasterizer.

(** The record file holds the session, and can be written again. *)
Definition in_sync (dir : string) (s : session) (w : world) : Prop :=
  writable w (session_path dir (s_id s))
  /\ read_json w (session_path dir (s_id s)) = Some (session_to_py s).

End Editor.

(** ** [MdReportGenerator.generate]

    The report is built as a list of lines and written at the end; the
    lines are kept here by kind, each kind standing for one of the
    formatted strings appended to [md_content]. *)

Module Report.
Import Py Pil Session Os Tool.

Fixpoint has_slash (p : string) : bool :=
  match p with
  | EmptyString => false
  | String c r => Ascii.eqb c "/" || has_slash r
  end.

(** [os.path.basename]: what follows the last slash. *)
Fixpoint basename (p : string) : string :=
  match p with
  | EmptyString => EmptyString
  | String _ r => if has_slash p then basename r else p
  end.

(** [p[:i]] for [i] just behind the last slash. *)
Fixpoint head_of (p : string) : string :=
  match p with
  | EmptyString => EmptyString
  | String c r => if has_slash p then String c (head_of r) else EmptyString
  end.

(** [head.rstrip('/')] *)
Fixpoint rstrip_slashes (s : string) : string :=
  match s with
  | EmptyString => EmptyString
  | String c r =>
      let r' := rstrip_slashes r in
      if Ascii.eqb c "/" && PyStr.is_empty r' then EmptyString else String c r'
  end.

(** [os.path.dirname] *)
Definition dirname (p : string) : string :=
  let head := head_of p in
  if negb (PyStr.is_empty head)
     && negb (PyStr.all_chars (fun c => Ascii.eqb c "/") head)
  then rstrip_slashes head else head.

Inductive md_item :=
| Title
| GeneratedAt (timestamp : string)
| InfoHeading
| NameField (name : string)
| DescriptionField (description : string)
| StartField (start_time : string)
| EndField (end_time : string)
| DurationField (duration : string)
| StepsHeading
| StepCount (n : nat)
| StepHeading (i : Z)
| StepDescription (description : string)
| StepTime (time : string)
| ImageLink (i : Z) (img_path : string)  (* the picture of step i *)
| ImageMissing (image_path : string)     (* the file does not exist *)
| ImageFailed.                           (* opening or copying raised *)

Definition img_rel_dir : string := "images".

(** The [try] block of one capture: the world after it and the line it
    appends. *)
Definition add_image (use_relative : bool) (img_target_dir : string) (i : Z)
    (capture : capture) (w : world) : world * md_item :=
  if exists_ w (cap_image_path capture) then
    if use_relative then
      let img_filename := basename (cap_image_path capture) in
      let target_path := join img_target_dir img_filename in
      let img_path := (img_rel_dir ++ "/" ++ img_filename)%string in
      if negb (exists_ w target_path) then
        match open_image w (cap_image_path capture) with
        | None => (w, ImageFailed)
        | Some img =>
            match write w target_path (ImageFile img) with
            | None => (w, ImageFailed)
            | Some w' => (w', ImageLink i img_path)
            end
        end
      else (w, ImageLink i img_path)
    else (w, ImageLink i (cap_image_path capture))
  else (w, ImageMissing (cap_image_path capture)).

(** [for i, capture in enumerate(session["captures"], 1)] *)
Fixpoint add_steps (use_relative : bool) (img_target_dir : string) (i : Z)
    (captures : list capture) (w : world) : world * list md_item :=
  match captures with
  | [] => (w, [])
  | capture :: rest =>
      let '(w1, line) := add_image use_relative img_target_dir i capture w in
      let '(w2, lines) := add_steps use_relative img_target_dir (i + 1) rest w1 in
      (w2, StepHeading i :: StepDescription (cap_description capture)
           :: StepTime (cap_time capture) :: line :: lines)
  end.

(** [generate]; [None] for the lines when the final write raises. *)
Definition generate (now : string) (s : session) (save_path : string)
    (use_relative : bool) (w : world) : world * option (list md_item) :=
  let report_dir := dirname save_path in
  let img_target_dir := join report_dir img_rel_dir in
  let '(w0, use_relative) :=
    if use_relative then ensure_dir w img_target_dir else (w, false) in
  let header :=
    [ Title; GeneratedAt now; InfoHeading; NameField (s_name s);
      DescriptionField (if PyStr.is_empty (s_description s) then "无"
                        else s_description s);
      StartField (s_start_time s); EndField (s_end_time s);
      DurationField (Store.format_duration (s_duration s));
      StepsHeading; StepCount (List.length (s_captures s)) ] in
  let '(w1, steps) := add_steps use_relative img_target_dir 1 (s_captures s) w0 in
  match write w1 save_path (TextFile None) with
  | Some w2 => (w2, Some (header ++ steps)%list)
  | None => (w1, None)
  end.

Definition step_number (item : md_item) : option Z :=
  match item with StepHeading i => Some i | _ => None end.

(** The file behind a picture line exists: the path itself, or for a
    path into the relative image directory the file of that name next
    to the report. *)
Definition picture_exists (w : world) (save_path img_path : string) : Prop :=
  exists_ w img_path = true
  \/ exists img_filename,
       img_path = (img_rel_dir ++ "/" ++ img_filename)%string
       /\ exists_ w (join (join (dirname save_path) img_rel_dir) img_filename) = true.

(** *** [export_screenshots] of the editor window *)

(** Why a capture was not exported. *)
Inductive export_failure :=
| FileMissing (capture_id : Z)   (* the image file does not exist *)
| CopyFailed (capture_id : Z).   (* opening or saving raised *)

(** The captures of the selected rows: for each row the first capture
    with the id in the row's tag. *)
Definition selected_captures (s : session) (selected_ids : list Z) : list capture :=
  omap (fun capture_id => option_map snd (find_capture s capture_id)) selected_ids.

(** The body of the export loop for one capture. *)
Definition export_one (export_dir : string) (cap : capture) (w : world)
    : world * option export_failure :=
  if exists_ w (cap_image_path cap) then
    let target_path := join export_dir (basename (cap_image_path cap)) in
    match open_image w (cap_image_path cap) with
    | None => (w, Some (CopyFailed (cap_id cap)))
    | Some img =>
        match write w target_path (ImageFile img) with
        | Some w' => (w', None)
        | None => (w, Some (CopyFailed (cap_id cap)))
        end
    end
  else (w, Some (FileMissing (cap_id cap))).

(** The loop: [success_count] and [fail_list]; [fail_count] is the
    length of the list. *)
Fixpoint export_all (export_dir : string) (caps : list capture) (w : world)
    : world * nat * list export_failure :=
  match caps with
  | [] => (w, 0%nat, [])
  | cap :: rest =>
      let '(w1, failure) := export_one export_dir cap w in
      let '(w2, success_count, fail_list) := export_all export_dir rest w1 in
      match failure with
      | None => (w2, S success_count, fail_list)
      | Some f => (w2, success_count, f :: fail_list)
      end
  end.

(** [export_screenshots]: [None] when nothing is selected or the
    directory dialog is cancelled, otherwise the counts and the list
    shown in the result dialog. *)
Definition export_screenshots (s : session) (selected_ids : list Z)
    (export_dir : option string) (w : world)
    : world * option (nat * nat * list export_failure) :=
  match selected_ids with
  | [] => (w, None)
  | _ =>
      match export_dir with
      | None => (w, None)
      | Some dir =>
          if PyStr.is_empty dir then (w, None)
          else
            let '(w', success_count, fail_list) :=
              export_all dir (selected_captures s selected_ids) w in
            (w', Some (success_count, List.length fail_list, fail_list))
      end
  end.

Definition failed_id (f : export_failure) : Z :=
  match f with FileMissing i => i | CopyFailed i => i end.

(** A step that adds files and changes none that was there. *)
Definition grows (w w' : world) : Prop :=
  forall q, lookup (w_fs w) q <> None -> lookup (w_fs w') q = lookup (w_fs w) q.

End Report.

Module SampleStore.
Import Py Pil Session Os Tool Store.

Definition stopped (id name started ended : string) (duration : Z) : session :=
  {| s_id := id; s_name := name; s_description := "";
     s_start_time := started; s_end_time := ended; s_duration := duration;
     s_captures := [] |}.

Definition monday : session :=
  stopped "a1" "Monday" "2024-03-04 09:00:00" "2024-03-04 09:10:00" 600.
Definition tuesday : session :=
  stopped "b2" "Tuesday" "2024-03-05 09:00:00" "2024-03-05 09:00:30" 30.
Definition tuesday_again : session :=
  stopped "c3" "Tuesday again" "2024-03-05 09:00:00" "2024-03-05 11:00:00" 7200.

(** Three records, a note that is no record, and the image directory
    of the first session with one capture file. *)
Definition shelf : fs :=
  [ (Sample.dir, Dir);
    (session_path Sample.dir "a1", TextFile (Some (session_to_py monday)));
    (join Sample.dir "notes.txt", TextFile None);
    (session_path Sample.dir "b2", TextFile (Some (session_to_py tuesday)));
    (session_path Sample.dir "c3", TextFile (Some (session_to_py tuesday_again)));
    (join Sample.dir "a1", Dir);
    (join (join Sample.dir "a1") "capture_20240304_090100.png",
     ImageFile (Sample.flat 20 20 7%N)) ].

Definition shelf_world : world := {| w_fs := shelf; w_locked := []; w_log := [] |}.

(** The capture file of the first session cannot be removed. *)
Definition shelf_locked : world :=
  {| w_fs := shelf;
     w_locked := [join (join Sample.dir "a1") "capture_20240304_090100.png"];
     w_log := [] |}.

(** The tool after the history has been loaded from the shelf. *)
Definition shelf_tool : tool := fst (load_history_sessions Sample.tool0 shelf_world).

(** In the editor: a description is edited, the second capture is
    deleted, the name is changed and the first capture is re-edited. *)
Definition editing : list Editor.action :=
  [ Editor.Click 1 (EditDescription (Some "open the settings dialog"));
    Editor.Click 2 (DeleteCapture true);
    Editor.SaveInfo " Demo, second take " "";
    Editor.Reedit 1 (Confirm None [] [] "the dialog, annotated") ].

Definition shelf_names : list string := ["a1.json"; "notes.txt"; "b2.json"; "c3.json"; "a1"].

End SampleStore.

Module SampleRun.
Import Py Pil Session Os Tool Run.

Definition shot (file_stamp stamp text : string) (p : pixel) : trigger_input :=
  {| grab := Grabbed (Sample.flat 20 20 p);
     user := Confirm None [] [] text;
     file_timestamp := file_stamp;
     capture_timestamp := stamp;
     on_stop := Sample.stop_demo |}.

(** A session with two captures, from the start to the stop. *)
Definition demo_actions : list action :=
  [ Start Sample.start_demo;
    Trigger (shot "20240101_120003" "2024-01-01 12:00:03" "open the dialog" 7%N);
    Trigger (shot "20240101_120010" "2024-01-01 12:00:10" "" 9%N);
    Stop Sample.stop_demo ].

End SampleRun.

Module SampleReport.
Import Py Pil Session Os Tool Report.

Definition save_path : string := "/home/u/reports/demo.md".

Definition old_copy : string := "/home/u/reports/images/capture_20240101_120003.png".

(** The store of the finished demo session, and a report directory
    that holds a copy of the first capture from an earlier report. *)
Definition world : Os.world :=
  {| w_fs := (Sample.store
              ++ [ ("/home/u/reports", Dir); ("/home/u/reports/images", Dir);
                   (old_copy, ImageFile (Sample.flat 20 20 1%N)) ])%list;
     w_locked := []; w_log := [] |}.

End SampleReport.

(** * Properties of the wheel zoom *)

Section ZoomFacts.
Import Zoom Demo.
Local Open Scope Q_scope.

Lemma py_min_Qmin a b : py_min a b == Qmin a b.
Proof.
  unfold py_min. destruct (Qlt_le_dec b a) as [Hlt | Hle].
  - symmetry. apply Q.min_r. now apply Qlt_le_weak.
  - symmetry. now apply Q.min_l.
Qed.

Lemma py_max_Qmax a b : py_max a b == Qmax a b.
Proof.
  unfold py_max. destruct (Qlt_le_dec a b) as [Hlt | Hle].
  - symmetry. apply Q.max_r. now apply Qlt_le_weak.
  - symmetry. now apply Q.max_l.
Qed.

Lemma scale_step_up s : 0 <= s -> s <= s * (11 # 10).
Proof.
  destruct s as [n d]. unfold Qle. cbn. intros Hs. nia.
Qed.

Lemma scale_step_down s : 0 <= s -> s / (11 # 10) <= s.
Proof.
  intros Hs. apply Qle_shift_div_r; [reflexivity |].
  now apply scale_step_up.
Qed.

Lemma new_scale_in_bounds c ev :
  scale_in_bounds c -> (1 # 10) <= new_scale c ev /\ new_scale c ev <= 5.
Proof.
  intros [Hlo Hhi].
  assert (Hpos : 0 <= scale c) by (eapply Qle_trans; [| exact Hlo]; discriminate).
  unfold new_scale. destruct (zoom_in ev).
  - unfold py_min. destruct (Qlt_le_dec 5 (scale c * (11 # 10))) as [Hlt | Hle].
    + split; [discriminate | apply Qle_refl].
    + split; [| exact Hle].
      eapply Qle_trans; [exact Hlo | now apply scale_step_up].
  - unfold py_max. destruct (Qlt_le_dec (scale c / (11 # 10)) (1 # 10)) as [Hlt | Hle].
    + split; [apply Qle_refl | discriminate].
    + split; [exact Hle |].
      eapply Qle_trans; [now apply scale_step_down | exact Hhi].
Qed.


Lemma on_mousewheel_in_bounds c ev :
  scale_in_bounds c -> scale_in_bounds (on_mousewheel c ev).
Proof.
  intros Hc. unfold on_mousewheel. destruct (inside_image c ev); [| exact Hc].
  unfold scale_in_bounds. cbn [scale]. now apply new_scale_in_bounds.
Qed.

Lemma wheel_trace_in_bounds evs : forall c,
  scale_in_bounds c -> Forall scale_in_bounds (wheel_trace c evs).
Proof.
  induction evs as [| ev rest IH]; intros c Hc; cbn [wheel_trace].
  - constructor.
  - constructor.
    + now apply on_mousewheel_in_bounds.
    + apply IH. now apply on_mousewheel_in_bounds.
Qed.








(** C5. Scale clamping: from a scale in [0.1, 5.0], after each of any
    finite sequence of wheel events the scale is still in [0.1, 5.0]. An
    event inside the image sets the scale to [min(scale * 1.1, 5.0)]
    when zooming in and to [max(scale / 1.1, 0.1)] when zooming out, so
    a request beyond a bound lands on the bound; an event outside the
    image leaves the canvas as it is. *)
Theorem zoom_scale_clamped (c : canvas) (evs : list wheel_event) :
  scale_in_bounds c ->
  Forall scale_in_bounds (wheel_trace c evs) /\
  (forall ev, inside_image c ev = true ->
     scale (on_mousewheel c ev) ==
       if zoom_in ev then Qmin (scale c * (11 # 10)) 5
       else Qmax (scale c / (11 # 10)) (1 # 10)) /\
  (forall ev, inside_image c ev = false -> on_mousewheel c ev = c).
Proof.
  intros Hc. split; [now apply wheel_trace_in_bounds |]. split.
  - intros ev Hin. unfold on_mousewheel. rewrite Hin. cbn [scale].
    unfold new_scale. destruct (zoom_in ev).
    + apply py_min_Qmin.
    + apply py_max_Qmax.
  - intros ev Hout. unfold on_mousewheel. now rewrite Hout.
Qed.

Lemma zoom_scale_clamped_witness :
  scale_in_bounds demo_canvas /\
  Forall scale_in_bounds
    (wheel_trace demo_canvas [zoom_in_at 100 100; zoom_out_at 50 60; zoom_out_at 5000 0]).
Proof.
  assert (Hb : scale_in_bounds demo_canvas) by (split; vm_compute; discriminate).
  split; [exact Hb |].
  exact (proj1 (zoom_scale_clamped demo_canvas _ Hb)).
Defined.

(** The read-only preview clamps the same way. *)
Lemma zoom_image_in_bounds s d :
  (1 # 10) <= s -> s <= 5 -> (1 # 10) <= zoom_image s d /\ zoom_image s d <= 5.
Proof.
  intros Hlo Hhi.
  set (c := {| original_width := 0; original_height := 0; resized_width := 0;
               resized_height := 0; scale := s; x_pos := 0; y_pos := 0 |}).
  pose proof (new_scale_in_bounds c
    {| mouse_x := 0; mouse_y := 0; delta := Some d; num := 0 |} (conj Hlo Hhi)) as H.
  exact H.
Qed.

(** Saturation at the upper bound: from scale 4 the steps are 4.4, 4.84
    and then 5, where 5.324 was asked for. *)
Example zoom_saturates_high :
  Forall2 Qeq
    (map scale
       (wheel_trace {| original_width := 100; original_height := 100;
                       resized_width := 400; resized_height := 400;
                       scale := 4; x_pos := 0; y_pos := 0 |}
          [zoom_in_at 1 1; zoom_in_at 1 1; zoom_in_at 1 1]))
    [44 # 10; 484 # 100; 5].
Proof. repeat constructor; vm_compute; reflexivity. Qed.

End ZoomFacts.

(** * Properties of the hotkey validator *)

Section HotkeyFacts.
Import PyStr Hotkey.

Ltac each_char c :=
  destruct c as [[|] [|] [|] [|] [|] [|] [|] [|]].

Lemma mem_In x xs : mem x xs = true <-> In x xs.
Proof.
  unfold mem. rewrite existsb_exists. split.
  - intros (y & Hy & He). apply String.eqb_eq in He. now subst.
  - intros H. exists x. split; [exact H | apply String.eqb_refl].
Qed.

Lemma lower_char_plus c : Ascii.eqb (lower_char c) "+" = Ascii.eqb c "+".
Proof. each_char c; reflexivity. Qed.

Lemma split_nonempty sep s : split sep s <> [].
Proof.
  destruct s as [| c r]; cbn; [discriminate |].
  destruct (Ascii.eqb c sep); [discriminate |].
  destruct (split sep r); discriminate.
Qed.

Lemma split_lower s : split "+" (lower s) = map lower (split "+" s).
Proof.
  induction s as [| c r IH]; [reflexivity |].
  cbn [lower split]. rewrite lower_char_plus, IH.
  destruct (Ascii.eqb c "+"); [reflexivity |].
  destruct (split "+" r) as [| p ps] eqn:E; [now apply split_nonempty in E |].
  reflexivity.
Qed.

Lemma lstrip_no_space s : no_space s = true -> lstrip s = s.
Proof.
  destruct s as [| c r]; [reflexivity |]. cbn.
  intros H. apply andb_prop in H as [Hc _].
  now destruct (isspace_char c).
Qed.

Lemma rstrip_no_space s : no_space s = true -> rstrip s = s.
Proof.
  induction s as [| c r IH]; [reflexivity |]. cbn.
  intros H. apply andb_prop in H as [Hc Hr].
  rewrite (IH Hr). now destruct (isspace_char c).
Qed.

Lemma strip_no_space s : no_space s = true -> strip s = s.
Proof.
  intros H. unfold strip. rewrite (lstrip_no_space s H). now apply rstrip_no_space.
Qed.

Lemma no_space_cons c r :
  no_space (String c r) = negb (isspace_char c) && no_space r.
Proof. reflexivity. Qed.

Lemma no_space_of_parts s :
  forallb no_space (split "+" s) = true -> no_space s = true.
Proof.
  induction s as [| c r IH]; [reflexivity |].
  cbn [split]. destruct (Ascii.eqb_spec c "+") as [-> | Hne].
  - cbn [forallb]. intros H. apply andb_prop in H as [_ H].
    rewrite no_space_cons, (IH H). reflexivity.
  - destruct (split "+" r) as [| p ps] eqn:E; [now apply split_nonempty in E |].
    cbn [forallb] in *. rewrite !no_space_cons.
    intros H. apply andb_prop in H as [Hp Hps]. apply andb_prop in Hp as [Hc Hp].
    rewrite Hc. cbn [andb]. apply IH. now rewrite Hp, Hps.
Qed.

(** Every token of the described syntax is free of blanks and passes the
    loop body, as it is and once lower-cased. *)
Lemma spec_token_passes p :
  spec_token p = true ->
  no_space p = true /\ part_rejected (strip p) = false
  /\ part_rejected (strip (lower p)) = false.
Proof.
  unfold spec_token, is_modifier. intros H. apply orb_prop in H as [H | H].
  - apply mem_In in H. cbn in H.
    destruct H as [<- | [<- | [<- | []]]]; repeat split; reflexivity.
  - destruct p as [| c [| c' r]].
    + discriminate.
    + cbn in H. revert H.
      each_char c; cbn; intros H; try discriminate H; repeat split; reflexivity.
    + cbn [is_base_key] in H. apply mem_In in H. cbn in H.
      repeat (destruct H as [<- | H]; [repeat split; reflexivity |]). destruct H.
Qed.

Lemma spec_syntax_tokens s :
  spec_hotkey_syntax s = true -> forallb spec_token (split "+" s) = true /\ s <> "".
Proof.
  unfold spec_hotkey_syntax. intros H. apply andb_prop in H as [Ht Hc].
  split; [exact Ht |]. intros ->. discriminate.
Qed.

Lemma lower_is_empty s : is_empty (lower s) = is_empty s.
Proof. now destruct s. Qed.

Lemma accepts_spec_syntax s :
  spec_hotkey_syntax s = true -> confirm_hotkey s = Accepted (lower s).
Proof.
  intros H. apply spec_syntax_tokens in H as [Ht Hne].
  assert (Hparts : forall p, In p (split "+" s) ->
            no_space p = true /\ part_rejected (strip (lower p)) = false).
  { intros p Hp. rewrite forallb_forall in Ht.
    destruct (spec_token_passes p (Ht p Hp)) as (? & _ & ?). now split. }
  assert (Hns : no_space s = true).
  { apply no_space_of_parts. apply forallb_forall. intros p Hp. now apply Hparts. }
  unfold confirm_hotkey. rewrite (strip_no_space s Hns), lower_is_empty.
  destruct s as [| c r]; [contradiction |]. cbn [is_empty].
  rewrite split_lower.
  destruct (existsb _ _) eqn:E; [| reflexivity].
  apply existsb_exists in E as (q & Hq & Hrej).
  apply in_map_iff in Hq as (p & <- & Hp).
  destruct (Hparts p Hp) as [_ Hok]. congruence.
Qed.

Lemma accepts_normalised_syntax entry :
  spec_hotkey_syntax (lower (strip entry)) = true ->
  confirm_hotkey entry = Accepted (lower (strip entry)).
Proof.
  intros H. apply spec_syntax_tokens in H as [Ht Hne].
  unfold confirm_hotkey.
  destruct (lower (strip entry)) as [| c r] eqn:E; [contradiction |]. cbn [is_empty].
  destruct (existsb _ _) eqn:Ex; [| reflexivity].
  apply existsb_exists in Ex as (p & Hp & Hrej).
  rewrite forallb_forall in Ht.
  destruct (spec_token_passes p (Ht p Hp)) as (_ & Hok & _). congruence.
Qed.

Lemma single_char_test (cls : ascii -> bool) q :
  (negb (is_empty q) && all_chars cls q) && (String.length q =? 1)%nat = true
  <-> exists c, q = String c "" /\ cls c = true.
Proof.
  split.
  - destruct q as [| c [| c' r]]; cbn; try discriminate.
    + rewrite !andb_true_r. intros H. now exists c.
    + rewrite andb_false_r. discriminate.
  - intros (c & -> & Hc). cbn. now rewrite Hc.
Qed.

Lemma function_key_test q :
  startswith_char "f" q && isdigit (tail q) = true
  <-> exists ds, q = String "f" ds /\ ds <> "" /\ all_chars isdigit_char ds = true.
Proof.
  split.
  - destruct q as [| c r]; cbn; [discriminate |].
    destruct (Ascii.eqb_spec c "f") as [-> | Hne]; [| discriminate].
    cbn. unfold isdigit. intros H. apply andb_prop in H as [Hne Hd].
    exists r. repeat split; [| exact Hd]. intros ->. discriminate.
  - intros (ds & -> & Hne & Hd). cbn. unfold isdigit. rewrite Hd.
    destruct ds; [contradiction | reflexivity].
Qed.

Lemma code_token_reflect q : code_token_b q = true <-> code_token q.
Proof.
  unfold code_token_b, code_token.
  rewrite !orb_true_iff, mem_In, function_key_test.
  unfold isalpha, isdigit. rewrite !single_char_test. split.
  - intros [[[H | (c & Hc & H)] | (c & Hc & H)] | H]; eauto 8.
  - intros [H | [(c & Hc & [H | H]) | H]]; eauto 8.
Qed.

Lemma part_rejected_eq q :
  part_rejected q = negb (is_empty q) && negb (code_token_b q).
Proof.
  unfold part_rejected, code_token_b.
  destruct (is_empty q), (mem q valid_modifiers),
    (isalpha q && (String.length q =? 1)%nat),
    (isdigit q && (String.length q =? 1)%nat),
    (startswith_char "f" q && isdigit (tail q)); reflexivity.
Qed.

Lemma part_rejected_iff q :
  part_rejected q = true <-> q <> "" /\ ~ code_token q.
Proof.
  rewrite part_rejected_eq, andb_true_iff, !negb_true_iff, <- code_token_reflect.
  destruct q as [| c r]; cbn [is_empty].
  - split; [intros [? _]; discriminate | intros [? _]; contradiction].
  - split; intros [_ H]; (split; [discriminate || reflexivity |]).
    + now rewrite H.
    + now destruct (code_token_b (String c r)).
Qed.

Lemma part_passes_iff q :
  part_rejected q = false <-> q = "" \/ code_token q.
Proof.
  rewrite part_rejected_eq, <- code_token_reflect.
  destruct q as [| c r]; cbn [is_empty negb andb].
  - split; [now left | reflexivity].
  - destruct (code_token_b (String c r)); cbn; split; intros H;
      try reflexivity; try discriminate; [now right |].
    destruct H; discriminate.
Qed.

Lemma confirm_hotkey_accepted_iff entry h :
  confirm_hotkey entry = Accepted h <->
  h = lower (strip entry) /\ h <> "" /\
  forall part, In part (split "+" h) -> strip part = "" \/ code_token (strip part).
Proof.
  unfold confirm_hotkey. set (n := lower (strip entry)). split.
  - destruct (is_empty n) eqn:En; [discriminate |].
    destruct (existsb _ _) eqn:Ex; [discriminate |].
    intros [= <-]. split; [reflexivity |]. split; [intros Hn; now rewrite Hn in En |].
    intros part Hp. apply part_passes_iff.
    destruct (part_rejected (strip part)) eqn:Er; [| reflexivity].
    assert (existsb (fun p => part_rejected (strip p)) (split "+" n) = true)
      by (apply existsb_exists; now exists part). congruence.
  - intros (-> & Hne & Hparts). fold n in Hne, Hparts.
    destruct (is_empty n) eqn:En; [destruct n; [contradiction | discriminate] |].
    destruct (existsb _ _) eqn:Ex; [| reflexivity].
    apply existsb_exists in Ex as (part & Hp & Hrej).
    apply part_rejected_iff in Hrej as [Hq Hno].
    destruct (Hparts part Hp); contradiction.
Qed.

Lemma rejected_when_bad_part entry part :
  lower (strip entry) = ""
  \/ (In part (split "+" (lower (strip entry)))
      /\ strip part <> "" /\ ~ code_token (strip part)) ->
  accepts entry = false.
Proof.
  intros H. unfold accepts. destruct (confirm_hotkey entry) as [| | h] eqn:E; try reflexivity.
  apply confirm_hotkey_accepted_iff in E as (-> & Hne & Hparts).
  destruct H as [H | (Hp & Hq & Hno)]; [contradiction |].
  destruct (Hparts part Hp); contradiction.
Qed.

(** C9 (as amended). A candidate that, trimmed and lower-cased, is a
    [+]-joined sequence of modifier names from {ctrl, alt, shift} with
    exactly one base key (a letter, a digit or f1..f12) is accepted, and
    the stored hotkey is that normalised string. A candidate is rejected
    when it is empty after trimming, or when one of its [+]-separated
    parts is, once trimmed, non-empty and none of: a modifier name, a
    single letter, a single digit, an [f] followed by digits. The number
    of base keys is not checked. *)
Theorem hotkey_validation_by_parts :
  (forall entry,
     spec_hotkey_syntax (lower (strip entry)) = true ->
     confirm_hotkey entry = Accepted (lower (strip entry)))
  /\ (forall s, spec_hotkey_syntax s = true -> confirm_hotkey s = Accepted (lower s))
  /\ (forall entry part,
        lower (strip entry) = ""
        \/ (In part (split "+" (lower (strip entry)))
            /\ strip part <> "" /\ ~ code_token (strip part)) ->
        accepts entry = false).
Proof.
  split; [exact accepts_normalised_syntax |].
  split; [exact accepts_spec_syntax | exact rejected_when_bad_part].
Qed.

Lemma hotkey_validation_by_parts_witness :
  confirm_hotkey " Ctrl+Alt+S " = Accepted "ctrl+alt+s"
  /\ confirm_hotkey "shift+f5" = Accepted "shift+f5"
  /\ accepts "ctrl+esc" = false.
Proof.
  destruct hotkey_validation_by_parts as (Hn & Hs & Hr).
  split; [exact (Hn " Ctrl+Alt+S " eq_refl) |].
  split; [exact (Hs "shift+f5" eq_refl) |].
  apply (Hr "ctrl+esc" "esc"). right.
  split; [vm_compute; right; left; reflexivity |]. split; [discriminate |].
  intros [H | [(c & Hc & _) | (ds & Hd & _)]].
  - vm_compute in H. destruct H as [H | [H | [H | []]]]; discriminate H.
  - discriminate Hc.
  - discriminate Hd.
Defined.

(** C9 fails as stated: [ctrl+alt] has no base key and [a+b] has two,
    and both are accepted. *)
Lemma hotkey_without_base_key_accepted :
  ~ (forall s, accepts s = true <-> spec_hotkey_syntax s = true).
Proof.
  intros H. specialize (H "ctrl+alt"). destruct H as [H _].
  specialize (H eq_refl). discriminate H.
Qed.

Example hotkey_two_base_keys_accepted :
  confirm_hotkey "a+b" = Accepted "a+b" /\ spec_hotkey_syntax "a+b" = false.
Proof. split; reflexivity. Qed.

End HotkeyFacts.

(** * Capture ids and the deletion of a capture *)

Section CaptureFacts.
Import Py Pil Session Os Tool.
Local Open Scope list_scope.

Lemma one_to_S n : one_to (S n) = (one_to n ++ [Z.of_nat n + 1])%list.
Proof. unfold one_to. now rewrite seq_S, map_app. Qed.

Lemma renumber_ids_from (cs : list capture) : forall k,
  map cap_id (imap (fun i cap => set_cap_id cap (Z.of_nat (k + i) + 1)) cs)
  = map (fun i => Z.of_nat i + 1) (seq k (List.length cs)).
Proof.
  induction cs as [| c cs IH]; intros k; [reflexivity |].
  cbn [imap map List.length seq]. f_equal.
  - cbn. now rewrite Nat.add_0_r.
  - rewrite <- (IH (S k)). f_equal. apply imap_ext. intros i x _. cbn.
    now rewrite Nat.add_succ_r.
Qed.

Lemma renumber_ids cs : map cap_id (renumber cs) = one_to (List.length cs).
Proof. exact (renumber_ids_from cs 0). Qed.

Lemma renumber_length cs : List.length (renumber cs) = List.length cs.
Proof. unfold renumber. apply length_imap. Qed.

Lemma delete_capture_contiguous s idx : contiguous (delete_capture s idx).
Proof.
  unfold contiguous, capture_ids, delete_capture. cbn [s_captures set_captures].
  now rewrite renumber_ids, renumber_length.
Qed.

Lemma append_capture_ids s time description img_path :
  capture_ids (append_capture s time description img_path)
  = (capture_ids s ++ [Z.of_nat (List.length (s_captures s)) + 1])%list.
Proof.
  unfold capture_ids, append_capture. cbn [s_captures set_captures].
  now rewrite map_app.
Qed.

Lemma append_capture_contiguous s time description img_path :
  contiguous s -> contiguous (append_capture s time description img_path).
Proof.
  unfold contiguous. intros H. rewrite append_capture_ids, H.
  unfold append_capture. cbn [s_captures set_captures].
  rewrite length_app. cbn [List.length]. rewrite Nat.add_1_r.
  now rewrite one_to_S.
Qed.

Lemma describe_ids s idx d : capture_ids (describe s idx d) = capture_ids s.
Proof.
  unfold capture_ids, describe. cbn [s_captures set_captures].
  generalize (s_captures s). clear s. intros cs. revert idx.
  induction cs as [| c cs IH]; intros [| idx]; cbn; try reflexivity.
  now rewrite IH.
Qed.

Lemma describe_length s idx d :
  List.length (s_captures (describe s idx d)) = List.length (s_captures s).
Proof. unfold describe. cbn [s_captures set_captures]. apply length_alter. Qed.

Lemma describe_contiguous s idx d : contiguous s -> contiguous (describe s idx d).
Proof. unfold contiguous. now rewrite describe_ids, describe_length. Qed.

Lemma handle_capture_operation_contiguous dir capture_id a s w :
  contiguous s -> contiguous (fst (handle_capture_operation dir capture_id a s w)).
Proof.
  intros Hs. unfold handle_capture_operation.
  destruct (find_capture s capture_id) as [[idx cap] |]; [| exact Hs].
  destruct a as [[new_desc |] | [|]]; cbn [fst]; try exact Hs.
  - now apply describe_contiguous.
  - destruct (if exists_ w (cap_image_path cap) then _ else _); cbn [fst];
      [apply delete_capture_contiguous | exact Hs].
Qed.

Lemma apply_op_contiguous dir o sw :
  contiguous (fst sw) -> contiguous (fst (apply_op dir o sw)).
Proof.
  destruct o; cbn [apply_op fst].
  - apply append_capture_contiguous.
  - apply handle_capture_operation_contiguous.
Qed.

Lemma op_trace_contiguous dir ops : forall sw,
  contiguous (fst sw) -> Forall (fun sw' => contiguous (fst sw')) (op_trace dir ops sw).
Proof.
  induction ops as [| o rest IH]; intros sw Hsw; cbn [op_trace]; constructor.
  - now apply apply_op_contiguous.
  - apply IH. now apply apply_op_contiguous.
Qed.

(** C3. Capture id contiguity: from a session whose capture ids are
    1..len(captures) in list order (the fresh session of
    [start_capture] is one), after each operation of any finite
    sequence of appends and clicks in the action column (edit or
    delete) the ids are again exactly 1..len(captures) in list order.
    An append gives the new capture the id len+1 and keeps the others;
    a delete renumbers every remaining capture. *)
Theorem capture_ids_stay_contiguous (dir : string) (s : session) (w : world)
    (ops : list capture_op) :
  contiguous s ->
  Forall (fun sw => contiguous (fst sw)) (op_trace dir ops (s, w))
  /\ (forall time description img_path,
        capture_ids (append_capture s time description img_path)
        = (capture_ids s ++ [Z.of_nat (List.length (s_captures s)) + 1])%list)
  /\ (forall idx,
        capture_ids (delete_capture s idx)
        = one_to (List.length (delete idx (s_captures s)))).
Proof.
  intros Hs. split; [now apply op_trace_contiguous |]. split.
  - apply append_capture_ids.
  - intros idx. unfold capture_ids, delete_capture. cbn [s_captures set_captures].
    apply renumber_ids.
Qed.

Lemma capture_ids_stay_contiguous_witness :
  contiguous Sample.two_captures
  /\ Forall (fun sw => contiguous (fst sw))
       (op_trace Sample.dir
          [ OpClick 1 (DeleteCapture true);
            OpAppend "2024-01-01 12:01:00" "" "c.png";
            OpClick 2 (EditDescription (Some "again"));
            OpClick 1 (DeleteCapture true) ]
          (Sample.two_captures, Sample.world0)).
Proof.
  assert (H : contiguous Sample.two_captures) by reflexivity.
  split; [exact H |].
  exact (proj1 (capture_ids_stay_contiguous Sample.dir Sample.two_captures
                  Sample.world0 _ H)).
Defined.

(** The scenario of the specification: captures 1 and 2, delete
    capture 1; the remaining capture has id 1 and the image file of the
    deleted capture is gone. *)
Example delete_first_of_two :
  let '(s, w) := handle_capture_operation Sample.dir 1 (DeleteCapture true)
                   Sample.two_captures Sample.world0 in
  capture_ids s = [1] /\ map cap_image_path (s_captures s) = [Sample.img2]
  /\ exists_ w Sample.img1 = false /\ exists_ w Sample.img2 = true
  /\ read_json w (session_path Sample.dir Sample.sid) = Some (session_to_py s)
  /\ w_log w = [].
Proof. vm_compute. repeat split; reflexivity. Qed.

(** *** Failing and missing image files *)

Lemma lookup_replace f p n :
  lookup f p <> None -> lookup (replace f p n) p = Some n.
Proof.
  unfold lookup. induction f as [| [q m] rest IH]; cbn; [congruence |].
  destruct (String.eqb p q) eqn:E; cbn; rewrite E; [reflexivity | exact IH].
Qed.

Lemma lookup_app_miss f p n : lookup f p = None -> lookup (f ++ [(p, n)]) p = Some n.
Proof.
  unfold lookup. induction f as [| [q m] rest IH]; cbn.
  - now rewrite String.eqb_refl.
  - destruct (String.eqb p q); [discriminate | exact IH].
Qed.

Lemma lookup_put f p n : lookup (put f p n) p = Some n.
Proof.
  unfold put. destruct (lookup f p) eqn:E.
  - apply lookup_replace. congruence.
  - now apply lookup_app_miss.
Qed.

Lemma write_reads_back w p n w' :
  write w p n = Some w' -> lookup (w_fs w') p = Some n /\ w_log w' = w_log w.
Proof.
  unfold write. destruct (locked w p); [discriminate |].
  destruct (lookup (w_fs w) p) as [[| |] |]; try discriminate;
    intros [= <-]; cbn; split; try reflexivity; apply lookup_put.
Qed.

(** The record file holds the session after a save that could write. *)
Lemma save_session_reads_back dir s w w' :
  write w (session_path dir (s_id s)) (TextFile (Some (session_to_py s))) = Some w' ->
  save_session dir s w = w'
  /\ read_json w' (session_path dir (s_id s)) = Some (session_to_py s).
Proof.
  intros Hw. unfold save_session. rewrite Hw. split; [reflexivity |].
  unfold read_json. now rewrite (proj1 (write_reads_back _ _ _ _ Hw)).
Qed.

(** C7. Capture-deletion atomicity: when the capture is found, the user
    confirms, the image file exists and removing it fails, the deletion
    stops there. The session is returned as it was, so the record
    stays in the list and no id changes; the file system is untouched,
    so the session is not saved again; and the failure is reported by
    an error dialog. *)
Theorem delete_aborts_when_remove_fails (dir : string) (capture_id : Z)
    (s : session) (w : world) (idx : nat) (cap : capture) :
  find_capture s capture_id = Some (idx, cap) ->
  exists_ w (cap_image_path cap) = true ->
  remove w (cap_image_path cap) = None ->
  let '(s', w') := handle_capture_operation dir capture_id (DeleteCapture true) s w in
  s' = s /\ w_fs w' = w_fs w /\ w_log w' = (w_log w ++ [ErrDeleteImage])%list.
Proof.
  intros Hfind Hex Hrm. unfold handle_capture_operation.
  rewrite Hfind, Hex, Hrm. repeat split.
Qed.

Lemma delete_aborts_when_remove_fails_witness :
  let '(s', w') := handle_capture_operation Sample.dir 1 (DeleteCapture true)
                     Sample.two_captures Sample.world_locked in
  s' = Sample.two_captures /\ w_fs w' = Sample.store /\ w_log w' = [ErrDeleteImage].
Proof.
  exact (delete_aborts_when_remove_fails Sample.dir 1 Sample.two_captures
           Sample.world_locked 0 _ eq_refl eq_refl eq_refl).
Defined.

(** C10. A missing image file does not block the deletion: when the
    capture is found, the user confirms and the image file is not on
    disk, no removal is attempted and no error is shown; the record is
    taken out of the list, the remaining captures are renumbered
    1..len, and [save_session] is called on the result, after which,
    when the record file could be written, it holds the shortened
    session. *)
Theorem delete_proceeds_when_file_missing (dir : string) (capture_id : Z)
    (s : session) (w : world) (idx : nat) (cap : capture) :
  find_capture s capture_id = Some (idx, cap) ->
  exists_ w (cap_image_path cap) = false ->
  let '(s', w') := handle_capture_operation dir capture_id (DeleteCapture true) s w in
  s_captures s' = renumber (delete idx (s_captures s))
  /\ List.length (s_captures s') = pred (List.length (s_captures s))
  /\ contiguous s'
  /\ w' = save_session dir s' w
  /\ ~ In ErrDeleteImage (skipn (List.length (w_log w)) (w_log w'))
  /\ (forall w1,
        write w (session_path dir (s_id s')) (TextFile (Some (session_to_py s'))) = Some w1 ->
        w' = w1 /\ read_json w' (session_path dir (s_id s')) = Some (session_to_py s')).
Proof.
  intros Hfind Hex. unfold handle_capture_operation. rewrite Hfind, Hex.
  assert (Hidx : (idx < List.length (s_captures s))%nat).
  { unfold find_capture in Hfind. apply list_find_Some in Hfind as (Hl & _).
    now apply lookup_lt_Some in Hl. }
  split; [reflexivity |].
  split.
  { unfold delete_capture. cbn [s_captures set_captures].
    rewrite renumber_length, length_delete; [lia |].
    destruct (s_captures s !! idx) eqn:E; [eauto |].
    apply lookup_ge_None in E. lia. }
  split; [apply delete_capture_contiguous |].
  split; [reflexivity |].
  split.
  { unfold save_session. destruct (write _ _ _) as [w1 |] eqn:Hw.
    - apply write_reads_back in Hw as [_ Hlog]. rewrite Hlog, skipn_all. auto.
    - cbn. rewrite drop_app_length. cbn. intros [H | []]. discriminate H. }
  intros w1 Hw. destruct (save_session_reads_back _ _ _ _ Hw) as [-> Hr]. now split.
Qed.

Lemma delete_proceeds_when_file_missing_witness :
  let '(s', w') := handle_capture_operation Sample.dir 1 (DeleteCapture true)
                     Sample.two_captures Sample.world_missing in
  capture_ids s' = [1] /\ w_log w' = []
  /\ read_json w' (session_path Sample.dir Sample.sid) = Some (session_to_py s').
Proof.
  pose proof (delete_proceeds_when_file_missing Sample.dir 1 Sample.two_captures
                Sample.world_missing 0 _ eq_refl eq_refl) as H.
  destruct (handle_capture_operation Sample.dir 1 (DeleteCapture true)
              Sample.two_captures Sample.world_missing) as [s' w'] eqn:E.
  destruct H as (Hc & _ & _ & Hw & _ & _).
  split; [| split].
  - unfold capture_ids. rewrite Hc. reflexivity.
  - rewrite Hw. vm_compute in E. injection E as <- <-. reflexivity.
  - vm_compute in E. injection E as <- <-. reflexivity.
Defined.

End CaptureFacts.

(** * Compositing *)

Section ComposeFacts.
Import Pil Compose Session Os Tool.
Local Open Scope list_scope.

Lemma consecutive_In (pts : list point) a b :
  In (a, b) (consecutive pts) -> In a pts /\ In b pts.
Proof.
  induction pts as [| p [| q rest] IH]; cbn [consecutive]; try contradiction.
  intros [[= <- <-] | H].
  - split; [now left | right; now left].
  - destruct (IH H) as [Ha Hb]. split; now right.
Qed.

Lemma consecutive_short (pts : list point) :
  (List.length pts <= 1)%nat -> consecutive pts = [].
Proof. destruct pts as [| p [| q rest]]; cbn; intros; try reflexivity; lia. Qed.

Lemma adjusted_points_In reg pts a :
  In a (adjusted_points reg pts) <->
  exists p, In p pts /\ in_region reg p = true /\ a = translate reg p.
Proof.
  unfold adjusted_points. rewrite in_map_iff. split.
  - intros (p & <- & Hp). apply list_elem_of_In, list_elem_of_filter in Hp as [Hr Hp].
    exists p. repeat split; [now apply list_elem_of_In | exact Hr].
  - intros (p & Hp & Hr & ->). exists p. split; [reflexivity |].
    apply list_elem_of_In, list_elem_of_filter. split; [exact Hr | now apply list_elem_of_In].
Qed.

Lemma adjusted_points_length reg pts :
  (List.length (adjusted_points reg pts) <= List.length pts)%nat.
Proof.
  unfold adjusted_points. rewrite length_map. apply length_filter.
Qed.

(** A kept point, once translated, lies in the rectangle from (0, 0) to
    (x2 - x1, y2 - y1), both ends included. *)
Lemma translate_in_closed_box x1 y1 x2 y2 p :
  in_region (x1, y1, x2, y2) p = true ->
  0 <= fst (translate (x1, y1, x2, y2) p) <= x2 - x1
  /\ 0 <= snd (translate (x1, y1, x2, y2) p) <= y2 - y1.
Proof.
  unfold in_region, translate. cbn [fst snd]. intros H.
  apply andb_prop in H as [H Hy2]. apply andb_prop in H as [H Hy1].
  apply andb_prop in H as [Hx1 Hx2]. lia.
Qed.

(** The two guards on the number of points never change what is drawn:
    the calls are the consecutive pairs of the kept, translated points. *)
Lemma stroke_calls_cropped reg points color width :
  stroke_calls (Some reg) (points, color, width)
  = line_calls (adjusted_points reg points) color width.
Proof.
  unfold stroke_calls.
  destruct (Nat.ltb_spec 1 (List.length points)) as [Hp | Hp].
  - destruct (Nat.ltb_spec 1 (List.length (adjusted_points reg points))) as [Ha | Ha];
      [reflexivity |].
    unfold line_calls. now rewrite consecutive_short.
  - unfold line_calls. rewrite consecutive_short; [reflexivity |].
    pose proof (adjusted_points_length reg points). lia.
Qed.

Lemma line_calls_In pts color width c :
  In c (line_calls pts color width) <->
  exists a b, In (a, b) (consecutive pts) /\ c = DrawLine a b color width.
Proof.
  unfold line_calls. rewrite in_map_iff. split.
  - intros ([a b] & <- & H). now exists a, b.
  - intros (a & b & H & ->). now exists (a, b).
Qed.

(** C6 (as amended). Stroke clipping under a crop region
    (x1, y1, x2, y2): what is drawn for a stroke is the polyline through
    the points of the path with x1 <= x <= x2 and y1 <= y <= y2, in path
    order, each translated by (-x1, -y1), in the colour and width of the
    stroke; a point outside is dropped and its neighbours are joined.
    Every drawn coordinate (x, y) satisfies 0 <= x <= width and
    0 <= y <= height of the cropped output, both ends included. A
    stroke with no point in the region draws nothing, and no input
    makes the computation fail. *)
Theorem stroke_clipped_to_closed_region (base : raster) (x1 y1 x2 y2 : Z)
    (points : list point) (color : string) (width : Z) :
  let reg := (x1, y1, x2, y2) in
  let out := crop base reg in
  let calls := stroke_calls (Some reg) (points, color, width) in
  calls = line_calls (adjusted_points reg points) color width
  /\ adjusted_points reg points
     = map (translate reg) (filter (fun p => in_region reg p = true) points)
  /\ (forall c, In c calls ->
        exists a b p q,
          c = DrawLine a b color width
          /\ In p points /\ in_region reg p = true /\ a = translate reg p
          /\ In q points /\ in_region reg q = true /\ b = translate reg q
          /\ 0 <= fst a <= r_width out /\ 0 <= snd a <= r_height out
          /\ 0 <= fst b <= r_width out /\ 0 <= snd b <= r_height out)
  /\ ((forall p, In p points -> in_region reg p = false) -> calls = []).
Proof.
  intros reg out calls. subst calls.
  rewrite stroke_calls_cropped. split; [reflexivity |]. split; [reflexivity |]. split.
  - intros c Hc. apply line_calls_In in Hc as (a & b & Hab & ->).
    apply consecutive_In in Hab as [Ha Hb].
    apply adjusted_points_In in Ha as (p & Hp & Hrp & ->).
    apply adjusted_points_In in Hb as (q & Hq & Hrq & ->).
    exists (translate reg p), (translate reg q), p, q.
    destruct (translate_in_closed_box x1 y1 x2 y2 p Hrp) as [? ?].
    destruct (translate_in_closed_box x1 y1 x2 y2 q Hrq) as [? ?].
    subst out reg. cbn [crop r_width r_height]. repeat split; try assumption; lia.
  - intros Hout. unfold adjusted_points.
    replace (filter (fun p => in_region reg p = true) points) with (@nil point);
      [reflexivity |].
    symmetry. induction points as [| p rest IH]; [reflexivity |].
    rewrite filter_cons. destruct (decide (in_region reg p = true)) as [Hin | _].
    + rewrite (Hout p (or_introl eq_refl)) in Hin. discriminate.
    + apply IH. intros q Hq. apply Hout. now right.
Qed.

(** C6 fails as stated: a point on the right edge of the region is
    kept, and its translated x equals the width of the cropped output,
    one past the last pixel column. *)
Lemma stroke_point_on_crop_edge :
  ~ (forall (base : raster) (reg : box) (s : stroke) a b fill width,
       In (DrawLine a b fill width) (stroke_calls (Some reg) s) ->
       in_bounds (crop base reg) a = true /\ in_bounds (crop base reg) b = true).
Proof.
  intros H.
  specialize (H (Sample.flat 20 20 0%N) SampleCompose.edge_region
                (SampleCompose.edge_points, "red", 2) (10, 5) (10, 7) "red" 2).
  destruct H as [H _]; [left; reflexivity | discriminate H].
Qed.

(** The region and the stroke of that example come out of the pointer
    handlers. *)
Example edge_case_from_pointer_events :
  SampleCompose.dragged_region = Some SampleCompose.edge_region
  /\ SampleCompose.edge_stroke = Some (SampleCompose.edge_points, "red", 2).
Proof. split; reflexivity. Qed.

(** A stroke that leaves the region and returns: the outside points are
    dropped and the last inside point is joined to the next one. *)
Example crossing_stroke_truncated :
  stroke_calls (Some SampleCompose.edge_region) (SampleCompose.crossing_points, "red", 2)
  = [DrawLine (2, 2) (4, 4) "red" 2; DrawLine (4, 4) (9, 9) "red" 2].
Proof. reflexivity. Qed.

(** *** Image objects *)

Section Objects.
Context {R : Rasterizer}.

Lemma alloc_fresh (h : heap) r :
  fst (alloc h r) !! snd (alloc h r) = Some r
  /\ snd (alloc h r) = List.length h
  /\ List.length (fst (alloc h r)) = S (List.length h)
  /\ forall l, (l < List.length h)%nat -> fst (alloc h r) !! l = h !! l.
Proof.
  unfold alloc. cbn [fst snd]. repeat split.
  - rewrite lookup_app_r by lia. now rewrite Nat.sub_diag.
  - rewrite length_app. cbn. lia.
  - intros l Hl. now apply lookup_app_l.
Qed.

Lemma draw_on_other draw_image (calls : list draw_call) : forall (h : heap) l,
  l <> draw_image -> fold_left (draw_on draw_image) calls h !! l = h !! l.
Proof.
  induction calls as [| c rest IH]; intros h l Hl; cbn [fold_left]; [reflexivity |].
  rewrite IH by exact Hl. unfold draw_on. apply list_lookup_alter_ne. congruence.
Qed.

Lemma draw_on_length draw_image (calls : list draw_call) : forall (h : heap),
  List.length (fold_left (draw_on draw_image) calls h) = List.length h.
Proof.
  induction calls as [| c rest IH]; intros h; cbn [fold_left]; [reflexivity |].
  rewrite IH. unfold draw_on. apply length_alter.
Qed.

Lemma on_confirm_objects (h : heap) (original_image : loc) (base : raster)
    reg paths texts descr :
  h !! original_image = Some base ->
  exists h' result,
    on_confirm h original_image reg paths texts descr
      = Some (h', (result, PyStr.strip descr))
    /\ (List.length h <= result)%nat
    /\ is_Some (h' !! result)
    /\ (forall l, (l < List.length h)%nat -> h' !! l = h !! l)
    /\ (reg = None -> paths = [] -> texts = [] -> h' !! result = Some base).
Proof.
  intros Hbase. unfold on_confirm. rewrite Hbase.
  set (first := match reg with Some r => crop base r | None => base end).
  assert (Hal : (match reg with
                 | Some r => alloc h (crop base r)
                 | None => alloc h base
                 end) = alloc h first) by (now destruct reg).
  rewrite Hal.
  destruct (alloc_fresh h first) as (Hget & Hloc & Hlen & Hold).
  destruct (alloc h first) as [h1 final_image] eqn:E1. cbn [fst snd] in *.
  destruct (nonempty paths || nonempty texts) eqn:Hdraw.
  - rewrite Hget.
    destruct (alloc_fresh h1 first) as (Hget2 & Hloc2 & Hlen2 & Hold2).
    destruct (alloc h1 first) as [h2 draw_image] eqn:E2. cbn [fst snd] in *.
    eexists _, draw_image. split; [reflexivity |].
    split; [lia |]. split.
    + apply lookup_lt_is_Some. rewrite draw_on_length. lia.
    + split.
      * intros l Hl. rewrite draw_on_other by lia. rewrite Hold2 by lia. now apply Hold.
      * intros -> -> ->. discriminate Hdraw.
  - exists h1, final_image. split; [reflexivity |]. split; [lia |].
    split; [now rewrite Hget |]. split; [exact Hold |].
    intros -> _ _. exact Hget.
Qed.

Lemma lookup_replace_other f p q n : p <> q -> lookup (replace f p n) q = lookup f q.
Proof.
  intros Hne. unfold lookup. induction f as [| [k m] rest IH]; cbn; [reflexivity |].
  destruct (String.eqb_spec p k) as [-> | Hpk]; cbn.
  - destruct (String.eqb_spec q k); [congruence | reflexivity].
  - destruct (String.eqb q k); [reflexivity | exact IH].
Qed.

Lemma lookup_put_other f p q n : p <> q -> lookup (put f p n) q = lookup f q.
Proof.
  intros Hne. unfold put. destruct (lookup f p).
  - now apply lookup_replace_other.
  - unfold lookup. induction f as [| [k m] rest IH]; cbn.
    + destruct (String.eqb_spec q p); [congruence | reflexivity].
    + destruct (String.eqb q k); [reflexivity | exact IH].
Qed.

Lemma write_other w p n w' q :
  write w p n = Some w' -> p <> q -> lookup (w_fs w') q = lookup (w_fs w) q.
Proof.
  unfold write. destruct (locked w p); [discriminate |].
  destruct (lookup (w_fs w) p) as [[| |] |]; try discriminate;
    intros [= <-] Hne; cbn; now apply lookup_put_other.
Qed.

Lemma save_session_other dir s w q :
  session_path dir (s_id s) <> q ->
  lookup (w_fs (save_session dir s w)) q = lookup (w_fs w) q.
Proof.
  intros Hne. unfold save_session.
  destruct (write _ _ _) as [w' |] eqn:Hw; [| reflexivity].
  now apply (write_other _ _ _ _ _ Hw).
Qed.

Lemma describe_id s idx d : s_id (describe s idx d) = s_id s.
Proof. reflexivity. Qed.

(** The files [preview_screenshot] can change are the image of the
    capture it was opened on and the record of the session; when the
    user cancels it changes none. *)
Lemma preview_screenshot_files dir capture_id u s w (h : heap) :
  let '(s', w', h') := preview_screenshot dir capture_id u s w h in
  (u = Cancel -> w_fs w' = w_fs w)
  /\ (forall idx cap q,
        find_capture s capture_id = Some (idx, cap) ->
        q <> cap_image_path cap -> q <> session_path dir (s_id s) ->
        lookup (w_fs w') q = lookup (w_fs w) q).
Proof.
  unfold preview_screenshot.
  destruct (find_capture s capture_id) as [[idx cap] |] eqn:Hf;
    [| split; [reflexivity | discriminate]].
  destruct (exists_ w (cap_image_path cap)); cbn [negb];
    [| split; [reflexivity | intros; reflexivity]].
  destruct (open_image w (cap_image_path cap)) as [img |];
    [| split; [reflexivity | intros; reflexivity]].
  destruct (alloc h img) as [h0 l0]. destruct (alloc h0 img) as [h1 screenshot].
  destruct u as [| reg paths texts d]; cbn [show_capture_preview].
  { split; [reflexivity | intros; reflexivity]. }
  destruct (on_confirm h1 screenshot reg paths texts d) as [[h2 [updated_image ud]] |];
    [| split; [discriminate | intros; reflexivity]].
  destruct (h2 !! updated_image) as [updated |];
    [| split; [discriminate | intros; reflexivity]].
  destruct (write w (cap_image_path cap) (ImageFile updated)) as [w1 |] eqn:Hw;
    [| split; [discriminate | intros; reflexivity]].
  split; [discriminate |].
  intros idx' cap' q [= <- <-] Hq1 Hq2. cbn [show w_fs].
  rewrite save_session_other.
  - apply (write_other _ _ _ _ _ Hw). congruence.
  - destruct (String.eqb ud (cap_description cap)); rewrite ?describe_id; congruence.
Qed.

(** C8. Compositing identity and freshness: [on_confirm] returns a new
    image object, one that was not in the heap before and so is not the
    base image; every object that was in the heap, the base image
    among them, is left as it was. Without region, strokes and labels
    the new object has the pixels of the base image. [on_confirm] has
    no access to files; the stored capture is written by
    [preview_screenshot], only after the user confirmed, and then only
    the image of that capture and the record of the session change. *)
Theorem compositing_returns_fresh_image (h : heap) (original_image : loc) (base : raster)
    (selected_region : option box) (annotation_paths : list stroke)
    (text_annotations : list label) (description_var : string) :
  h !! original_image = Some base ->
  (exists h' result description,
     on_confirm h original_image selected_region annotation_paths text_annotations
       description_var = Some (h', (result, description))
     /\ (List.length h <= result)%nat
     /\ result <> original_image
     /\ is_Some (h' !! result)
     /\ (forall l, (l < List.length h)%nat -> h' !! l = h !! l)
     /\ h' !! original_image = Some base
     /\ (selected_region = None -> annotation_paths = [] -> text_annotations = [] ->
         h' !! result = Some base))
  /\ (forall dir capture_id u s w,
        let '(s', w', h') := preview_screenshot dir capture_id u s w h in
        (u = Cancel -> w_fs w' = w_fs w)
        /\ (forall idx cap q,
              find_capture s capture_id = Some (idx, cap) ->
              q <> cap_image_path cap -> q <> session_path dir (s_id s) ->
              lookup (w_fs w') q = lookup (w_fs w) q)).
Proof.
  intros Hbase. split.
  - destruct (on_confirm_objects h original_image base selected_region
                annotation_paths text_annotations description_var Hbase)
      as (h' & result & Heq & Hfresh & Hsome & Hold & Hid).
    assert (Hlt : (original_image < List.length h)%nat) by (now apply lookup_lt_Some in Hbase).
    exists h', result, (PyStr.strip description_var).
    split; [exact Heq |]. split; [exact Hfresh |]. split; [lia |].
    split; [exact Hsome |]. split; [exact Hold |].
    split; [now rewrite Hold | exact Hid].
  - intros dir capture_id u s w. apply preview_screenshot_files.
Qed.

End Objects.

Lemma compositing_returns_fresh_image_witness :
  [Sample.flat 20 20 7%N] !! 0%nat = Some (Sample.flat 20 20 7%N)
  /\ exists h' result description,
       on_confirm (R := SampleCompose.blank_rasterizer) [Sample.flat 20 20 7%N] 0%nat
         None [] [] " step one " = Some (h', (result, description))
       /\ result <> 0%nat
       /\ h' !! result = Some (Sample.flat 20 20 7%N).
Proof.
  split; [reflexivity |].
  destruct (compositing_returns_fresh_image (R := SampleCompose.blank_rasterizer)
              [Sample.flat 20 20 7%N] 0%nat (Sample.flat 20 20 7%N) None [] []
              " step one " eq_refl) as [(h' & result & d & He & _ & Hne & _ & _ & _ & Hid) _].
  exists h', result, d. split; [exact He |]. split; [exact Hne |].
  now apply Hid.
Defined.

(** Re-editing the first stored capture with a crop: the file of that
    capture then holds the cropped image, the other capture's file is
    as before. *)
Example reedit_overwrites_capture_file :
  let '(s', w', _) :=
    preview_screenshot (R := SampleCompose.blank_rasterizer) Sample.dir 1
      (Confirm (Some (0, 0, 10, 10)) [] [] "open the dialog")
      Sample.two_captures Sample.world0 [] in
  option_map r_width (open_image w' Sample.img1) = Some 10
  /\ option_map r_width (open_image w' Sample.img2) = Some 20
  /\ w_log w' = [InfoAnnotationSaved] /\ s' = Sample.two_captures.
Proof. vm_compute. repeat split; reflexivity. Qed.

End ComposeFacts.

(** * The session store: saving at stop, loading the history *)

Section StoreFacts.
Import Py Pil Session Os Tool.
Local Open Scope list_scope.

Lemma assoc_In {A} k (d : list (string * A)) v : assoc k d = Some v -> In (k, v) d.
Proof.
  induction d as [| [k' v'] rest IH]; cbn; [discriminate |].
  destruct (String.eqb_spec k k') as [-> | _].
  - intros [= ->]. now left.
  - intros H. right. now apply IH.
Qed.

Lemma put_In f p n q m : In (q, m) (put f p n) -> q = p \/ In (q, m) f.
Proof.
  unfold put. destruct (lookup f p).
  - induction f as [| [k v] rest IH]; cbn; [tauto |].
    destruct (String.eqb_spec p k) as [-> | _]; cbn.
    + intros [[= <- <-] | H]; [now left | right; now right].
    + intros [H | H]; [right; now left |].
      destruct (IH H) as [-> | H']; [now left | right; now right].
  - rewrite in_app_iff. cbn. intros [H | [[= <- <-] | []]]; [now right | now left].
Qed.

Lemma strip_prefix_app pre s : strip_prefix pre (pre ++ s)%string = Some s.
Proof.
  induction pre as [| c pre IH]; cbn; [now destruct s |].
  now rewrite Ascii.eqb_refl.
Qed.

Lemma is_name_not_absolute n : is_name n = true -> PyStr.startswith_char "/" n = false.
Proof.
  destruct n as [| c r]; cbn; [reflexivity |].
  intros H. apply andb_prop in H as [H _]. now destruct (Ascii.eqb c "/").
Qed.

Lemma join_name d n : is_name n = true -> join d n = (dir_prefix d ++ n)%string.
Proof. intros H. unfold join. now rewrite (is_name_not_absolute n H). Qed.

Lemma child_name_join d n : is_name n = true -> child_name d (join d n) = Some n.
Proof.
  intros H. unfold child_name. rewrite (join_name d n H), strip_prefix_app. now rewrite H.
Qed.

Lemma strip_prefix_Some pre s n : strip_prefix pre s = Some n -> s = (pre ++ n)%string.
Proof.
  revert s. induction pre as [| c pre IH]; intros s; cbn.
  - destruct s; now intros [= ->].
  - destruct s as [| e s]; [discriminate |].
    destruct (Ascii.eqb_spec c e) as [-> | _]; [| discriminate].
    intros H. now rewrite (IH s H).
Qed.

Lemma child_name_Some d p n : child_name d p = Some n -> is_name n = true /\ p = join d n.
Proof.
  unfold child_name. destruct (strip_prefix (dir_prefix d) p) as [m |] eqn:E; [| discriminate].
  destruct (is_name m) eqn:Hm; [| discriminate].
  intros [= <-]. split; [exact Hm |].
  rewrite (join_name d m Hm). now apply strip_prefix_Some.
Qed.

Lemma all_chars_app cls a b :
  PyStr.all_chars cls (a ++ b)%string = PyStr.all_chars cls a && PyStr.all_chars cls b.
Proof.
  induction a as [| c a IH]; cbn; [reflexivity |]. now rewrite IH, andb_assoc.
Qed.

Lemma is_name_app a b :
  is_name a = true ->
  PyStr.all_chars (fun c => negb (Ascii.eqb c "/")) b = true ->
  is_name (a ++ b)%string = true.
Proof.
  unfold is_name. intros H Hb. apply andb_prop in H as [Hne Ha].
  rewrite all_chars_app, Ha, Hb. now destruct a.
Qed.

Lemma endswith_app a b : PyStr.endswith (a ++ b)%string b = true.
Proof.
  induction a as [| c a IH].
  - change ("" ++ b)%string with b. destruct b; cbn [PyStr.endswith];
      now rewrite String.eqb_refl.
  - change (String c a ++ b)%string with (String c (a ++ b)).
    cbn [PyStr.endswith]. rewrite IH. apply orb_true_r.
Qed.

Lemma listdir_names w d names n :
  listdir w d = Some names ->
  (In n names <-> exists p m, In (p, m) (w_fs w) /\ child_name d p = Some n).
Proof.
  unfold listdir. destruct (lookup (w_fs w) d) as [[| |] |]; try discriminate.
  intros [= <-]. rewrite <- list_elem_of_In, list_elem_of_omap. split.
  - intros ([p m] & Hin & Hc). exists p, m. split; [now apply list_elem_of_In | exact Hc].
  - intros (p & m & Hin & Hc). exists (p, m). split; [now apply list_elem_of_In | exact Hc].
Qed.

(** What the loop returns when it runs to the end: everything it had,
    and the parsed content of each entry named [*.json]. *)
Lemma load_files_complete w dir names : forall acc loaded,
  load_files w dir names acc = (loaded, true) ->
  (forall v, In v acc -> In v loaded)
  /\ (forall n, In n names -> PyStr.endswith n ".json" = true ->
        exists v, read_json w (join dir n) = Some v /\ In v loaded).
Proof.
  induction names as [| f rest IH]; intros acc loaded; cbn [load_files].
  - intros [= <-]. split; [auto | intros n []].
  - destruct (PyStr.endswith f ".json") eqn:Hf.
    + destruct (read_json w (join dir f)) as [v |] eqn:Hr; [| discriminate].
      intros H. destruct (IH _ _ H) as [Hacc Hrest]. split.
      * intros x Hx. apply Hacc. apply in_or_app. now left.
      * intros n [<- | Hn] He.
        -- exists v. split; [exact Hr |]. apply Hacc. apply in_or_app. right. now left.
        -- now apply Hrest.
    + intros H. destruct (IH _ _ H) as [Hacc Hrest]. split; [exact Hacc |].
      intros n [<- | Hn] He; [congruence | now apply Hrest].
Qed.

Lemma load_files_runs w dir names : forall acc,
  (forall n, In n names -> PyStr.endswith n ".json" = true ->
     read_json w (join dir n) <> None) ->
  exists loaded, load_files w dir names acc = (loaded, true).
Proof.
  induction names as [| f rest IH]; intros acc Hall; cbn [load_files]; [eauto |].
  destruct (PyStr.endswith f ".json") eqn:Hf.
  - destruct (read_json w (join dir f)) as [v |] eqn:Hr.
    + apply IH. intros n Hn. apply Hall. now right.
    + exfalso. apply (Hall f); [now left | exact Hf | exact Hr].
  - apply IH. intros n Hn. apply Hall. now right.
Qed.

(** The sort moves items and neither adds nor drops one. *)
Lemma insert_desc_perm kx sorted r :
  insert_desc kx sorted = Some r -> Permutation (kx :: sorted) r.
Proof.
  revert r. induction sorted as [| ky rest IH]; intros r; cbn [insert_desc].
  - now intros [= <-].
  - destruct (py_lt (fst kx) (fst ky)) as [[|] |]; [| now intros [= <-] | discriminate].
    destruct (insert_desc kx rest) as [r' |]; [| discriminate].
    cbn. intros [= <-]. rewrite Permutation_swap. constructor. now apply IH.
Qed.

Lemma sort_desc_perm l r : sort_desc l = Some r -> Permutation l r.
Proof.
  revert r. induction l as [| kx rest IH]; intros r; cbn [sort_desc].
  - now intros [= <-].
  - destruct (sort_desc rest) as [s |]; [| discriminate].
    intros H. apply insert_desc_perm in H. rewrite <- H. constructor. now apply IH.
Qed.

Lemma keyed_items key l kl : keyed key l = Some kl -> map snd kl = l.
Proof.
  revert kl. induction l as [| x rest IH]; intros kl; cbn [keyed].
  - now intros [= <-].
  - destruct (key x); [| discriminate]. destruct (keyed key rest) as [kr |]; [| discriminate].
    intros [= <-]. cbn. now rewrite (IH kr).
Qed.

Lemma sort_by_key_desc_perm key l r : sort_by_key_desc key l = Some r -> Permutation l r.
Proof.
  unfold sort_by_key_desc. destruct (keyed key l) as [kl |] eqn:Hk; [| discriminate].
  destruct (sort_desc kl) as [s |] eqn:Hs; [| discriminate].
  cbn. intros [= <-]. rewrite <- (keyed_items key l kl Hk).
  apply Permutation_map. now apply sort_desc_perm.
Qed.

(** When the listing and every record can be read, the history holds
    the parsed content of each [*.json] entry. *)
Lemma load_history_sessions_complete t w names :
  listdir w (sessions_dir t) = Some names ->
  records_load w (sessions_dir t) ->
  forall n, In n names -> PyStr.endswith n ".json" = true ->
  exists v, read_json w (join (sessions_dir t) n) = Some v
            /\ In v (history_sessions (fst (load_history_sessions t w))).
Proof.
  intros Hl Hall n Hn He. unfold load_history_sessions. rewrite Hl.
  destruct (load_files_runs w (sessions_dir t) names []) as [loaded Hload].
  { intros m Hm Hem. now apply (Hall names m). }
  rewrite Hload. destruct (load_files_complete _ _ _ _ _ Hload) as [_ Hc].
  destruct (Hc n Hn He) as (v & Hv & Hin). exists v. split; [exact Hv |].
  destruct (sort_by_key_desc _ loaded) as [sorted |] eqn:Hs; cbn [fst history_sessions set_history].
  - apply sort_by_key_desc_perm in Hs. now rewrite <- Hs.
  - exact Hin.
Qed.

Lemma load_history_sessions_frame t w :
  let '(t', w') := load_history_sessions t w in
  w_fs w' = w_fs w /\ w_locked w' = w_locked w
  /\ current_session t' = current_session t
  /\ current_session_id t' = current_session_id t
  /\ (w_log w' = w_log w \/ w_log w' = w_log w ++ [ErrLoadHistory]).
Proof.
  unfold load_history_sessions.
  destruct (listdir w (sessions_dir t)) as [names |]; [| cbn; auto 6].
  destruct (load_files w (sessions_dir t) names []) as [loaded [|]]; [| cbn; auto 6].
  destruct (sort_by_key_desc _ loaded); cbn; auto 6.
Qed.

(** After a write to the record path of [id], the listing of the
    sessions directory has the name [id.json]. *)
Lemma written_record_listed w dir id node w2 :
  write w (session_path dir id) node = Some w2 ->
  is_name id = true ->
  lookup (w_fs w) dir = Some Dir ->
  exists names2, listdir w2 dir = Some names2 /\ In (id ++ ".json")%string names2.
Proof.
  intros Hw Hid Hdir.
  assert (Hname : is_name (id ++ ".json")%string = true) by (now apply is_name_app).
  assert (Hne : session_path dir id <> dir).
  { intros E. unfold write in Hw. destruct (locked w (session_path dir id)); [discriminate |].
    rewrite E, Hdir in Hw. discriminate. }
  assert (Hdir2 : lookup (w_fs w2) dir = Some Dir)
    by (now rewrite (write_other _ _ _ _ _ Hw Hne)).
  unfold listdir at 1. rewrite Hdir2. eexists. split; [reflexivity |].
  apply (listdir_names w2 dir); [unfold listdir; now rewrite Hdir2 |].
  exists (session_path dir id), node. split.
  - apply assoc_In. exact (proj1 (write_reads_back _ _ _ _ Hw)).
  - now apply child_name_join.
Qed.

Lemma written_record_keeps_loading w dir id v w2 :
  write w (session_path dir id) (TextFile (Some v)) = Some w2 ->
  lookup (w_fs w) dir = Some Dir ->
  records_load w dir -> records_load w2 dir.
Proof.
  intros Hw Hdir Hall names2 name Hl2 Hin He.
  destruct (string_dec (session_path dir id) (join dir name)) as [Heq | Hne].
  - unfold read_json. rewrite <- Heq, (proj1 (write_reads_back _ _ _ _ Hw)). discriminate.
  - unfold read_json. rewrite (write_other _ _ _ _ _ Hw Hne).
    apply (listdir_names w2 dir names2 name Hl2) in Hin as (p & m & Hp & Hc).
    apply child_name_Some in Hc as Hpj. destruct Hpj as [_ Hpj].
    assert (Hfs : w_fs w2 = put (w_fs w) (session_path dir id) (TextFile (Some v))).
    { unfold write in Hw. destruct (locked w _); [discriminate |].
      destruct (lookup (w_fs w) _) as [[| |] |]; try discriminate; now injection Hw as <-. }
    rewrite Hfs in Hp. apply put_In in Hp as [-> | Hp]; [congruence |].
    assert (Hl : listdir w dir = Some (omap (fun e => child_name dir (fst e)) (w_fs w)))
      by (unfold listdir; now rewrite Hdir).
    apply (Hall _ name Hl); [| exact He].
    apply (listdir_names w dir _ name Hl). now exists p, m.
Qed.

Lemma writable_write w p n : writable w p -> exists w2, write w p n = Some w2.
Proof.
  intros [Hl Hd]. unfold write. rewrite Hl.
  destruct (lookup (w_fs w) p) as [[| |] |]; [contradiction | eauto ..].
Qed.

Lemma loaded_id_session s : loaded_id (session_to_py s) = Some (s_id s).
Proof. reflexivity. Qed.

Lemma history_ids_In t v id :
  In v (history_sessions t) -> loaded_id v = Some id -> In id (history_ids t).
Proof.
  intros Hin Hid. unfold history_ids. apply list_elem_of_In, list_elem_of_omap.
  exists v. split; [now apply list_elem_of_In | exact Hid].
Qed.

(** Saving the current session and loading the history, as
    [stop_capture] does one after the other. *)
Lemma save_then_load t w id :
  current_session_id t = Some id ->
  s_id (current_session t) = id ->
  id <> "" ->
  writable w (session_path (sessions_dir t) id) ->
  let '(t', w') := load_history_sessions t (save_current_session t w) in
  read_json w' (session_path (sessions_dir t) id) = Some (session_to_py (current_session t))
  /\ (is_name id = true ->
      lookup (w_fs w) (sessions_dir t) = Some Dir ->
      records_load w (sessions_dir t) ->
      In id (history_ids t'))
  /\ current_session t' = current_session t
  /\ (w_log w' = w_log w \/ w_log w' = w_log w ++ [ErrLoadHistory]).
Proof.
  intros Hcid Hsid Hne Hwr.
  destruct (writable_write w _ (TextFile (Some (session_to_py (current_session t)))) Hwr)
    as [w2 Hw].
  assert (Hsave : save_current_session t w = w2).
  { unfold save_current_session. rewrite Hcid.
    destruct id as [| c r]; [contradiction |]. cbn [PyStr.is_empty].
    unfold save_session. rewrite Hsid. now rewrite Hw. }
  rewrite Hsave.
  pose proof (load_history_sessions_frame t w2) as Hframe.
  pose proof (load_history_sessions_complete t w2) as Hcomplete.
  destruct (load_history_sessions t w2) as [t' w'] eqn:Hload.
  destruct Hframe as (Hfs & _ & Hcs & _ & Hlog).
  destruct (write_reads_back _ _ _ _ Hw) as [Hback Hlog2].
  split; [unfold read_json; now rewrite Hfs, Hback |].
  split; [| split; [exact Hcs | now rewrite <- Hlog2]].
  intros Hname Hdir Hall.
  destruct (written_record_listed _ _ _ _ _ Hw Hname Hdir) as (names2 & Hl2 & Hin2).
  destruct (Hcomplete names2 Hl2
              (written_record_keeps_loading _ _ _ _ _ Hw Hdir Hall)
              _ Hin2 (endswith_app id ".json")) as (v & Hv & Hhist).
  cbn [fst] in Hhist.
  apply (history_ids_In t' v id Hhist).
  change (join (sessions_dir t) (id ++ ".json")%string)
    with (session_path (sessions_dir t) id) in Hv.
  unfold read_json in Hv. rewrite Hback in Hv. injection Hv as <-.
  now rewrite loaded_id_session, Hsid.
Qed.

(** C1 (as amended). [stop_capture] on an armed session saves the
    session whether or not it has captures: when the record file can
    be written, after the stop it exists and holds the session with its
    end time and duration, and the history reloaded by the stop lists
    the session id whenever the sessions directory and the records in
    it can be read. With no captures, what is left out is the editor
    window: the stop ends with the notice that there is nothing to
    edit. *)
Theorem stop_saves_session_without_captures (i : stop_input) (t : tool) (w : world)
    (id : string) :
  is_capturing t = true ->
  current_session_id t = Some id ->
  s_id (current_session t) = id ->
  id <> "" ->
  writable w (session_path (sessions_dir t) id) ->
  let '(t', w', c) := stop_capture i t w in
  read_json w' (session_path (sessions_dir t) id)
    = Some (session_to_py (stopped_session i t))
  /\ exists_ w' (session_path (sessions_dir t) id) = true
  /\ (is_name id = true ->
      lookup (w_fs w) (sessions_dir t) = Some Dir ->
      records_load w (sessions_dir t) ->
      In id (history_ids t'))
  /\ (s_captures (current_session t) = [] -> c = Returned ->
      last (w_log w') = Some InfoNothingToEdit).
Proof.
  intros Hcap Hcid Hsid Hne Hwr. unfold stop_capture. rewrite Hcap. cbn [negb].
  set (ow := match hotkey_obj t with
             | Some h => if remove_hotkey_ok i then (None, w)
                         else (Some h, show w WarnHotkeyCleanup)
             | None => (None, w)
             end).
  assert (How : w_fs (snd ow) = w_fs w /\ w_locked (snd ow) = w_locked w).
  { subst ow. destruct (hotkey_obj t); [destruct (remove_hotkey_ok i) |]; now split. }
  destruct ow as [obj w1]. cbn [snd] in How. destruct How as [Hfs1 Hlk1].
  set (t2 := set_session _ _ _).
  assert (Hwr1 : writable w1 (session_path (sessions_dir t2) id)).
  { destruct Hwr as [Hl Hd]. split.
    - unfold locked. rewrite Hlk1. exact Hl.
    - rewrite Hfs1. exact Hd. }
  pose proof (save_then_load t2 w1 id Hcid Hsid Hne Hwr1) as H.
  destruct (load_history_sessions t2 (save_current_session t2 w1)) as [t3 w3].
  destruct H as (Hread & Hhist & Hcs & Hlog).
  assert (Hread' : read_json w3 (session_path (sessions_dir t) id)
                   = Some (session_to_py (stopped_session i t))) by exact Hread.
  assert (Hex : forall w4, w_fs w4 = w_fs w3 ->
                  exists_ w4 (session_path (sessions_dir t) id) = true).
  { intros w4 E. unfold exists_. rewrite E. unfold read_json in Hread'.
    destruct (lookup (w_fs w3) _); [reflexivity | discriminate]. }
  assert (Hhist' : is_name id = true ->
                   lookup (w_fs w) (sessions_dir t) = Some Dir ->
                   records_load w (sessions_dir t) -> In id (history_ids t3)).
  { intros Hn Hd Hall. apply Hhist; [exact Hn | now rewrite Hfs1 |].
    intros names name Hl Hin He. unfold read_json. rewrite Hfs1.
    apply (Hall names name); [| exact Hin | exact He].
    unfold listdir in *. now rewrite <- Hfs1. }
  destruct (update_history_list t3).
  - rewrite Hcs. cbn [current_session t2 set_session].
    destruct (Compose.nonempty (s_captures _)) eqn:Hnon.
    + split; [exact Hread' |]. split; [now apply Hex |]. split; [exact Hhist' |].
      intros Hempty. cbn in Hnon. rewrite Hempty in Hnon. discriminate.
    + split; [exact Hread' |]. split; [now apply Hex |]. split; [exact Hhist' |].
      intros _ _. cbn [show w_log]. apply last_snoc.
  - split; [exact Hread' |]. split; [now apply Hex |]. split; [exact Hhist' |].
    intros _ [=].
Qed.

Lemma stop_saves_session_without_captures_witness :
  let '(t', w', c) := stop_capture Sample.stop_demo (fst Sample.armed) (snd Sample.armed) in
  exists_ w' (session_path Sample.dir Sample.sid) = true
  /\ In Sample.sid (history_ids t')
  /\ last (w_log w') = Some InfoNothingToEdit.
Proof.
  assert (Hw : writable (snd Sample.armed) (session_path Sample.dir Sample.sid))
    by (split; [reflexivity | discriminate]).
  assert (Hall : records_load (snd Sample.armed) Sample.dir).
  { intros names name Hl Hin He. vm_compute in Hl. injection Hl as <-.
    destruct Hin as [<- | []]. discriminate He. }
  pose proof (stop_saves_session_without_captures Sample.stop_demo (fst Sample.armed)
                (snd Sample.armed) Sample.sid eq_refl eq_refl eq_refl
                ltac:(discriminate) Hw) as H.
  destruct (stop_capture Sample.stop_demo (fst Sample.armed) (snd Sample.armed))
    as [[t' w'] c] eqn:E.
  destruct H as (_ & Hex & Hhist & Hlast).
  split; [exact Hex |]. split; [exact (Hhist eq_refl eq_refl Hall) |].
  apply Hlast; [reflexivity |].
  vm_compute in E. now injection E as _ _ <-.
Defined.

(** C1 fails as stated: an armed session without captures is stopped;
    afterwards its record file exists and the reloaded history lists
    its id. *)
Lemma empty_session_record_is_written :
  ~ (forall (i : stop_input) (t : tool) (w : world) (id : string),
       is_capturing t = true ->
       current_session_id t = Some id ->
       s_id (current_session t) = id ->
       s_captures (current_session t) = [] ->
       let '(t', w', _) := stop_capture i t w in
       ~ In id (history_ids t')
       /\ exists_ w' (session_path (sessions_dir t) id) = false).
Proof.
  intros H.
  specialize (H Sample.stop_demo (fst Sample.armed) (snd Sample.armed) Sample.sid
                eq_refl eq_refl eq_refl eq_refl).
  vm_compute in H. destruct H as [_ H]. discriminate H.
Qed.

(** *** Loading a directory with a malformed record *)

Lemma load_files_acc w dir names : forall acc,
  load_files w dir names acc
  = (acc ++ fst (load_files w dir names []), snd (load_files w dir names [])).
Proof.
  induction names as [| f rest IH]; intros acc; cbn [load_files].
  - cbn. now rewrite app_nil_r.
  - destruct (PyStr.endswith f ".json").
    + destruct (read_json w (join dir f)) as [v |]; [| cbn; now rewrite app_nil_r].
      rewrite (IH (acc ++ [v])), (IH ([] ++ [v])). cbn. now rewrite <- app_assoc.
    + apply IH.
Qed.

(** The loop stops at the first entry it cannot read and keeps what it
    had read before. *)
Lemma load_files_stops w dir before f after :
  PyStr.endswith f ".json" = true ->
  read_json w (join dir f) = None ->
  (forall n, In n before -> PyStr.endswith n ".json" = true ->
     read_json w (join dir n) <> None) ->
  load_files w dir (before ++ f :: after) [] = (records_of w dir before, false).
Proof.
  intros Hf Hr. induction before as [| b before IH]; intros Hb.
  - cbn. now rewrite Hf, Hr.
  - unfold records_of in *. cbn [app load_files].
    change (omap ?g (b :: before)) with
      (match g b with Some y => y :: omap g before | None => omap g before end).
    cbv beta. destruct (PyStr.endswith b ".json") eqn:Eb.
    + destruct (read_json w (join dir b)) as [v |] eqn:Ev.
      * rewrite load_files_acc, IH by (intros n Hn; apply Hb; now right). reflexivity.
      * exfalso. now apply (Hb b (or_introl eq_refl) Eb).
    + apply IH. intros n Hn. apply Hb. now right.
Qed.

(** C2, what the code does: one [try] encloses the whole loop, so at
    the first [*.json] entry that cannot be opened or parsed the loader
    shows one error dialog and stops. The history then holds the
    records listed before that entry, unsorted; no record listed after
    it is read. No exception leaves the loader. *)
Theorem loader_stops_at_first_unreadable_record (t : tool) (w : world)
    (before after : list string) (f : string) :
  listdir w (sessions_dir t) = Some (before ++ f :: after) ->
  PyStr.endswith f ".json" = true ->
  read_json w (join (sessions_dir t) f) = None ->
  (forall n, In n before -> PyStr.endswith n ".json" = true ->
     read_json w (join (sessions_dir t) n) <> None) ->
  let '(t', w') := load_history_sessions t w in
  history_sessions t' = records_of w (sessions_dir t) before
  /\ w_log w' = w_log w ++ [ErrLoadHistory]
  /\ w_fs w' = w_fs w.
Proof.
  intros Hl Hf Hr Hb. unfold load_history_sessions.
  rewrite Hl, (load_files_stops w _ before f after Hf Hr Hb). repeat split.
Qed.

Lemma loader_stops_at_first_unreadable_record_witness :
  let '(t', w') := load_history_sessions Sample.tool0 Sample.broken_store in
  history_sessions t' = []
  /\ w_log w' = [ErrLoadHistory]
  /\ read_json Sample.broken_store (session_path Sample.dir Sample.sid)
     = Some (session_to_py Sample.two_captures)
  /\ well_formed_record (session_to_py Sample.two_captures) = true.
Proof.
  pose proof (loader_stops_at_first_unreadable_record Sample.tool0 Sample.broken_store
                [] [(Sample.sid ++ ".json")%string] "a.json"
                eq_refl eq_refl eq_refl ltac:(intros n [])) as H.
  destruct (load_history_sessions Sample.tool0 Sample.broken_store) as [t' w'].
  destruct H as (Hh & Hlog & _).
  split; [exact Hh |]. split; [exact Hlog |]. split; reflexivity.
Defined.

(** A record without [captures] is not skipped: nothing checks the
    fields, and the sort only needs [start_time]. *)
Example record_without_captures_is_loaded :
  let '(t', w') := load_history_sessions Sample.tool0 Sample.truncated_store in
  history_sessions t' = [Sample.truncated_record; session_to_py Sample.two_captures]
  /\ well_formed_record Sample.truncated_record = false
  /\ w_log w' = [].
Proof. vm_compute. repeat split; reflexivity. Qed.

(** The loader always returns; what can raise afterwards is the table
    refresh, on a loaded value it cannot display. *)
Example truncated_record_breaks_table_refresh :
  update_history_list (fst (load_history_sessions Sample.tool0 Sample.truncated_store))
  = Raised.
Proof. reflexivity. Qed.

(** *** The loader of version 1.1 on the same directories *)

Lemma v11_load_files_split w dir names : forall acc log,
  ToolV11.load_files w dir names acc log
  = (acc ++ ToolV11.kept w dir names, log ++ ToolV11.diagnostics w dir names).
Proof.
  unfold ToolV11.kept, ToolV11.diagnostics.
  induction names as [| f rest IH]; intros acc log; cbn [ToolV11.load_files].
  - cbn. now rewrite !app_nil_r.
  - change (omap ?g (f :: rest)) with
      (match g f with Some y => y :: omap g rest | None => omap g rest end).
    cbv beta. destruct (PyStr.endswith f ".json"); cbn [negb]; [| apply IH].
    destruct (ToolV11.load_one w dir f) as [v | e]; rewrite IH, <- app_assoc; reflexivity.
Qed.

(** Version 1.1 keeps a record exactly when its file parses and has the
    required keys, and shows one diagnostic for every other [*.json]
    entry; an unreadable entry does not stop the loop. *)
Lemma v11_loader_skips_per_record t w names :
  listdir w (sessions_dir t) = Some names ->
  let '(t', w', _) := ToolV11.load_history_sessions t w in
  Permutation (history_sessions t') (ToolV11.kept w (sessions_dir t) names)
  /\ w_log w' = w_log w ++ ToolV11.diagnostics w (sessions_dir t) names
  /\ (List.length (ToolV11.kept w (sessions_dir t) names)
       + List.length (ToolV11.diagnostics w (sessions_dir t) names)
      = List.length (filter (fun n => PyStr.endswith n ".json" = true) names))%nat.
Proof.
  intros Hl. unfold ToolV11.load_history_sessions.
  assert (Hex : exists_ w (sessions_dir t) = true).
  { unfold listdir in Hl. unfold exists_. destruct (lookup _ _); [reflexivity | discriminate]. }
  rewrite Hex, Hl. cbn [negb]. rewrite v11_load_files_split. cbn [app].
  assert (Hcount : (List.length (ToolV11.kept w (sessions_dir t) names)
                    + List.length (ToolV11.diagnostics w (sessions_dir t) names)
                    = List.length (filter (fun n => PyStr.endswith n ".json" = true) names))%nat).
  { unfold ToolV11.kept, ToolV11.diagnostics. clear Hl.
    induction names as [| f rest IH]; [reflexivity |].
    rewrite filter_cons.
    change (omap ?g (f :: rest)) with
      (match g f with Some y => y :: omap g rest | None => omap g rest end).
    cbv beta. destruct (decide (PyStr.endswith f ".json" = true)) as [E | E].
    - rewrite E. destruct (ToolV11.load_one w (sessions_dir t) f); cbn [List.length]; lia.
    - destruct (PyStr.endswith f ".json"); [contradiction | exact IH]. }
  destruct (sort_by_key_desc _ _) as [sorted |] eqn:Hs;
    cbn [history_sessions set_history ToolV11.add_log w_log].
  - apply sort_by_key_desc_perm in Hs. split; [now symmetry |]. now split.
  - split; [reflexivity |]. now split.
Qed.

Lemma all_in_dict keys d :
  all_in keys (PDict d) = Some true <->
  forall k, In k keys -> assoc k d <> None.
Proof.
  induction keys as [| k rest IH]; cbn [all_in py_in].
  - split; [intros _ k [] | reflexivity].
  - destruct (assoc k d) eqn:E.
    + rewrite IH. split.
      * intros H j [<- | Hj]; [congruence | now apply H].
      * intros H j Hj. apply H. now right.
    + split; [discriminate |]. intros H. exfalso. now apply (H k (or_introl eq_refl)).
Qed.

(** On the directory where the current loader returns nothing, version
    1.1 returns the well-formed record and reports the broken file; on
    the directory with the truncated record it skips that record and
    says so. *)
Example v11_loader_on_samples :
  (let '(t', w', c) := ToolV11.load_history_sessions Sample.tool0 Sample.broken_store in
   history_sessions t' = [session_to_py Sample.two_captures]
   /\ w_log w' = [WarnFileCorrupt "a.json"] /\ c = Returned)
  /\ (let '(t', w', c) := ToolV11.load_history_sessions Sample.tool0 Sample.truncated_store in
      history_sessions t' = [session_to_py Sample.two_captures]
      /\ w_log w' = [NoteFieldsMissing "t1.json"] /\ c = Returned).
Proof. vm_compute. repeat split; reflexivity. Qed.

(** *** Where sessions come from and where captures are appended *)

Lemma init_empty_session_contiguous : contiguous init_empty_session.
Proof. reflexivity. Qed.

(** The session [start_capture] creates has no captures. *)
Lemma start_capture_session i t w :
  current_session (fst (start_capture i t w)) = current_session t
  \/ s_captures (current_session (fst (start_capture i t w))) = [].
Proof.
  unfold start_capture. destruct (is_capturing t); [now left |].
  destruct (blank (ask_name i)); [now left |]. right.
  destruct (ensure_dir w _) as [w1 [|]]; [| reflexivity].
  destruct (add_hotkey i); reflexivity.
Qed.

Lemma stop_capture_captures i t w :
  s_captures (current_session (fst (fst (stop_capture i t w))))
  = s_captures (current_session t).
Proof.
  unfold stop_capture. destruct (is_capturing t); cbn [negb]; [| reflexivity].
  destruct (match hotkey_obj t with Some _ => _ | None => _ end) as [obj w1].
  match goal with
  | |- context [load_history_sessions ?a ?b] =>
      pose proof (load_history_sessions_frame a b) as H;
      destruct (load_history_sessions a b) as [t3 w3]
  end.
  destruct H as (_ & _ & Hcs & _).
  destruct (update_history_list t3); [destruct (Compose.nonempty _) |];
    cbn [fst]; now rewrite Hcs.
Qed.

(** A trigger leaves the captures as they are or appends one record
    with [append_capture]. *)
Lemma capture_screen_session {R : Rasterizer} i t w (h : list raster) :
  let t' := fst (fst (fst (capture_screen i t w h))) in
  s_captures (current_session t') = s_captures (current_session t)
  \/ exists time description img_path,
       current_session t' = append_capture (current_session t) time description img_path.
Proof.
  unfold capture_screen. destruct (is_capturing t); cbn [negb]; [| now left].
  destruct (if exists_ w (images_dir t) then _ else _) as [w1 |]; [| now left].
  destruct (grab i) as [shot | |]; [| | now left].
  - destruct (alloc h shot) as [h1 screenshot].
    destruct (show_capture_preview h1 screenshot (user i)) as [h2 [[final_image d] |]];
      [| now left].
    destruct (h2 !! final_image) as [final |]; [| now left].
    destruct (write w1 _ _) as [w2 |]; [| now left].
    right. cbn [fst current_session set_session]. eauto.
  - pose proof (stop_capture_captures (on_stop i) t (show w1 ErrMissingDependency)) as H.
    destruct (stop_capture _ _ _) as [[t' w'] c]. now left.
Qed.

(** Triggers keep the capture ids of the current session contiguous. *)
Lemma capture_screen_contiguous {R : Rasterizer} i t w (h : list raster) :
  contiguous (current_session t) ->
  contiguous (current_session (fst (fst (fst (capture_screen i t w h))))).
Proof.
  intros Hc. destruct (capture_screen_session i t w h) as [H | (time & d & p & H)].
  - unfold contiguous, capture_ids in *. now rewrite H.
  - rewrite H. now apply append_capture_contiguous.
Qed.

End StoreFacts.

(** * The preview window *)

Section PreviewFacts.
Import Pil Compose Zoom Preview.
Local Open Scope list_scope.

Lemma select_region_in_image c sx sy ex ey b :
  select_region c sx sy ex ey = Some b -> box_in_image c b.
Proof.
  unfold select_region.
  destruct ((Z.max sx ex - Z.min sx ex >? 5) && (Z.max sy ey - Z.min sy ey >? 5));
    [| discriminate].
  match goal with
  | |- (if (?a >? ?b) && (?c >? ?d) then _ else _) = _ -> _ =>
      destruct (Z.gtb_spec a b); destruct (Z.gtb_spec c d); cbn [andb];
        try discriminate
  end.
  intros [= <-]. unfold box_in_image. lia.
Qed.

Lemma select_region_min_drag c sx sy ex ey :
  Z.abs (ex - sx) <= 5 \/ Z.abs (ey - sy) <= 5 ->
  select_region c sx sy ex ey = None.
Proof.
  intros H. unfold select_region.
  destruct (Z.gtb_spec (Z.max sx ex - Z.min sx ex) 5);
    destruct (Z.gtb_spec (Z.max sy ey - Z.min sy ey) 5); cbn [andb]; try reflexivity.
  exfalso. lia.
Qed.

Lemma box_in_image_wheel c ev b :
  box_in_image (on_mousewheel c ev) b <-> box_in_image c b.
Proof.
  unfold box_in_image, on_mousewheel. destruct (inside_image c ev); reflexivity.
Qed.

Lemma in_color_options button color :
  color_options !! button = Some color -> In color color_options.
Proof. intros H. apply list_elem_of_In. eapply list_elem_of_lookup_2, H. Qed.

Lemma decimal_value_nonneg s : forall acc n,
  0 <= acc -> decimal_value acc s = Some n -> 0 <= n.
Proof.
  induction s as [| ch r IH]; intros acc n Hacc; cbn [decimal_value].
  - now intros [= <-].
  - destruct (PyStr.between 48 57 (PyStr.code ch)) eqn:E; [| discriminate].
    apply IH. unfold PyStr.between in E. apply andb_prop in E as [E1 E2].
    apply N.leb_le in E1. lia.
Qed.

Lemma finish_stroke_ok c line color width s :
  finish_stroke c line color width = Some s ->
  width = 2 -> In color color_options -> stroke_ok s.
Proof.
  unfold finish_stroke.
  destruct (Nat.ltb_spec 1 (List.length line)); [| discriminate].
  intros [= <-] Hw Hc. unfold stroke_ok. rewrite length_map.
  unfold point in *. repeat split; [lia | | ]; assumption.
Qed.

(** Each handler keeps the recorded data in shape. *)
Lemma step_tidy p e p' : tidy p -> step p e = Some p' -> tidy p'.
Proof.
  intros Hp. pose proof Hp as (Hd & Hs & Hl & Hc & Hw & [Hf1 Hf2] & Hr).
  destruct e as [x y answer | x y | x y | ev | m | | button | size_str]; cbn [step].
  - intros [= <-]. unfold on_mouse_down.
    destruct (on_image (pv_canvas p) x y); [| exact Hp].
    destruct (current_mode p); unfold tidy; cbn.
    + exact Hp.
    + repeat split; try assumption. discriminate.
    + repeat split; try assumption.
      destruct answer as [text |]; [| exact Hl].
      destruct (negb (PyStr.is_empty text) && negb (PyStr.is_empty (PyStr.strip text)))
        eqn:E; [| exact Hl].
      apply Forall_app. split; [exact Hl |]. constructor; [| constructor].
      unfold label_ok. repeat split; try assumption; try lia.
      apply andb_prop in E as [_ E]. intros Hempty. rewrite Hempty in E. discriminate.
  - unfold on_mouse_move.
    destruct (mode_eqb (current_mode p) SelectMode && rect_id p);
      [intros [= <-]; exact Hp |].
    destruct (mode_eqb (current_mode p) DrawMode && drawing p);
      [| intros [= <-]; exact Hp].
    destruct (on_image (pv_canvas p) x y); [| intros [= <-]; exact Hp].
    destruct (2 <=? List.length (current_line p ++ [(x, y)]))%nat; [| discriminate].
    intros [= <-]. unfold tidy. cbn. repeat split; try assumption.
    intros _ E. now apply app_eq_nil in E as [_ E].
  - intros [= <-]. unfold on_mouse_up.
    destruct (mode_eqb (current_mode p) SelectMode && rect_id p).
    + unfold tidy. cbn. repeat split; try assumption.
      intros b. destruct (select_region _ _ _ _ _) as [reg |] eqn:E.
      * intros [= <-]. now apply select_region_in_image in E.
      * apply Hr.
    + destruct (mode_eqb (current_mode p) DrawMode && drawing p);
        [| exact Hp].
      unfold tidy. cbn. repeat split; try assumption; try discriminate.
      destruct (finish_stroke _ _ _ _) as [s |] eqn:E; [| exact Hs].
      apply Forall_app. split; [exact Hs |]. constructor; [| constructor].
      now apply (finish_stroke_ok _ _ _ _ _ E).
  - intros [= <-]. unfold tidy, wheel. cbn. repeat split; try assumption.
    intros b Hb. apply box_in_image_wheel. now apply Hr.
  - intros [= <-]. exact Hp.
  - intros [= <-]. unfold tidy. cbn. repeat split; try assumption; constructor.
  - intros [= <-]. unfold select_color.
    destruct (color_options !! button) as [color |] eqn:E; [| exact Hp].
    unfold tidy. cbn. repeat split; try assumption.
    now apply (in_color_options button).
  - unfold confirm_font_size.
    destruct (negb (PyStr.is_empty size_str) && PyStr.isdigit size_str);
      [| intros [= <-]; exact Hp].
    destruct (decimal_value 0 size_str) as [size |]; [| discriminate].
    destruct (Z.leb_spec 1 size); destruct (Z.leb_spec size 99); cbn [andb];
      intros [= <-]; unfold tidy; cbn; repeat split; try assumption; lia.
Qed.

Lemma open_preview_tidy c : tidy (open_preview c).
Proof.
  unfold tidy. cbn. repeat split; try discriminate; try constructor; try lia.
  reflexivity.
Qed.

Lemma run_tidy evs : forall p p', tidy p -> run p evs = Some p' -> tidy p'.
Proof.
  induction evs as [| e rest IH]; intros p p' Hp; cbn [run].
  - now intros [= <-].
  - destruct (step p e) as [p1 |] eqn:E; [| discriminate].
    apply IH. now apply (step_tidy p e).
Qed.

Lemma run_original_size evs : forall p p',
  run p evs = Some p' ->
  original_width (pv_canvas p') = original_width (pv_canvas p)
  /\ original_height (pv_canvas p') = original_height (pv_canvas p).
Proof.
  induction evs as [| e rest IH]; intros p p'; cbn [run].
  - now intros [= <-].
  - destruct (step p e) as [p1 |] eqn:E; [| discriminate].
    intros H. destruct (IH _ _ H) as [Hw Hh]. rewrite Hw, Hh. clear IH H Hw Hh.
    destruct e as [x y answer | x y | x y | ev | m | | button | size_str]; cbn [step] in E.
    + injection E as <-. unfold on_mouse_down.
      destruct (on_image _ _ _); [destruct (current_mode p) |]; now split.
    + unfold on_mouse_move in E.
      destruct (_ && _) in E; [injection E as <-; now split |].
      destruct (_ && _) in E; [| injection E as <-; now split].
      destruct (on_image _ _ _) in E; [| injection E as <-; now split].
      destruct (_ <=? _)%nat in E; [injection E as <-; now split | discriminate].
    + injection E as <-. unfold on_mouse_up.
      destruct (_ && _); [now split |]. destruct (_ && _); now split.
    + injection E as <-. unfold wheel, on_mousewheel. cbn.
      destruct (inside_image _ _); now split.
    + injection E as <-. now split.
    + injection E as <-. now split.
    + injection E as <-. unfold select_color. destruct (_ !! _); now split.
    + unfold confirm_font_size in E.
      destruct (_ && _) in E; [| injection E as <-; now split].
      destruct (decimal_value _ _) in E; [| discriminate].
      destruct (_ && _) in E; injection E as <-; now split.
Qed.

(** *** Where the recorded points lie *)











(** X1. Whatever the user does in the preview window, a selected
    region is a box with x1 < x2 and y1 < y2 that lies within the
    original image, so the crop in [on_confirm] never reaches outside
    the image and never has an empty side; and a drag of five pixels or
    less in either direction selects nothing. *)
Theorem selected_region_is_croppable (c : canvas) (evs : list event) (p : preview)
    (b : box) :
  run (open_preview c) evs = Some p ->
  selected_region p = Some b ->
  box_in_image c b
  /\ (forall sx sy ex ey,
        Z.abs (ex - sx) <= 5 \/ Z.abs (ey - sy) <= 5 ->
        select_region (pv_canvas p) sx sy ex ey = None).
Proof.
  intros Hrun Hb. split.
  - pose proof (run_tidy evs _ _ (open_preview_tidy c) Hrun) as Ht.
    destruct Ht as (_ & _ & _ & _ & _ & _ & Hr).
    pose proof (Hr b Hb) as Hbox.
    destruct (run_original_size evs _ _ Hrun) as [Hw Hh]. cbn in Hw, Hh.
    unfold box_in_image in *. destruct b as [[[x1 y1] x2] y2]. now rewrite <- Hw, <- Hh.
  - intros sx sy ex ey. apply select_region_min_drag.
Qed.

Lemma selected_region_is_croppable_witness :
  box_in_image sample_canvas (22, 10, 77, 56).
Proof.
  refine (proj1 (selected_region_is_croppable sample_canvas sample_events _ _ _ _)).
  - vm_compute. reflexivity.
  - reflexivity.
Defined.

(** X2. Whatever the user does in the preview window, every recorded
    stroke has at least two points, width 2 and a colour of the palette;
    every text label has a non-empty text, a font size from 1 to 99 and
    a colour of the palette; the current font size stays within 1 to
    99. *)
Theorem recorded_annotations_in_shape (c : canvas) (evs : list event) (p : preview) :
  run (open_preview c) evs = Some p ->
  Forall stroke_ok (annotation_paths p)
  /\ Forall label_ok (text_annotations p)
  /\ 1 <= font_size p <= 99
  /\ In (annotation_color p) color_options.
Proof.
  intros Hrun.
  destruct (run_tidy evs _ _ (open_preview_tidy c) Hrun) as (_ & Hs & Hl & Hc & _ & Hf & _).
  repeat split; try assumption; apply Hf.
Qed.

Lemma recorded_annotations_in_shape_witness :
  exists p, run (open_preview sample_canvas) sample_events = Some p
            /\ Forall stroke_ok (annotation_paths p)
            /\ font_size p = 18.
Proof.
  destruct (run (open_preview sample_canvas) sample_events) as [p |] eqn:E;
    [| vm_compute in E; discriminate E].
  exists p. split; [reflexivity |].
  split; [exact (proj1 (recorded_annotations_in_shape sample_canvas sample_events p E)) |].
  vm_compute in E. injection E as <-. reflexivity.
Defined.






(** *** The canvas at the start, and zooming in and back out *)













End PreviewFacts.

(** * The session store *)

Section HistoryFacts.
Import Py Pil Session Os Tool Store.
Local Open Scope list_scope.

(** *** The order of character strings *)

Lemma ascii_compare_N a b : Ascii.compare a b = N.compare (N_of_ascii a) (N_of_ascii b).
Proof. reflexivity. Qed.

Lemma string_compare_cons a s b t :
  String.compare (String a s) (String b t)
  = match Ascii.compare a b with Eq => String.compare s t | ne => ne end.
Proof. reflexivity. Qed.

(** [a >= b] and [b >= c] give [a >= c]. *)
Lemma string_not_lt_trans a : forall b c,
  String.compare a b <> Lt -> String.compare b c <> Lt -> String.compare a c <> Lt.
Proof.
  induction a as [| x a IH]; intros [| y b] [| z c]; cbn [String.compare];
    try congruence.
  rewrite !ascii_compare_N.
  destruct (N.compare_spec (N_of_ascii x) (N_of_ascii y)) as [Exy | Lxy | Gxy];
    destruct (N.compare_spec (N_of_ascii y) (N_of_ascii z)) as [Eyz | Lyz | Gyz];
    destruct (N.compare_spec (N_of_ascii x) (N_of_ascii z)) as [Exz | Lxz | Gxz];
    try congruence; try lia.
  apply IH.
Qed.

Lemma ltb_false_iff a b : String.ltb a b = false <-> String.compare a b <> Lt.
Proof. unfold String.ltb. destruct (String.compare a b); split; congruence. Qed.

Lemma ltb_true_iff a b : String.ltb a b = true <-> String.compare a b = Lt.
Proof. unfold String.ltb. destruct (String.compare a b); split; congruence. Qed.

Lemma ltb_irrefl a : String.ltb a a = false.
Proof.
  apply ltb_false_iff. intros H.
  pose proof (String.compare_antisym a a) as E. rewrite H in E. discriminate.
Qed.

Lemma ltb_asym a b : String.ltb a b = true -> String.ltb b a = false.
Proof.
  rewrite ltb_true_iff, ltb_false_iff. intros H.
  rewrite String.compare_antisym, H. discriminate.
Qed.

Lemma not_older_trans a b c : not_older a b -> not_older b c -> not_older a c.
Proof. unfold not_older. rewrite !ltb_false_iff. apply string_not_lt_trans. Qed.

(** *** The sort on records whose key is a string *)

Lemma keyed_string_keys l :
  Forall has_string_start_time l ->
  exists kl, keyed (fun x => getitem x "start_time") l = Some kl /\ string_keyed kl.
Proof.
  induction 1 as [| x rest [s Hs] _ (kl & Hk & Hkl)]; cbn [keyed].
  - exists []. split; [reflexivity | constructor].
  - rewrite Hs, Hk. eexists. split; [reflexivity |]. constructor; [| exact Hkl].
    cbn. unfold start_key. now rewrite Hs.
Qed.

Lemma insert_desc_strings kx sorted :
  fst kx = PStr (start_key (snd kx)) ->
  string_keyed sorted ->
  StronglySorted not_older (map snd sorted) ->
  exists r, insert_desc kx sorted = Some r
    /\ string_keyed r
    /\ StronglySorted not_older (map snd r)
    /\ (forall z, In z (map snd r) -> z = snd kx \/ In z (map snd sorted))
    /\ (forall ts, List.filter (same_start ts) (map snd r)
                   = List.filter (same_start ts) (snd kx :: map snd sorted)).
Proof.
  intros Hkx. induction sorted as [| ky rest IH]; intros Hkeys Hsorted; cbn [insert_desc].
  - eexists. split; [reflexivity |]. split; [now constructor |]. cbn [map].
    split; [repeat constructor |]. split; [intros z [<- | []]; now left | reflexivity].
  - apply Forall_cons in Hkeys as [Hky Hrest]. cbn [map] in Hsorted.
    apply StronglySorted_inv in Hsorted as [Hsr Hall].
    rewrite Hkx, Hky. cbn [py_lt].
    destruct (String.ltb (start_key (snd kx)) (start_key (snd ky))) eqn:Hlt.
    + destruct (IH Hrest Hsr) as (r & Hr & Hkr & Hsr' & Hin & Hfilter).
      rewrite Hr. cbn [option_map]. eexists. split; [reflexivity |].
      split; [now constructor |]. cbn [map]. split; [| split].
      * constructor; [exact Hsr' |]. apply List.Forall_forall. intros z Hz.
        destruct (Hin z Hz) as [-> | Hz'].
        -- now apply ltb_asym.
        -- now apply (proj1 (List.Forall_forall _ _) Hall).
      * intros z [<- | Hz]; [right; now left |].
        destruct (Hin z Hz) as [-> | Hz']; [now left | right; now right].
      * intros ts. cbn [List.filter]. rewrite Hfilter. cbn [List.filter].
        destruct (same_start ts (snd ky)) eqn:Ey;
          destruct (same_start ts (snd kx)) eqn:Ex; try reflexivity.
        exfalso. unfold same_start in Ey, Ex.
        apply String.eqb_eq in Ey, Ex. rewrite Ex, <- Ey, ltb_irrefl in Hlt. discriminate.
    + eexists. split; [reflexivity |].
      split; [constructor; [exact Hkx | now constructor] |]. cbn [map].
      split; [| split].
      * constructor; [now constructor |]. constructor; [exact Hlt |].
        apply List.Forall_forall. intros z Hz.
        apply (not_older_trans _ (snd ky)); [exact Hlt |].
        now apply (proj1 (List.Forall_forall _ _) Hall).
      * intros z [<- | Hz]; [now left | now right].
      * reflexivity.
Qed.

Lemma sort_desc_strings kl :
  string_keyed kl ->
  exists r, sort_desc kl = Some r
    /\ string_keyed r
    /\ StronglySorted not_older (map snd r)
    /\ (forall ts, List.filter (same_start ts) (map snd r)
                   = List.filter (same_start ts) (map snd kl)).
Proof.
  induction kl as [| kx rest IH]; intros Hkeys; cbn [sort_desc].
  - exists []. split; [reflexivity |]. split; [constructor |]. split; [constructor | reflexivity].
  - apply Forall_cons in Hkeys as [Hkx Hrest].
    destruct (IH Hrest) as (s & Hs & Hks & Hss & Hfs). rewrite Hs.
    destruct (insert_desc_strings kx s Hkx Hks Hss) as (r & Hr & Hkr & Hsr & _ & Hfr).
    exists r. split; [exact Hr |]. split; [exact Hkr |]. split; [exact Hsr |].
    intros ts. rewrite Hfr. cbn [map List.filter]. now rewrite Hfs.
Qed.

(** The loop reads every record when each can be read. *)
Lemma load_files_all w dir names :
  (forall n, In n names -> PyStr.endswith n ".json" = true ->
     read_json w (join dir n) <> None) ->
  load_files w dir names [] = (records_of w dir names, true).
Proof.
  induction names as [| b names IH]; intros Hb; [reflexivity |].
  unfold records_of in *. cbn [load_files].
  change (omap ?g (b :: names)) with
    (match g b with Some y => y :: omap g names | None => omap g names end).
  cbv beta. destruct (PyStr.endswith b ".json") eqn:Eb.
  - destruct (read_json w (join dir b)) as [v |] eqn:Ev.
    + rewrite load_files_acc, IH by (intros n Hn; apply Hb; now right). reflexivity.
    + exfalso. now apply (Hb b (or_introl eq_refl) Eb).
  - apply IH. intros n Hn. apply Hb. now right.
Qed.

(** X7. When the sessions directory can be listed, every record in it
    can be read and every record has a string under ["start_time"], the
    loader shows no dialog and leaves in the history exactly the
    records of the [*.json] entries, newest first: no session in the
    list starts before a session listed after it, and sessions with the
    same start time keep the order of the directory listing. *)
Theorem history_is_sorted_newest_first (t : tool) (w : world) (names : list string) :
  listdir w (sessions_dir t) = Some names ->
  records_load w (sessions_dir t) ->
  Forall has_string_start_time (records_of w (sessions_dir t) names) ->
  let '(t', w') := load_history_sessions t w in
  w' = w
  /\ Permutation (records_of w (sessions_dir t) names) (history_sessions t')
  /\ StronglySorted not_older (history_sessions t')
  /\ forall ts, List.filter (same_start ts) (history_sessions t')
                = List.filter (same_start ts) (records_of w (sessions_dir t) names).
Proof.
  intros Hl Hall Hkeys. unfold load_history_sessions. rewrite Hl.
  rewrite load_files_all by (intros n Hn He; now apply (Hall names n)).
  destruct (keyed_string_keys _ Hkeys) as (kl & Hk & Hkl).
  destruct (sort_desc_strings kl Hkl) as (r & Hr & _ & Hsorted & Hstable).
  pose proof (keyed_items _ _ _ Hk) as Hitems.
  assert (Hsort : sort_by_key_desc (fun x => getitem x "start_time")
                    (records_of w (sessions_dir t) names) = Some (map snd r)).
  { unfold sort_by_key_desc. now rewrite Hk, Hr. }
  rewrite Hsort. cbn [history_sessions set_history].
  split; [reflexivity |]. split; [now apply sort_by_key_desc_perm in Hsort |].
  split; [exact Hsorted |]. intros ts. now rewrite Hstable, Hitems.
Qed.

Lemma history_is_sorted_newest_first_witness :
  history_sessions (fst (load_history_sessions Sample.tool0 SampleStore.shelf_world))
  = map session_to_py [SampleStore.tuesday; SampleStore.tuesday_again; SampleStore.monday]
  /\ StronglySorted not_older
       (history_sessions (fst (load_history_sessions Sample.tool0 SampleStore.shelf_world))).
Proof.
  split; [reflexivity |].
  assert (Hl : listdir SampleStore.shelf_world (sessions_dir Sample.tool0)
               = Some SampleStore.shelf_names) by reflexivity.
  assert (Hall : records_load SampleStore.shelf_world (sessions_dir Sample.tool0)).
  { intros names name Hn Hin He. rewrite Hl in Hn. injection Hn as <-.
    cbn in Hin. decompose [or] Hin; subst; try discriminate He;
      try (vm_compute; discriminate); contradiction. }
  assert (Hkeys : Forall has_string_start_time
                    (records_of SampleStore.shelf_world (sessions_dir Sample.tool0)
                       SampleStore.shelf_names)).
  { repeat constructor; eexists; reflexivity. }
  pose proof (history_is_sorted_newest_first Sample.tool0 SampleStore.shelf_world
                SampleStore.shelf_names Hl Hall Hkeys) as H.
  destruct (load_history_sessions Sample.tool0 SampleStore.shelf_world) as [t' w'].
  exact (proj1 (proj2 (proj2 H))).
Defined.

(** *** Saving a record and loading the directory *)

Lemma In_put_other f p n q m : In (q, m) f -> q <> p -> In (q, m) (put f p n).
Proof.
  intros Hin Hne. unfold put. destruct (lookup f p).
  - induction f as [| [k v] rest IH]; cbn; [contradiction |].
    destruct Hin as [[= -> ->] | Hin].
    + destruct (String.eqb_spec p q) as [-> | _]; [contradiction | now left].
    + destruct (String.eqb p k); right; [exact Hin | now apply IH].
  - apply in_or_app. now left.
Qed.

Lemma string_app_inv_head a b c : (a ++ b)%string = (a ++ c)%string -> b = c.
Proof. induction a as [| x a IH]; cbn; [auto | intros [= H]; auto]. Qed.

Lemma join_names_inj d n1 n2 :
  is_name n1 = true -> is_name n2 = true -> join d n1 = join d n2 -> n1 = n2.
Proof.
  intros H1 H2. rewrite (join_name d n1 H1), (join_name d n2 H2).
  apply string_app_inv_head.
Qed.

Lemma records_of_In w dir names v :
  In v (records_of w dir names)
  <-> exists n, In n names /\ PyStr.endswith n ".json" = true
                /\ read_json w (join dir n) = Some v.
Proof.
  unfold records_of. rewrite <- list_elem_of_In, list_elem_of_omap. split.
  - intros (n & Hn & Hv). exists n. apply list_elem_of_In in Hn.
    destruct (PyStr.endswith n ".json"); [auto | discriminate].
  - intros (n & Hn & He & Hv). exists n. rewrite He.
    split; [now apply list_elem_of_In | exact Hv].
Qed.

(** When the directory and its records can be read, the history is a
    rearrangement of the records, with or without a dialog. *)
Lemma load_history_sessions_records t w names :
  listdir w (sessions_dir t) = Some names ->
  records_load w (sessions_dir t) ->
  Permutation (records_of w (sessions_dir t) names)
              (history_sessions (fst (load_history_sessions t w))).
Proof.
  intros Hl Hall. unfold load_history_sessions. rewrite Hl.
  rewrite load_files_all by (intros n Hn He; now apply (Hall names n)).
  destruct (sort_by_key_desc _ _) as [sorted |] eqn:Hs; cbn [fst history_sessions set_history].
  - now apply sort_by_key_desc_perm in Hs.
  - reflexivity.
Qed.

(** The listing after a write to the record path of [id]. *)
Lemma listing_after_write w dir id node w2 names names2 :
  write w (session_path dir id) node = Some w2 ->
  is_name id = true ->
  listdir w dir = Some names ->
  listdir w2 dir = Some names2 ->
  forall n, In n names2 <-> n = (id ++ ".json")%string \/ In n names.
Proof.
  intros Hw Hid Hl Hl2 n.
  assert (Hname : is_name (id ++ ".json")%string = true) by (now apply is_name_app).
  assert (Hfs : w_fs w2 = put (w_fs w) (session_path dir id) node).
  { unfold write in Hw. destruct (locked w _); [discriminate |].
    destruct (lookup (w_fs w) _) as [[| |] |]; try discriminate; now injection Hw as <-. }
  rewrite (listdir_names w2 dir names2 n Hl2), (listdir_names w dir names n Hl). split.
  - intros (p & m & Hp & Hc). rewrite Hfs in Hp. apply put_In in Hp as [-> | Hp].
    + left. unfold session_path in Hc. rewrite (child_name_join dir _ Hname) in Hc.
      now injection Hc as <-.
    + right. now exists p, m.
  - intros [-> | (p & m & Hp & Hc)].
    + exists (session_path dir id), node. split; [| now apply child_name_join].
      apply assoc_In. exact (proj1 (write_reads_back _ _ _ _ Hw)).
    + destruct (string_dec p (session_path dir id)) as [-> | Hne].
      * exists (session_path dir id), node. split; [| exact Hc].
        apply assoc_In. exact (proj1 (write_reads_back _ _ _ _ Hw)).
      * exists p, m. split; [| exact Hc]. rewrite Hfs. now apply In_put_other.
Qed.

(** X8. A session saved to a writable record file of a readable
    sessions directory comes back from the next load exactly as it was
    saved. The load returns nothing else that was not stored before,
    and every record stored under another file name is still
    returned. *)
Theorem saved_session_is_loaded_back (t : tool) (w : world) (s : session)
    (names : list string) :
  is_name (s_id s) = true ->
  listdir w (sessions_dir t) = Some names ->
  writable w (session_path (sessions_dir t) (s_id s)) ->
  records_load w (sessions_dir t) ->
  let '(t', w') := load_history_sessions t (save_session (sessions_dir t) s w) in
  In (session_to_py s) (history_sessions t')
  /\ (forall v, In v (history_sessions t') ->
        v = session_to_py s \/ In v (records_of w (sessions_dir t) names))
  /\ (forall n v, In n names -> PyStr.endswith n ".json" = true ->
        n <> (s_id s ++ ".json")%string ->
        read_json w (join (sessions_dir t) n) = Some v ->
        In v (history_sessions t')).
Proof.
  intros Hid Hl Hwr Hall.
  assert (Hdir : lookup (w_fs w) (sessions_dir t) = Some Dir).
  { unfold listdir in Hl. destruct (lookup (w_fs w) (sessions_dir t)) as [[| |] |];
      congruence. }
  destruct (writable_write w _ (TextFile (Some (session_to_py s))) Hwr) as [w2 Hw].
  destruct (save_session_reads_back _ _ _ _ Hw) as [-> Hback].
  destruct (written_record_listed _ _ _ _ _ Hw Hid Hdir) as (names2 & Hl2 & Hin2).
  pose proof (written_record_keeps_loading _ _ _ _ _ Hw Hdir Hall) as Hall2.
  pose proof (listing_after_write _ _ _ _ _ _ _ Hw Hid Hl Hl2) as Hnames.
  pose proof (load_history_sessions_records t w2 names2 Hl2 Hall2) as Hperm.
  destruct (load_history_sessions t w2) as [t' w']. cbn [fst] in Hperm.
  assert (Hname : is_name (s_id s ++ ".json")%string = true) by (now apply is_name_app).
  assert (Hother : forall n, In n names -> n <> (s_id s ++ ".json")%string ->
            read_json w2 (join (sessions_dir t) n) = read_json w (join (sessions_dir t) n)).
  { intros n Hn Hne. unfold read_json. rewrite (write_other _ _ _ _ _ Hw); [reflexivity |].
    intros E. apply Hne. symmetry. apply (join_names_inj (sessions_dir t)); [exact Hname | | exact E].
    apply (listdir_names w _ names n Hl) in Hn as (p & m & _ & Hc).
    now apply child_name_Some in Hc as [Hc _]. }
  split; [| split].
  - rewrite <- Hperm. apply records_of_In. exists (s_id s ++ ".json")%string.
    split; [exact Hin2 |]. split; [apply endswith_app | exact Hback].
  - intros v Hv. rewrite <- Hperm in Hv.
    apply records_of_In in Hv as (n & Hn & He & Hr).
    destruct (string_dec n (s_id s ++ ".json")%string) as [-> | Hne].
    + left. change (join (sessions_dir t) (s_id s ++ ".json")%string)
        with (session_path (sessions_dir t) (s_id s)) in Hr. congruence.
    + right. apply Hnames in Hn as [-> | Hn]; [contradiction |].
      apply records_of_In. exists n. split; [exact Hn |]. split; [exact He |].
      now rewrite <- (Hother n Hn Hne).
  - intros n v Hn He Hne Hr. rewrite <- Hperm. apply records_of_In. exists n.
    split; [apply Hnames; now right |]. split; [exact He |].
    now rewrite (Hother n Hn Hne).
Qed.

Lemma saved_session_is_loaded_back_witness :
  In (session_to_py Sample.two_captures)
     (history_sessions
        (fst (load_history_sessions Sample.tool0
                (save_session Sample.dir Sample.two_captures SampleStore.shelf_world)))).
Proof.
  assert (Hl : listdir SampleStore.shelf_world (sessions_dir Sample.tool0)
               = Some SampleStore.shelf_names) by reflexivity.
  assert (Hall : records_load SampleStore.shelf_world (sessions_dir Sample.tool0)).
  { intros names name Hn Hin He. rewrite Hl in Hn. injection Hn as <-.
    cbn in Hin. decompose [or] Hin; subst; try discriminate He;
      try (vm_compute; discriminate); contradiction. }
  assert (Hwr : writable SampleStore.shelf_world
                  (session_path (sessions_dir Sample.tool0) (s_id Sample.two_captures)))
    by (split; [reflexivity | vm_compute; discriminate]).
  pose proof (saved_session_is_loaded_back Sample.tool0 SampleStore.shelf_world
                Sample.two_captures SampleStore.shelf_names eq_refl Hl Hwr Hall) as H.
  change (sessions_dir Sample.tool0) with Sample.dir in H.
  destruct (load_history_sessions Sample.tool0
              (save_session Sample.dir Sample.two_captures SampleStore.shelf_world))
    as [t' w'].
  exact (proj1 H).
Defined.

End HistoryFacts.


(** * Deleting a session *)

Section DeleteFacts.
Import Py Pil Session Os Tool Store.
Local Open Scope list_scope.

(** *** Entries taken out of the store *)

Lemma lookup_without (f : fs) p q :
  lookup (filter (fun e => negb (String.eqb (fst e) p)) f) q
  = if String.eqb q p then None else lookup f q.
Proof.
  unfold lookup, fs in *. induction f as [| [k m] rest IH].
  - cbn. now destruct (String.eqb q p).
  - rewrite filter_cons. cbn [fst].
    destruct (String.eqb_spec k p) as [-> | Hkp]; cbn [negb].
    + destruct (decide (Is_true false)) as [[] | _]. rewrite IH. cbn [assoc].
      now destruct (String.eqb q p).
    + destruct (decide (Is_true true)) as [_ | H]; [| exfalso; apply H; exact I].
      cbn [assoc]. destruct (String.eqb_spec q k) as [-> | Hqk].
      * destruct (String.eqb_spec k p); [contradiction | reflexivity].
      * exact IH.
Qed.

Lemma In_without (f : fs) p e :
  In e (filter (fun e => negb (String.eqb (fst e) p)) f) <-> In e f /\ fst e <> p.
Proof.
  unfold fs in *. rewrite <- !list_elem_of_In, list_elem_of_filter. split.
  - intros [H Hin]. split; [exact Hin |]. intros E. rewrite E, String.eqb_refl in H. exact H.
  - intros [Hin Hne]. split; [| exact Hin].
    destruct (String.eqb_spec (fst e) p); [contradiction | exact I].
Qed.

Lemma In_lookup (f : fs) p m : In (p, m) f -> lookup f p <> None.
Proof.
  unfold lookup. induction f as [| [k v] rest IH]; cbn; [contradiction |].
  intros [[= -> ->] | Hin].
  - now rewrite String.eqb_refl.
  - destruct (String.eqb p k); [discriminate | now apply IH].
Qed.

Lemma shrinks_refl gone w : shrinks gone w w.
Proof. repeat split; auto. Qed.

Lemma shrinks_trans gone1 gone2 w1 w2 w3 :
  shrinks gone1 w1 w2 -> shrinks gone2 w2 w3 ->
  shrinks (fun q => gone1 q \/ gone2 q) w1 w3.
Proof.
  intros (Hl1 & Hg1 & Hi1 & Hq1) (Hl2 & Hg2 & Hi2 & Hq2).
  split; [congruence |]. split; [congruence |]. split; [auto |].
  intros q. destruct (Hq2 q) as [E2 | [G2 N2]]; [| right; auto].
  destruct (Hq1 q) as [E1 | [G1 N1]]; [left; congruence | right].
  split; [now left | congruence].
Qed.

Lemma shrinks_weaken (gone gone' : string -> Prop) w w' :
  (forall q, gone q -> gone' q) -> shrinks gone w w' -> shrinks gone' w w'.
Proof.
  intros Hsub (Hl & Hg & Hi & Hq). repeat split; auto.
  intros q. destruct (Hq q) as [E | [G N]]; [now left | right; auto].
Qed.

Lemma shrinks_absent gone w w' q :
  shrinks gone w w' -> lookup (w_fs w) q = None -> lookup (w_fs w') q = None.
Proof. intros (_ & _ & _ & Hq) Hn. destruct (Hq q) as [E | [_ N]]; congruence. Qed.

Lemma shrinks_kept gone w w' q :
  shrinks gone w w' -> ~ gone q -> lookup (w_fs w') q = lookup (w_fs w) q.
Proof. intros (_ & _ & _ & Hq) Hn. destruct (Hq q) as [E | [G _]]; [exact E | contradiction]. Qed.

Lemma remove_shrinks w p w' :
  remove w p = Some w' -> shrinks (eq p) w w' /\ lookup (w_fs w') p = None.
Proof.
  intros H.
  assert (E : w_fs w' = filter (fun e => negb (String.eqb (fst e) p)) (w_fs w)
              /\ w_locked w' = w_locked w /\ w_log w' = w_log w).
  { unfold remove in H. destruct (locked w p); [discriminate |].
    destruct (lookup (w_fs w) p) as [[| |] |]; try discriminate;
      injection H as <-; repeat split. }
  destruct E as (Efs & Elk & Elog).
  split; [| rewrite Efs, lookup_without; now rewrite String.eqb_refl].
  split; [exact Elk |]. split; [exact Elog |]. rewrite Efs. split.
  - intros e He. now apply In_without in He.
  - intros q. rewrite lookup_without.
    destruct (String.eqb_spec q p) as [-> | _]; [right; now split | now left].
Qed.

Lemma rmdir_shrinks w p w' :
  rmdir w p = Some w' -> shrinks (eq p) w w' /\ lookup (w_fs w') p = None.
Proof.
  intros H.
  assert (E : w_fs w' = filter (fun e => negb (String.eqb (fst e) p)) (w_fs w)
              /\ w_locked w' = w_locked w /\ w_log w' = w_log w).
  { unfold rmdir in H. destruct (locked w p); [discriminate |].
    destruct (lookup (w_fs w) p) as [[| |] |]; try discriminate.
    destruct (listdir w p) as [[|] |]; try discriminate.
    injection H as <-. repeat split. }
  destruct E as (Efs & Elk & Elog).
  split; [| rewrite Efs, lookup_without; now rewrite String.eqb_refl].
  split; [exact Elk |]. split; [exact Elog |]. rewrite Efs. split.
  - intros e He. now apply In_without in He.
  - intros q. rewrite lookup_without.
    destruct (String.eqb_spec q p) as [-> | _]; [right; now split | now left].
Qed.

Lemma remove_all_shrinks dir names : forall w w' b,
  remove_all w dir names = (w', b) ->
  shrinks (fun q => exists n, In n names /\ q = join dir n) w w'
  /\ (b = true -> forall n, In n names -> lookup (w_fs w') (join dir n) = None).
Proof.
  induction names as [| n rest IH]; intros w w' b; cbn [remove_all].
  - intros [= <- <-]. split; [apply shrinks_refl | intros _ m []].
  - destruct (remove w (join dir n)) as [w1 |] eqn:Hr.
    + intros H. destruct (IH _ _ _ H) as [Hs Hgone].
      destruct (remove_shrinks _ _ _ Hr) as [Hs1 Hn1]. split.
      * eapply shrinks_weaken; [| exact (shrinks_trans _ _ _ _ _ Hs1 Hs)].
        intros q [<- | (m & Hm & ->)]; [exists n; split; [now left | reflexivity] |].
        exists m. split; [now right | reflexivity].
      * intros Hb m [<- | Hm]; [| now apply Hgone].
        exact (shrinks_absent _ _ _ _ Hs Hn1).
    + intros [= <- <-]. split; [apply shrinks_refl | discriminate].
Qed.

(** The loop removes every listed entry when each is an unlocked file
    and no name is listed twice. *)
Lemma remove_all_succeeds dir names : forall w,
  NoDup names ->
  (forall n, In n names -> is_name n = true) ->
  (forall n, In n names ->
     locked w (join dir n) = false
     /\ lookup (w_fs w) (join dir n) <> None
     /\ lookup (w_fs w) (join dir n) <> Some Dir) ->
  exists w', remove_all w dir names = (w', true).
Proof.
  induction names as [| n rest IH]; intros w Hnd Hnames Hfiles; cbn [remove_all]; [eauto |].
  apply NoDup_cons in Hnd as [Hn Hnd].
  destruct (Hfiles n (or_introl eq_refl)) as (Hl & Hex & Hfile).
  assert (Hr : exists w1, remove w (join dir n) = Some w1).
  { unfold remove. rewrite Hl. destruct (lookup (w_fs w) (join dir n)) as [[| |] |];
      [contradiction | eauto | eauto | contradiction]. }
  destruct Hr as [w1 Hr]. rewrite Hr. destruct (remove_shrinks _ _ _ Hr) as [Hs _].
  apply IH; [exact Hnd | intros m Hm; apply Hnames; now right |].
  intros m Hm. destruct (Hfiles m (or_intror Hm)) as (Hlm & Hexm & Hfm).
  assert (Hne : ~ join dir n = join dir m).
  { intros E. apply Hn. apply list_elem_of_In.
    rewrite (join_names_inj dir n m); [exact Hm | apply Hnames; now left
                                      | apply Hnames; now right | exact E]. }
  rewrite (shrinks_kept _ _ _ _ Hs Hne).
  destruct Hs as (Hlk & _). unfold locked in *. rewrite Hlk. auto.
Qed.

(** *** Paths *)

Lemma string_app_same a b : (a ++ b)%string = a -> b = "".
Proof. induction a as [| c a IH]; cbn; [auto | intros [= H]; auto]. Qed.

Lemma startswith_char_app c a b :
  a <> "" -> PyStr.startswith_char c (a ++ b)%string = PyStr.startswith_char c a.
Proof. destruct a; [contradiction | reflexivity]. Qed.

(** The record file and the image directory of a session are different
    paths. *)
Lemma record_is_not_images dir id : session_path dir id <> join dir id.
Proof.
  unfold session_path, join. destruct id as [| c r].
  - cbn. intros E. apply string_app_inv_head in E. discriminate.
  - rewrite startswith_char_app by discriminate.
    destruct (PyStr.startswith_char "/" (String c r)).
    + intros E. apply string_app_same in E. discriminate.
    + intros E. apply string_app_inv_head, string_app_same in E. discriminate.
Qed.

Lemma strip_prefix_self d : strip_prefix d d = Some "".
Proof. induction d as [| c d IH]; cbn; [reflexivity | now rewrite Ascii.eqb_refl]. Qed.

Lemma strip_prefix_longer d c x : strip_prefix (d ++ String c x) d = None.
Proof.
  induction d as [| e d IH]; cbn; [reflexivity |]. now rewrite Ascii.eqb_refl.
Qed.

(** A directory is no entry of itself. *)
Lemma child_name_self d : child_name d d = None.
Proof.
  unfold child_name, dir_prefix.
  destruct (PyStr.is_empty d || PyStr.endswith d "/").
  - now rewrite strip_prefix_self.
  - now rewrite strip_prefix_longer.
Qed.

Lemma omap_all_None {A B} (g : A -> option B) (l : list A) :
  (forall x, In x l -> g x = None) -> omap g l = [].
Proof.
  induction l as [| x l IH]; intros H; [reflexivity |].
  change (omap g (x :: l)) with
    (match g x with Some y => y :: omap g l | None => omap g l end).
  rewrite (H x (or_introl eq_refl)). apply IH. intros y Hy. apply H. now right.
Qed.

(** Where a path names one entry, a listing names an entry once. *)
Lemma listing_NoDup (f : fs) d :
  NoDup (map fst f) -> NoDup (omap (fun e => child_name d (fst e)) f).
Proof.
  induction f as [| [k m] rest IH]; intros Hnd; [constructor |].
  cbn [map fst] in Hnd. apply NoDup_cons in Hnd as [Hk Hnd].
  change (omap ?g ((k, m) :: rest)) with
    (match g (k, m) with Some y => y :: omap g rest | None => omap g rest end).
  cbv beta. cbn [fst]. destruct (child_name d k) as [n |] eqn:Hc; [| now apply IH].
  apply NoDup_cons. split; [| now apply IH].
  intros Hin. apply list_elem_of_omap in Hin as ([k' m'] & Hin & Hc').
  cbn [fst] in Hc'. apply child_name_Some in Hc as [_ ->].
  apply child_name_Some in Hc' as [_ ->].
  apply Hk. apply list_elem_of_In, in_map_iff. exists (join d n, m').
  split; [reflexivity | now apply list_elem_of_In].
Qed.

Lemma without_NoDup (f : fs) p :
  NoDup (map fst f) ->
  NoDup (map fst (filter (fun e => negb (String.eqb (fst e) p)) f)).
Proof.
  unfold fs in *. induction f as [| [k m] rest IH]; intros Hnd; [constructor |].
  cbn [map fst] in Hnd. apply NoDup_cons in Hnd as [Hk Hnd].
  rewrite filter_cons. destruct (decide _); [| now apply IH].
  cbn [map fst]. apply NoDup_cons. split; [| now apply IH].
  intros Hin. apply Hk. apply list_elem_of_In, in_map_iff in Hin as (e & He & Hin).
  apply (In_without rest p e) in Hin as [Hin _].
  apply list_elem_of_In, in_map_iff. now exists e.
Qed.


(** *** The image directory *)

Lemma remove_images_shrinks w d w' b :
  remove_images w d = (w', b) ->
  shrinks (under d) w w'
  /\ (b = true ->
      lookup (w_fs w') d = None
      /\ forall names n, listdir w d = Some names -> In n names ->
           lookup (w_fs w') (join d n) = None).
Proof.
  unfold remove_images. destruct (listdir w d) as [names |] eqn:Hl.
  2:{ intros [= <- <-]. split; [apply shrinks_refl | discriminate]. }
  destruct (remove_all w d names) as [w2 ok] eqn:Hall.
  destruct (remove_all_shrinks _ _ _ _ _ Hall) as [Hs Hgone].
  assert (Hs' : shrinks (under d) w w2).
  { eapply shrinks_weaken; [| exact Hs]. intros q (n & Hn & ->). right.
    apply (listdir_names w d names n Hl) in Hn as (p & m & _ & Hc).
    apply child_name_Some in Hc as [Hname _]. rewrite (child_name_join d n Hname).
    discriminate. }
  destruct ok.
  - destruct (rmdir w2 d) as [w3 |] eqn:Hrm.
    + intros [= <- <-]. destruct (rmdir_shrinks _ _ _ Hrm) as [Hs3 Hnone]. split.
      * eapply shrinks_weaken; [| exact (shrinks_trans _ _ _ _ _ Hs' Hs3)].
        intros q [H | <-]; [exact H | now left].
      * intros _. split; [exact Hnone |]. intros names' n Hl' Hn.
        assert (names' = names) as -> by congruence.
        apply (shrinks_absent _ _ _ _ Hs3). now apply Hgone.
    + intros [= <- <-]. split; [exact Hs' | discriminate].
  - intros [= <- <-]. split; [exact Hs' | discriminate].
Qed.

Lemma remove_images_succeeds w d names :
  NoDup (map fst (w_fs w)) ->
  listdir w d = Some names ->
  locked w d = false ->
  (forall n, In n names ->
     locked w (join d n) = false /\ lookup (w_fs w) (join d n) <> Some Dir) ->
  exists w', remove_images w d = (w', true).
Proof.
  intros Hnd Hl Hlk Hfiles. unfold remove_images. rewrite Hl.
  assert (Hdir : lookup (w_fs w) d = Some Dir).
  { unfold listdir in Hl. destruct (lookup (w_fs w) d) as [[| |] |]; congruence. }
  assert (Hnames : forall n, In n names -> is_name n = true).
  { intros n Hn. apply (listdir_names w d names n Hl) in Hn as (p & m & _ & Hc).
    now apply child_name_Some in Hc as [Hc _]. }
  destruct (remove_all_succeeds d names w) as [w2 Hall].
  - unfold listdir in Hl. rewrite Hdir in Hl. injection Hl as <-.
    now apply listing_NoDup.
  - exact Hnames.
  - intros n Hn. destruct (Hfiles n Hn) as [Hln Hfile]. split; [exact Hln |].
    split; [| exact Hfile].
    apply (listdir_names w d names n Hl) in Hn as (p & m & Hp & Hc).
    apply child_name_Some in Hc as [_ ->]. now apply In_lookup in Hp.
  - rewrite Hall. destruct (remove_all_shrinks _ _ _ _ _ Hall) as [Hs Hgone].
    assert (Hkeep : lookup (w_fs w2) d = Some Dir).
    { rewrite <- Hdir. apply (shrinks_kept _ _ _ _ Hs). intros (n & Hn & E).
      pose proof (child_name_join d n (Hnames n Hn)) as Hc. rewrite <- E in Hc.
      rewrite child_name_self in Hc. discriminate. }
    assert (Hrm : exists w3, rmdir w2 d = Some w3).
    { unfold rmdir. destruct Hs as (Hlk2 & _ & Hsub & _).
      unfold locked in *. rewrite Hlk2, Hlk, Hkeep. unfold listdir. rewrite Hkeep.
      rewrite omap_all_None; [eauto |].
      intros [p m] Hp. cbn [fst]. destruct (child_name d p) as [n |] eqn:Hc; [| reflexivity].
      exfalso. apply (In_lookup _ _ _ Hp).
      assert (Hn : In n names).
      { apply (listdir_names w d names n Hl). exists p, m. split; [now apply Hsub | exact Hc]. }
      apply child_name_Some in Hc as [_ ->]. now apply Hgone. }
    destruct Hrm as [w3 ->]. eauto.
Qed.


Lemma remove_NoDup w p w' :
  remove w p = Some w' -> NoDup (map fst (w_fs w)) -> NoDup (map fst (w_fs w')).
Proof.
  unfold remove. destruct (locked w p); [discriminate |].
  destruct (lookup (w_fs w) p) as [[| |] |]; try discriminate;
    intros [= <-] Hnd; now apply without_NoDup.
Qed.

Lemma exists_lookup w q : exists_ w q = false <-> lookup (w_fs w) q = None.
Proof. unfold exists_. destruct (lookup (w_fs w) q); split; congruence. Qed.

(** The removal of the record file, when there is one. *)
Lemma record_removal w record w1 :
  (if exists_ w record then remove w record else Some w) = Some w1 ->
  shrinks (eq record) w w1 /\ lookup (w_fs w1) record = None.
Proof.
  destruct (exists_ w record) eqn:Hex.
  - apply remove_shrinks.
  - intros [= <-]. split; [apply shrinks_refl | now apply exists_lookup].
Qed.

Lemma image_removal w1 images w2 b :
  (if exists_ w1 images then remove_images w1 images else (w1, true)) = (w2, b) ->
  shrinks (under images) w1 w2
  /\ (b = true ->
      lookup (w_fs w2) images = None
      /\ forall names n, listdir w1 images = Some names -> In n names ->
           lookup (w_fs w2) (join images n) = None).
Proof.
  destruct (exists_ w1 images) eqn:Hex.
  - apply remove_images_shrinks.
  - intros [= <- <-]. split; [apply shrinks_refl |]. intros _.
    apply exists_lookup in Hex. split; [exact Hex |].
    intros names n Hl. unfold listdir in Hl. rewrite Hex in Hl. discriminate.
Qed.

Lemma find_session_In history id v :
  find_session history id = Some (Some v) -> In v history /\ getitem v "id" <> None.
Proof.
  induction history as [| x rest IH]; cbn [find_session]; [discriminate |].
  destruct (getitem x "id") as [i |] eqn:Hi; [| discriminate].
  destruct (py_eqb i (PStr id)).
  - intros [= <-]. split; [now left | congruence].
  - intros H. destruct (IH H). split; [now right | assumption].
Qed.

(** X9. Deleting a session that is in the history, in a store where a
    path names one entry, nothing that has to go is locked, the record
    path is no directory and the image directory, if there is one,
    holds only files: the record file, every entry of the image
    directory and the directory itself are gone afterwards, nothing
    else in the store has changed, the session is taken out of the
    history and the success notice is the only dialog. *)
Theorem delete_session_removes_record_and_images (t : tool) (w : world) (id : string)
    (v : pyval) :
  find_session (history_sessions t) id = Some (Some v) ->
  NoDup (map fst (w_fs w)) ->
  (forall q, q = session_path (sessions_dir t) id \/ under (join (sessions_dir t) id) q ->
     locked w q = false) ->
  lookup (w_fs w) (session_path (sessions_dir t) id) <> Some Dir ->
  (forall m, lookup (w_fs w) (join (sessions_dir t) id) = Some m -> m = Dir) ->
  (forall q, child_name (join (sessions_dir t) id) q <> None ->
     lookup (w_fs w) q <> Some Dir) ->
  update_history_list (set_history t (remove_first v (history_sessions t))) = Returned ->
  exists w',
    delete_session_by_id id t w
    = (set_history t (remove_first v (history_sessions t)), w',
       [InfoHistoryDeleted], Returned)
    /\ exists_ w' (session_path (sessions_dir t) id) = false
    /\ exists_ w' (join (sessions_dir t) id) = false
    /\ (forall names n, listdir w (join (sessions_dir t) id) = Some names ->
          In n names -> exists_ w' (join (join (sessions_dir t) id) n) = false)
    /\ shrinks (fun q => q = session_path (sessions_dir t) id
                         \/ under (join (sessions_dir t) id) q) w w'.
Proof.
  intros Hfind Hnd Hlk Hrec Himg Hfiles Hup.
  set (record := session_path (sessions_dir t) id) in *.
  set (images := join (sessions_dir t) id) in *.
  assert (Hne : record <> images) by apply record_is_not_images.
  unfold delete_session_by_id. rewrite Hfind.
  change (join (sessions_dir t) (id ++ ".json")%string) with record.
  fold images.
  (* the record file *)
  assert (H1 : exists w1, (if exists_ w record then remove w record else Some w) = Some w1).
  { destruct (exists_ w record) eqn:Hex; [| eauto].
    unfold remove. rewrite (Hlk record (or_introl eq_refl)).
    unfold exists_ in Hex. destruct (lookup (w_fs w) record) as [[| |] |];
      [contradiction | eauto | eauto | discriminate]. }
  destruct H1 as [w1 H1]. rewrite H1.
  destruct (record_removal _ _ _ H1) as [Hs1 Hgone1].
  assert (Hnd1 : NoDup (map fst (w_fs w1))).
  { destruct (exists_ w record); [now apply (remove_NoDup _ _ _ H1) | congruence]. }
  assert (Hlk1 : forall q, locked w1 q = locked w q).
  { intros q. unfold locked. now rewrite (proj1 Hs1). }
  assert (Himg1 : lookup (w_fs w1) images = lookup (w_fs w) images).
  { apply (shrinks_kept _ _ _ _ Hs1). exact Hne. }
  (* the image directory *)
  assert (H2 : exists w2, (if exists_ w1 images then remove_images w1 images
                           else (w1, true)) = (w2, true)).
  { destruct (exists_ w1 images) eqn:Hex; [| eauto].
    assert (Hdir : lookup (w_fs w1) images = Some Dir).
    { unfold exists_ in Hex. rewrite Himg1 in *.
      destruct (lookup (w_fs w) images) as [m |] eqn:E; [| discriminate].
      now rewrite (Himg m eq_refl). }
    assert (Hl : exists names1, listdir w1 images = Some names1)
      by (unfold listdir; rewrite Hdir; eauto).
    destruct Hl as [names1 Hl].
    apply (remove_images_succeeds w1 images names1 Hnd1 Hl).
    - rewrite Hlk1. apply Hlk. right. now left.
    - intros n Hn.
      assert (Hc : child_name images (join images n) <> None).
      { apply (listdir_names w1 images names1 n Hl) in Hn as (p & m & _ & Hc).
        apply child_name_Some in Hc as [Hname _].
        rewrite (child_name_join images n Hname). discriminate. }
      split; [rewrite Hlk1; apply Hlk; right; now right |].
      destruct Hs1 as (_ & _ & _ & Hq). destruct (Hq (join images n)) as [E | [_ E]];
        rewrite E; [now apply Hfiles | discriminate]. }
  destruct H2 as [w2 H2]. rewrite H2.
  destruct (image_removal _ _ _ _ H2) as [Hs2 Hgone2].
  destruct (Hgone2 eq_refl) as [Hnoimg Hnokids].
  rewrite Hup. exists w2. split; [reflexivity |].
  split; [apply exists_lookup; exact (shrinks_absent _ _ _ _ Hs2 Hgone1) |].
  split; [now apply exists_lookup |].
  split.
  2:{ eapply shrinks_weaken; [| exact (shrinks_trans _ _ _ _ _ Hs1 Hs2)].
      intros q [<- | H]; [now left | now right]. }
  intros names n Hl Hn. apply exists_lookup.
  destruct (string_dec (join images n) record) as [E | Hnr].
  - rewrite E. exact (shrinks_absent _ _ _ _ Hs2 Hgone1).
  - assert (Hdir1 : lookup (w_fs w1) images = Some Dir).
    { rewrite Himg1. unfold listdir in Hl.
      destruct (lookup (w_fs w) images) as [[| |] |]; congruence. }
    apply (Hnokids (omap (fun e => child_name images (fst e)) (w_fs w1)) n).
    + unfold listdir. now rewrite Hdir1.
    + apply (listdir_names w images names n Hl) in Hn as (p & m & Hp & Hc).
      apply list_elem_of_In, list_elem_of_omap. exists (p, m).
      split; [| exact Hc]. apply list_elem_of_In.
      apply child_name_Some in Hc as [_ ->].
      destruct Hs1 as (_ & _ & _ & Hq).
      assert (Hin1 : lookup (w_fs w1) (join images n) = lookup (w_fs w) (join images n)).
      { destruct (Hq (join images n)) as [E | [E _]]; [exact E | congruence]. }
      destruct (exists_ w record) eqn:Hex.
      * unfold remove in H1. destruct (locked w record); [discriminate |].
        destruct (lookup (w_fs w) record) as [[| |] |]; try discriminate;
          injection H1 as <-; apply In_without; split; auto.
      * now injection H1 as <-.
Qed.


Lemma delete_session_removes_record_and_images_witness :
  exists w',
    delete_session_by_id "a1" SampleStore.shelf_tool SampleStore.shelf_world
    = (set_history SampleStore.shelf_tool
         (map session_to_py [SampleStore.tuesday; SampleStore.tuesday_again]),
       w', [InfoHistoryDeleted], Returned)
    /\ exists_ w' (session_path Sample.dir "a1") = false
    /\ exists_ w' (join Sample.dir "a1") = false.
Proof.
  destruct (delete_session_removes_record_and_images SampleStore.shelf_tool
              SampleStore.shelf_world "a1" (session_to_py SampleStore.monday))
    as (w' & Hrun & Hrec & Himg & _).
  - reflexivity.
  - apply NoDup_ListNoDup.
    change (List.NoDup (nodup string_dec (map fst (w_fs SampleStore.shelf_world)))).
    apply NoDup_nodup.
  - reflexivity.
  - vm_compute. discriminate.
  - intros m H. vm_compute in H. now injection H as <-.
  - intros q Hc Hl. apply Hc. clear Hc.
    change (w_fs SampleStore.shelf_world) with SampleStore.shelf in Hl.
    unfold SampleStore.shelf, lookup in Hl. cbn [assoc] in Hl.
    repeat match type of Hl with
           | context [String.eqb q ?p] =>
               destruct (String.eqb_spec q p) as [E | _];
                 [subst q; vm_compute in Hl; try discriminate Hl; vm_compute; reflexivity |]
           end.
    discriminate Hl.
  - reflexivity.
  - exists w'. split; [exact Hrun |]. split; [exact Hrec | exact Himg].
Defined.

(** X10. Whatever the store and the history are, [delete_session_by_id]
    creates nothing and takes away nothing but the record file, the
    image directory and entries of that directory. The session leaves
    the history only after the record file and the image directory are
    both gone, and the success notice is shown only then. When removing
    the record file fails, nothing has changed at all; when removing
    the images fails, the tool is as before, so the session is still
    listed, but its record file is already gone. *)
Theorem delete_session_drops_entry_last (t : tool) (w : world) (id : string) :
  let '(t', w', ns, c) := delete_session_by_id id t w in
  shrinks (fun q => q = session_path (sessions_dir t) id
                    \/ under (join (sessions_dir t) id) q) w w'
  /\ (t' = t
      \/ exists_ w' (session_path (sessions_dir t) id) = false
         /\ exists_ w' (join (sessions_dir t) id) = false
         /\ exists v, find_session (history_sessions t) id = Some (Some v)
                      /\ t' = set_history t (remove_first v (history_sessions t)))
  /\ (In InfoHistoryDeleted ns ->
      c = Returned
      /\ exists_ w' (session_path (sessions_dir t) id) = false
      /\ exists_ w' (join (sessions_dir t) id) = false)
  /\ (ns = [ErrDeleteRecord] -> t' = t /\ w' = w)
  /\ (ns = [ErrDeleteImages] ->
      t' = t /\ exists_ w' (session_path (sessions_dir t) id) = false)
  /\ (c = Raised -> ns = []).
Proof.
  unfold delete_session_by_id.
  set (record := session_path (sessions_dir t) id).
  set (images := join (sessions_dir t) id).
  change (join (sessions_dir t) (id ++ ".json")%string) with record.
  assert (Hrefl : shrinks (fun q => q = record \/ under images q) w w)
    by apply shrinks_refl.
  destruct (find_session (history_sessions t) id) as [[v |] |] eqn:Hfind.
  2, 3: (split; [exact Hrefl |]; split; [now left |]; split; [intros [] |];
         split; [discriminate |]; split; [discriminate | reflexivity]).
  destruct (if exists_ w record then remove w record else Some w) as [w1 |] eqn:H1.
  2:{ split; [exact Hrefl |]. split; [now left |]. split; [intros [[=] | []] |].
      split; [now split |]. split; [discriminate | discriminate]. }
  destruct (record_removal _ _ _ H1) as [Hs1 Hgone1].
  destruct (if exists_ w1 images then remove_images w1 images else (w1, true))
    as [w2 ok] eqn:H2.
  destruct (image_removal _ _ _ _ H2) as [Hs2 Hgone2].
  assert (Hs : shrinks (fun q => q = record \/ under images q) w w2).
  { eapply shrinks_weaken; [| exact (shrinks_trans _ _ _ _ _ Hs1 Hs2)].
    intros q [<- | H]; [now left | now right]. }
  assert (Hrec : exists_ w2 record = false).
  { apply exists_lookup. exact (shrinks_absent _ _ _ _ Hs2 Hgone1). }
  destruct ok.
  - destruct (Hgone2 eq_refl) as [Hnoimg _].
    assert (Hdone : exists_ w2 record = false /\ exists_ w2 images = false
              /\ exists v0, Some (Some v) = Some (Some v0)
                   /\ set_history t (remove_first v (history_sessions t))
                      = set_history t (remove_first v0 (history_sessions t))).
    { split; [exact Hrec |]. split; [now apply exists_lookup |]. now exists v. }
    destruct (update_history_list _).
    + split; [exact Hs |]. split; [now right |]. split.
      * intros _. split; [reflexivity |]. split; [exact Hrec | now apply exists_lookup].
      * split; [discriminate |]. split; [discriminate | discriminate].
    + split; [exact Hs |]. split; [now right |]. split; [intros [] |].
      split; [discriminate |]. split; [discriminate | reflexivity].
  - split; [exact Hs |]. split; [now left |]. split; [intros [[=] | []] |].
    split; [discriminate |]. split; [now split | discriminate].
Qed.

Lemma delete_session_drops_entry_last_witness :
  let '(t', w', ns, c) :=
    delete_session_by_id "a1" SampleStore.shelf_tool SampleStore.shelf_locked in
  ns = [ErrDeleteImages]
  /\ t' = SampleStore.shelf_tool
  /\ exists_ w' (session_path Sample.dir "a1") = false
  /\ exists_ w' (join Sample.dir "a1") = true.
Proof.
  pose proof (delete_session_drops_entry_last SampleStore.shelf_tool
                SampleStore.shelf_locked "a1") as H.
  destruct (delete_session_by_id "a1" SampleStore.shelf_tool SampleStore.shelf_locked)
    as [[[t' w'] ns] c] eqn:E.
  assert (Hns : ns = [ErrDeleteImages]).
  { change ns with (snd (fst (t', w', ns, c))). rewrite <- E. reflexivity. }
  assert (Himg : exists_ w' (join Sample.dir "a1") = true).
  { change w' with (snd (fst (fst (t', w', ns, c)))). rewrite <- E. reflexivity. }
  destruct H as (_ & _ & _ & _ & Herr & _). destruct (Herr Hns) as [Ht Hrec].
  split; [exact Hns |]. split; [exact Ht |]. split; [exact Hrec | exact Himg].
Defined.

End DeleteFacts.


(** * The hotkey and its configuration file *)

Section HotkeyConfigFacts.
Import PyStr Py Os Store.
Local Open Scope list_scope.

Ltac every_char c :=
  destruct c as [[|] [|] [|] [|] [|] [|] [|] [|]].

Lemma lower_char_idem c : lower_char (lower_char c) = lower_char c.
Proof. every_char c; reflexivity. Qed.

Lemma lower_idem s : lower (lower s) = lower s.
Proof. induction s as [| c s IH]; cbn; [reflexivity |]. now rewrite lower_char_idem, IH. Qed.

Lemma isspace_lower_char c : isspace_char (lower_char c) = isspace_char c.
Proof. every_char c; reflexivity. Qed.

Lemma lstrip_lower s : lstrip (lower s) = lower (lstrip s).
Proof.
  induction s as [| c s IH]; cbn; [reflexivity |]. rewrite isspace_lower_char.
  destruct (isspace_char c); [exact IH | reflexivity].
Qed.

Lemma rstrip_lower s : rstrip (lower s) = lower (rstrip s).
Proof.
  induction s as [| c s IH]; cbn; [reflexivity |].
  rewrite isspace_lower_char, IH, lower_is_empty.
  now destruct (isspace_char c && is_empty (rstrip s)).
Qed.

Lemma strip_lower s : strip (lower s) = lower (strip s).
Proof. unfold strip. now rewrite lstrip_lower, rstrip_lower. Qed.

Lemma rstrip_idem s : rstrip (rstrip s) = rstrip s.
Proof.
  induction s as [| c s IH]; cbn; [reflexivity |].
  destruct (isspace_char c && is_empty (rstrip s)) eqn:E; [reflexivity |].
  cbn. now rewrite IH, E.
Qed.

(** What [lstrip] returns starts with no white space. *)
Lemma lstrip_head s :
  match lstrip s with String c _ => isspace_char c = false | EmptyString => True end.
Proof.
  induction s as [| c s IH]; cbn; [exact I |].
  destruct (isspace_char c) eqn:E; [exact IH | exact E].
Qed.

Lemma lstrip_rstrip_lstrip s : lstrip (rstrip (lstrip s)) = rstrip (lstrip s).
Proof.
  pose proof (lstrip_head s) as H. destruct (lstrip s) as [| c r]; [reflexivity |].
  cbn. rewrite H. cbn. now rewrite H.
Qed.

Lemma strip_idem s : strip (strip s) = strip s.
Proof. unfold strip. now rewrite lstrip_rstrip_lstrip, rstrip_idem. Qed.

(** An accepted hotkey is its own normal form: entered again, it is
    accepted unchanged. *)
Lemma accepted_hotkey_is_normal entry h :
  Hotkey.confirm_hotkey entry = Hotkey.Accepted h ->
  Hotkey.confirm_hotkey h = Hotkey.Accepted h.
Proof.
  intros H. apply confirm_hotkey_accepted_iff in H as (Hh & Hne & Hparts).
  apply confirm_hotkey_accepted_iff.
  assert (E : lower (strip h) = h).
  { rewrite Hh at 1. now rewrite strip_lower, lower_idem, strip_idem. }
  rewrite E. auto.
Qed.

(** X11. An entry the validator accepts is stored in its normal form
    (trimmed, lower case): with a configuration file that can be
    written, the confirm button sets the hotkey, shows no warning, and
    the next start of the tool reads the same hotkey back, whatever
    was there before; entered again, the stored hotkey is accepted
    unchanged. *)
Theorem accepted_hotkey_is_kept (config_file entry h : string) (hotkey : pyval)
    (w : world) :
  Hotkey.confirm_hotkey entry = Hotkey.Accepted h ->
  writable w config_file ->
  let '(hotkey', w', ns) := confirm_hotkey config_file entry hotkey w in
  hotkey' = PStr h /\ ns = [InfoHotkeySet]
  /\ (forall before, load_hotkey_config config_file before w' = (PStr h, []))
  /\ Hotkey.confirm_hotkey h = Hotkey.Accepted h
  /\ forall q, q <> config_file -> lookup (w_fs w') q = lookup (w_fs w) q.
Proof.
  intros Hacc Hwr. unfold confirm_hotkey, save_hotkey_config. rewrite Hacc.
  destruct (writable_write w config_file
              (TextFile (Some (PDict [("hotkey", PStr h)]))) Hwr) as [w' Hw].
  rewrite Hw. destruct (write_reads_back _ _ _ _ Hw) as [Hback _].
  split; [reflexivity |]. split; [reflexivity |]. split; [| split].
  - intros before. unfold load_hotkey_config, exists_, read_json. now rewrite Hback.
  - exact (accepted_hotkey_is_normal entry h Hacc).
  - intros q Hq. apply (write_other _ _ _ _ _ Hw). congruence.
Qed.

Lemma accepted_hotkey_is_kept_witness :
  let '(hotkey', w', ns) :=
    confirm_hotkey "/home/u/.screen_capture_config.json" "  Ctrl+Shift+F5 "
      (PStr default_hotkey) Sample.empty_store in
  hotkey' = PStr "ctrl+shift+f5"
  /\ load_hotkey_config "/home/u/.screen_capture_config.json" (PStr default_hotkey) w'
     = (PStr "ctrl+shift+f5", []).
Proof.
  pose proof (accepted_hotkey_is_kept "/home/u/.screen_capture_config.json"
                "  Ctrl+Shift+F5 " "ctrl+shift+f5" (PStr default_hotkey)
                Sample.empty_store eq_refl) as H.
  destruct (confirm_hotkey _ _ _ _) as [[hotkey' w'] ns].
  destruct H as (Hh & _ & Hload & _).
  - split; [reflexivity | discriminate].
  - split; [exact Hh | apply Hload].
Defined.

End HotkeyConfigFacts.


(** * Durations as the tables and reports show them *)

Section DurationFacts.
Import PyStr Session Store.

Lemma string_of_uint_digits d :
  all_chars Hotkey.ascii_digit (NilEmpty.string_of_uint d) = true.
Proof. induction d; cbn [NilEmpty.string_of_uint all_chars]; try rewrite IHd; reflexivity. Qed.

(** The numeral of a number that is not negative has digits only. *)
Lemma decimal_digits n : 0 <= n -> all_chars Hotkey.ascii_digit (decimal n) = true.
Proof.
  intros Hn. unfold decimal. destruct n as [| p | p]; [reflexivity | | lia].
  cbn [Z.to_int NilZero.string_of_int]. unfold NilZero.string_of_uint.
  destruct (Pos.to_uint p); try reflexivity; apply string_of_uint_digits.
Qed.

Lemma decimal_inj a b : decimal a = decimal b -> a = b.
Proof.
  unfold decimal. intros E. apply DecimalZ.to_int_inj.
  assert (Hn : forall n, Z.to_int n <> Decimal.Pos Decimal.Nil
                         /\ Z.to_int n <> Decimal.Neg Decimal.Nil).
  { intros [| p | p]; cbn; split; try discriminate; intros [= H];
      now apply (Unsigned.to_uint_nonnil p). }
  assert (Hs : Some (Z.to_int a) = Some (Z.to_int b)).
  { rewrite <- (NilZero.isi (Z.to_int a)), <- (NilZero.isi (Z.to_int b)), E;
      try apply Hn. reflexivity. }
  now injection Hs.
Qed.

(** Two texts that start with digits up to a first other character
    are equal only part by part. *)
Lemma digits_then_mark u : forall v c1 r1 c2 r2,
  all_chars Hotkey.ascii_digit u = true ->
  all_chars Hotkey.ascii_digit v = true ->
  Hotkey.ascii_digit c1 = false -> Hotkey.ascii_digit c2 = false ->
  (u ++ String c1 r1)%string = (v ++ String c2 r2)%string ->
  u = v /\ c1 = c2 /\ r1 = r2.
Proof.
  induction u as [| x u IH]; intros [| y v] c1 r1 c2 r2 Hu Hv H1 H2; cbn.
  - intros [= -> ->]. auto.
  - intros [= -> _]. cbn in Hv. apply andb_prop in Hv as [Hy _]. congruence.
  - intros [= -> _]. cbn in Hu. apply andb_prop in Hu as [Hx _]. congruence.
  - intros [= -> E]. cbn in Hu, Hv. apply andb_prop in Hu as [_ Hu].
    apply andb_prop in Hv as [_ Hv].
    destruct (IH v c1 r1 c2 r2 Hu Hv H1 H2 E) as (-> & -> & ->). auto.
Qed.

(** The three forms of the display of a duration that is not
    negative. *)
Lemma format_duration_form n :
  0 <= n ->
  format_duration n
  = if 3600 <=? n
    then (decimal (n / 3600) ++ String "h" (decimal (n / 60 mod 60) ++ "m"))%string
    else if 60 <=? n
         then (decimal (n / 60) ++ String "m" (decimal (n mod 60) ++ "s"))%string
         else (decimal n ++ "s")%string.
Proof.
  intros Hn. unfold format_duration, duration_parts.
  assert (Hh : n / 60 / 60 = n / 3600) by (rewrite Zdiv_Zdiv by lia; reflexivity).
  rewrite Hh.
  pose proof (Z.div_mod n 60 ltac:(lia)). pose proof (Z.mod_pos_bound n 60 ltac:(lia)).
  pose proof (Z.div_mod n 3600 ltac:(lia)). pose proof (Z.mod_pos_bound n 3600 ltac:(lia)).
  pose proof (Z.div_mod (n / 60) 60 ltac:(lia)).
  pose proof (Z.mod_pos_bound (n / 60) 60 ltac:(lia)).
  destruct (Z.leb_spec 3600 n) as [Hge | Hlt].
  - assert (0 < n / 3600) by (apply Z.div_str_pos; lia).
    destruct (Z.gtb_spec (n / 3600) 0); [reflexivity | lia].
  - assert (E0 : n / 3600 = 0) by (apply Z.div_small; lia).
    rewrite E0. cbn [Z.gtb Z.compare].
    assert (Em : (n / 60) mod 60 = n / 60).
    { apply Z.mod_small. split; [apply Z.div_pos; lia |].
      apply Z.div_lt_upper_bound; lia. }
    rewrite Em. destruct (Z.leb_spec 60 n) as [Hge | Hlt60].
    + assert (0 < n / 60) by (apply Z.div_str_pos; lia).
      destruct (Z.gtb_spec (n / 60) 0); [reflexivity | lia].
    + assert (E1 : n / 60 = 0) by (apply Z.div_small; lia).
      rewrite E1. cbn [Z.gtb Z.compare]. now rewrite Z.mod_small by lia.
Qed.

(** X12. What the display of a duration tells: for durations that are
    not negative, two durations of which one is below an hour are
    shown alike only when they are equal, and from one hour on two
    durations are shown alike exactly when they lie in the same minute,
    the seconds being left out. *)
Theorem duration_display_is_exact_below_an_hour (a b : Z) :
  0 <= a -> 0 <= b ->
  (format_duration a = format_duration b
   <-> if a <? 3600 then a = b else a / 60 = b / 60).
Proof.
  intros Ha Hb. rewrite (format_duration_form a Ha), (format_duration_form b Hb).
  pose proof (Z.div_mod a 60 ltac:(lia)) as Da.
  pose proof (Z.mod_pos_bound a 60 ltac:(lia)) as Ma.
  pose proof (Z.div_mod b 60 ltac:(lia)) as Db.
  pose proof (Z.mod_pos_bound b 60 ltac:(lia)) as Mb.
  pose proof (Z.div_mod (a / 60) 60 ltac:(lia)) as Da2.
  pose proof (Z.mod_pos_bound (a / 60) 60 ltac:(lia)) as Ma2.
  pose proof (Z.div_mod (b / 60) 60 ltac:(lia)) as Db2.
  pose proof (Z.mod_pos_bound (b / 60) 60 ltac:(lia)) as Mb2.
  assert (Ha3 : a / 60 / 60 = a / 3600) by (rewrite Zdiv_Zdiv by lia; reflexivity).
  assert (Hb3 : b / 60 / 60 = b / 3600) by (rewrite Zdiv_Zdiv by lia; reflexivity).
  assert (Hqa : 0 <= a / 60) by (apply Z.div_pos; lia).
  assert (Hqb : 0 <= b / 60) by (apply Z.div_pos; lia).
  assert (Hha : 0 <= a / 3600) by (apply Z.div_pos; lia).
  assert (Hhb : 0 <= b / 3600) by (apply Z.div_pos; lia).
  assert (Hmark : forall u v c1 r1 c2 r2, 0 <= u -> 0 <= v ->
            Hotkey.ascii_digit c1 = false -> Hotkey.ascii_digit c2 = false ->
            (decimal u ++ String c1 r1)%string = (decimal v ++ String c2 r2)%string ->
            u = v /\ c1 = c2 /\ r1 = r2).
  { intros u v c1 r1 c2 r2 Hu Hv H1 H2 E.
    destruct (digits_then_mark _ _ _ _ _ _ (decimal_digits u Hu) (decimal_digits v Hv)
                H1 H2 E) as (Euv & ? & ?).
    apply decimal_inj in Euv. auto. }
  destruct (Z.ltb_spec a 3600) as [Hlt | Hge].
  - split; [| now intros <-]. destruct (Z.leb_spec 3600 a); [lia |].
    destruct (Z.leb_spec 60 a); destruct (Z.leb_spec 3600 b);
      try destruct (Z.leb_spec 60 b); intros E;
      apply Hmark in E as (E1 & [=] & E2); try lia; try reflexivity.
    + apply Hmark in E2 as (E2 & _); try lia; reflexivity.
  - destruct (Z.leb_spec 3600 a); [| lia]. split.
    + destruct (Z.leb_spec 3600 b); [| destruct (Z.leb_spec 60 b)]; intros E;
        apply Hmark in E as (E1 & [=] & E2); try lia; try reflexivity.
      apply Hmark in E2 as (E2 & _); try lia; try reflexivity.
    + intros E. assert (3600 <= b).
      { assert (60 <= a / 60) by (apply Z.div_le_lower_bound; lia).
        destruct (Z.lt_ge_cases b 3600) as [Hb' | Hb']; [| lia].
        assert (b / 60 < 60) by (apply Z.div_lt_upper_bound; lia). lia. }
      destruct (Z.leb_spec 3600 b); [| lia].
      now rewrite <- Ha3, <- Hb3, E.
Qed.

Lemma duration_display_is_exact_below_an_hour_witness :
  format_duration 3725 = format_duration 3779
  /\ format_duration 3725 = "1h2m".
Proof.
  split; [| reflexivity].
  apply (duration_display_is_exact_below_an_hour 3725 3779); [lia | lia | reflexivity].
Defined.

(** X13. A negative duration, which a clock set back during a session
    produces, is never shown with a sign or with hours: it is shown as
    the time it lacks to the next full hour, that is as its remainder
    modulo 3600. *)
Theorem negative_duration_is_shown_wrapped (n : Z) :
  n < 0 -> format_duration n = format_duration (n mod 3600).
Proof.
  intros Hn. unfold format_duration, duration_parts.
  pose proof (Z.div_mod n 60 ltac:(lia)). pose proof (Z.mod_pos_bound n 60 ltac:(lia)).
  pose proof (Z.div_mod n 3600 ltac:(lia)). pose proof (Z.mod_pos_bound n 3600 ltac:(lia)).
  pose proof (Z.div_mod (n / 60) 60 ltac:(lia)).
  pose proof (Z.mod_pos_bound (n / 60) 60 ltac:(lia)).
  pose proof (Z.div_mod (n mod 3600) 60 ltac:(lia)).
  pose proof (Z.mod_pos_bound (n mod 3600) 60 ltac:(lia)).
  assert (Hq : 0 <= n mod 3600 / 60 < 60).
  { split; [apply Z.div_pos; lia | apply Z.div_lt_upper_bound; lia]. }
  assert (E1 : n / 60 / 60 = n / 3600) by (rewrite Zdiv_Zdiv by lia; reflexivity).
  assert (E2 : n mod 3600 / 60 / 60 = 0) by (apply Z.div_small; lia).
  assert (E3 : (n mod 3600 / 60) mod 60 = n mod 3600 / 60) by (apply Z.mod_small; lia).
  assert (E4 : (n / 60) mod 60 = n mod 3600 / 60).
  { symmetry. apply (Z.mod_unique_pos _ _ (n / 3600)); lia. }
  assert (E5 : (n mod 3600) mod 60 = n mod 60).
  { symmetry. apply (Z.mod_unique_pos _ _ (n mod 3600 / 60)); lia. }
  rewrite E1, E2, E3, E4, E5.
  assert (n / 3600 < 0) by (apply Z.div_lt_upper_bound; lia).
  destruct (Z.gtb_spec (n / 3600) 0); [lia | reflexivity].
Qed.

Lemma negative_duration_is_shown_wrapped_witness : format_duration (-1) = "59m59s".
Proof.
  rewrite (negative_duration_is_shown_wrapped (-1)); [reflexivity | lia].
Defined.

End DurationFacts.


(** * The tool over a sequence of starts, triggers and stops *)

Section RunFacts.
Import Py Pil Session Os Tool Compose Run.
Local Open Scope list_scope.

Lemma string_app_assoc a b c : ((a ++ b) ++ c)%string = (a ++ (b ++ c))%string.
Proof. induction a as [| x a IH]; cbn; [reflexivity | now rewrite IH]. Qed.

Lemma string_length_app a b :
  String.length (a ++ b)%string = (String.length a + String.length b)%nat.
Proof. induction a as [| x a IH]; cbn; [reflexivity | now rewrite IH]. Qed.

(** A name that ends in [.png] is no name that ends in [.json]. *)
Lemma suffix_png_json a : forall b, (a ++ ".png")%string <> (b ++ ".json")%string.
Proof.
  induction a as [| c a IH]; intros b E.
  - apply (f_equal String.length) in E. rewrite !string_length_app in E. cbn in E. lia.
  - destruct b as [| d b].
    + cbn in E. injection E as _ E. apply (f_equal String.length) in E as L.
      rewrite string_length_app in L. cbn in L.
      destruct a; [discriminate E | cbn in L; lia].
    + cbn in E. injection E as _ E. exact (IH b E).
Qed.

Lemma image_path_not_record images file_timestamp dir id :
  join images (capture_file file_timestamp) <> session_path dir id.
Proof.
  unfold session_path, join.
  change (PyStr.startswith_char "/" (capture_file file_timestamp)) with false.
  cbv iota. unfold capture_file.
  rewrite <- !string_app_assoc.
  destruct (PyStr.startswith_char "/" (id ++ ".json")).
  - apply suffix_png_json.
  - apply suffix_png_json.
Qed.

Lemma load_history_sessions_tool t w :
  fst (load_history_sessions t w)
  = set_history t (history_sessions (fst (load_history_sessions t w))).
Proof.
  unfold load_history_sessions. destruct (listdir w (sessions_dir t)); [| reflexivity].
  destruct (load_files _ _ _ _) as [loaded [|]]; [| reflexivity].
  destruct (sort_by_key_desc _ _); reflexivity.
Qed.

(** What a stop leaves alone: the captures, the directories, and every
    file but the record of the current session. *)
Lemma stop_capture_effect i t w :
  let '(t', w', c) := stop_capture i t w in
  is_capturing t' = false
  /\ s_captures (current_session t') = s_captures (current_session t)
  /\ s_id (current_session t') = s_id (current_session t)
  /\ images_dir t' = images_dir t
  /\ sessions_dir t' = sessions_dir t
  /\ forall q, q <> session_path (sessions_dir t) (s_id (current_session t)) ->
       lookup (w_fs w') q = lookup (w_fs w) q.
Proof.
  unfold stop_capture. destruct (is_capturing t) eqn:Hcap; cbn [negb].
  2:{ repeat split; auto. }
  set (ow := match hotkey_obj t with
             | Some h => if remove_hotkey_ok i then (None, w)
                         else (Some h, show w WarnHotkeyCleanup)
             | None => (None, w)
             end).
  assert (How : w_fs (snd ow) = w_fs w).
  { subst ow. destruct (hotkey_obj t); [destruct (remove_hotkey_ok i) |]; reflexivity. }
  destruct ow as [obj w1]. cbn [snd] in How.
  set (t2 := set_session _ _ _).
  pose proof (load_history_sessions_frame t2 (save_current_session t2 w1)) as Hframe.
  pose proof (load_history_sessions_tool t2 (save_current_session t2 w1)) as Htool.
  destruct (load_history_sessions t2 (save_current_session t2 w1)) as [t3 w3].
  cbn [fst] in Htool. destruct Hframe as (Hfs & _ & Hcs & _ & _).
  assert (Hfiles : forall w4, w_fs w4 = w_fs w3 ->
            forall q, q <> session_path (sessions_dir t) (s_id (current_session t)) ->
              lookup (w_fs w4) q = lookup (w_fs w) q).
  { intros w4 E q Hq. rewrite E, Hfs, <- How. unfold save_current_session.
    destruct (current_session_id t2) as [id |]; [| reflexivity].
    destruct (PyStr.is_empty id); [reflexivity |].
    apply save_session_other. exact (not_eq_sym Hq). }
  assert (Hrest : is_capturing t3 = false
            /\ s_captures (current_session t3) = s_captures (current_session t)
            /\ s_id (current_session t3) = s_id (current_session t)
            /\ images_dir t3 = images_dir t /\ sessions_dir t3 = sessions_dir t).
  { rewrite Hcs, Htool. cbn. auto. }
  destruct Hrest as (H1 & H2 & H3 & H4 & H5).
  destruct (update_history_list t3); [destruct (nonempty _) |];
    (split; [exact H1 |]; split; [exact H2 |]; split; [exact H3 |]; split; [exact H4 |];
     split; [exact H5 |]; now apply Hfiles).
Qed.

(** The captures stay on disk when only other paths change. *)
Lemma captures_stay_on_disk t w t' w' (cs : list capture) :
  images_dir t' = images_dir t ->
  (forall c, In c cs -> capture_on_disk t w c ->
     open_image w' (cap_image_path c) <> None) ->
  Forall (capture_on_disk t w) cs -> Forall (capture_on_disk t' w') cs.
Proof.
  intros Himg Hkeep Hall. apply List.Forall_forall. intros c Hc.
  pose proof (proj1 (List.Forall_forall _ _) Hall c Hc) as Hd.
  split; [| now apply Hkeep]. destruct Hd as [(ts & Hp) _]. exists ts. now rewrite Himg.
Qed.

Lemma stop_capture_in_order i t w :
  in_order t w ->
  let '(t', w', _) := stop_capture i t w in in_order t' w'.
Proof.
  intros (Hc & Hd & _). pose proof (stop_capture_effect i t w) as H.
  destruct (stop_capture i t w) as [[t' w'] c].
  destruct H as (Hidle & Hcaps & _ & Himg & _ & Hfiles).
  split; [unfold contiguous, capture_ids in *; now rewrite Hcaps |].
  split; [| intros E; congruence].
  rewrite Hcaps. apply (captures_stay_on_disk t w); [exact Himg | | exact Hd].
  intros cap _ [(ts & Hp) Hopen]. unfold open_image in *.
  rewrite Hfiles; [exact Hopen |]. rewrite Hp. apply image_path_not_record.
Qed.

Lemma start_capture_in_order i t w :
  in_order t w ->
  let '(t', w') := start_capture i t w in in_order t' w'.
Proof.
  intros Hin. unfold start_capture.
  destruct (is_capturing t) eqn:Hcap; [exact Hin |].
  destruct (blank (ask_name i)).
  { destruct Hin as (Hc & Hd & Ha). split; [exact Hc |]. split; [exact Hd | exact Ha]. }
  destruct (ensure_dir w _) as [w1 [|]].
  - destruct (add_hotkey i).
    + split; [reflexivity |]. split; [constructor |]. intros _. cbn.
      split; [reflexivity |]. split; [reflexivity | discriminate].
    + split; [reflexivity |]. split; [constructor |]. cbn. intros E. congruence.
    + split; [reflexivity |]. split; [constructor |]. cbn. intros E. congruence.
  - split; [reflexivity |]. split; [constructor |]. cbn. intros E. congruence.
Qed.

Lemma makedirs_in_order t w w1 :
  exists_ w (images_dir t) = false ->
  makedirs w (images_dir t) = Some w1 ->
  in_order t w -> in_order t w1.
Proof.
  intros Hex Hmk (Hc & Hd & Ha). split; [exact Hc |]. split; [| exact Ha].
  apply (captures_stay_on_disk t w); [reflexivity | | exact Hd].
  intros cap _ [_ Hopen]. unfold makedirs in Hmk.
  destruct (locked w (images_dir t)); [discriminate |]. injection Hmk as <-.
  unfold open_image in *. cbn [w_fs with_fs]. rewrite lookup_put_other; [exact Hopen |].
  intros E. rewrite <- E in Hopen. unfold exists_ in Hex.
  destruct (lookup (w_fs w) (images_dir t)); [discriminate | now apply Hopen].
Qed.

Lemma capture_screen_in_order {R : Rasterizer} i t w (h : list raster) :
  in_order t w ->
  let '(t', w', _, _) := capture_screen i t w h in in_order t' w'.
Proof.
  intros Hin. unfold capture_screen.
  destruct (is_capturing t) eqn:Hcap; cbn [negb]; [| exact Hin].
  assert (Hdir : forall w1,
            (if exists_ w (images_dir t) then Some w else makedirs w (images_dir t))
            = Some w1 -> in_order t w1).
  { destruct (exists_ w (images_dir t)) eqn:Hex.
    - now intros w1 [= <-].
    - intros w1 Hmk. now apply (makedirs_in_order t w w1). }
  destruct (if exists_ w (images_dir t) then Some w else makedirs w (images_dir t))
    as [w1 |]; [| exact Hin].
  specialize (Hdir w1 eq_refl). clear Hin.
  destruct (grab i) as [shot | |]; [| | exact Hdir].
  2:{ pose proof (stop_capture_in_order (on_stop i) t (show w1 ErrMissingDependency) Hdir).
      now destruct (stop_capture _ _ _) as [[t' w'] c]. }
  destruct (alloc h shot) as [h1 screenshot].
  destruct (show_capture_preview h1 screenshot (user i)) as [h2 [[final_image d] |]];
    [| exact Hdir].
  destruct (h2 !! final_image) as [final |]; [| exact Hdir].
  destruct (write w1 _ _) as [w2 |] eqn:Hw; [| exact Hdir].
  destruct Hdir as (Hc & Hd & Ha). destruct (write_reads_back _ _ _ _ Hw) as [Hback _].
  split; [now apply append_capture_contiguous |]. split; [| exact Ha].
  cbn [current_session set_session append_capture set_captures s_captures].
  apply Forall_app. split.
  - apply (captures_stay_on_disk t w1); [reflexivity | | exact Hd].
    intros cap _ [_ Hopen]. unfold open_image in *. cbn [show w_fs].
    destruct (string_dec
                (join (images_dir t) ("capture_" ++ file_timestamp i ++ ".png")%string)
                (cap_image_path cap)) as [E | Hne].
    + rewrite <- E, Hback. discriminate.
    + now rewrite (write_other _ _ _ _ _ Hw Hne).
  - constructor; [| constructor]. split.
    + exists (file_timestamp i). reflexivity.
    + unfold open_image. cbn [cap_image_path show w_fs]. rewrite Hback. discriminate.
Qed.

Lemma step_in_order {R : Rasterizer} a t w (h : list raster) :
  in_order t w ->
  let '(t', w', _) := step a (t, w, h) in in_order t' w'.
Proof.
  intros Hin. destruct a as [i | i | i]; cbn [step].
  - pose proof (start_capture_in_order i t w Hin). now destruct (start_capture i t w).
  - pose proof (capture_screen_in_order i t w h Hin).
    now destruct (capture_screen i t w h) as [[[t' w'] h'] c].
  - pose proof (stop_capture_in_order i t w Hin).
    now destruct (stop_capture i t w) as [[t' w'] c].
Qed.

(** X14. Through any sequence of starts, hotkey triggers and stops,
    whatever the user answers and whatever fails on the way, the
    current session stays in order: its capture ids are 1..n, every
    capture record names a file [capture_<timestamp>.png] of the
    session's image directory that is on disk as an image, and while
    the hotkey is armed the session id, the image directory and the
    hotkey handle are those of the session being recorded. *)
Theorem session_stays_in_order {R : Rasterizer} (actions : list action)
    (t : tool) (w : world) (h : list raster) :
  in_order t w ->
  let '(t', w', _) := run actions (t, w, h) in in_order t' w'.
Proof.
  revert t w h. induction actions as [| a rest IH]; intros t w h Hin; [exact Hin |].
  unfold run. cbn [fold_left]. pose proof (step_in_order a t w h Hin) as Hstep.
  destruct (step a (t, w, h)) as [[t1 w1] h1]. exact (IH t1 w1 h1 Hstep).
Qed.

Lemma session_stays_in_order_witness :
  let '(t', w', _) :=
    run (R := SampleCompose.blank_rasterizer) SampleRun.demo_actions
      (Sample.tool0, Sample.empty_store, []) in
  capture_ids (current_session t') = [1; 2]
  /\ Forall (capture_on_disk t' w') (s_captures (current_session t')).
Proof.
  assert (Hin : in_order Sample.tool0 Sample.empty_store).
  { split; [reflexivity |]. split; [constructor | discriminate]. }
  pose proof (session_stays_in_order (R := SampleCompose.blank_rasterizer)
                SampleRun.demo_actions Sample.tool0 Sample.empty_store [] Hin) as H.
  destruct (run SampleRun.demo_actions (Sample.tool0, Sample.empty_store, []))
    as [[t' w'] h'] eqn:E.
  destruct H as (_ & Hd & _). split; [| exact Hd].
  change t' with (fst (fst (t', w', h'))). rewrite <- E. reflexivity.
Defined.

(** A trigger that adds a record has written the image it names. *)
Lemma capture_screen_appends {R : Rasterizer} i t w (h : list raster) t' w' h' c :
  capture_screen i t w h = (t', w', h', c) ->
  List.length (s_captures (current_session t'))
    <> List.length (s_captures (current_session t)) ->
  exists description final,
    t' = set_session t (current_session_id t)
           (append_capture (current_session t) (capture_timestamp i) description
              (join (images_dir t) (capture_file (file_timestamp i))))
    /\ open_image w' (join (images_dir t) (capture_file (file_timestamp i))) = Some final.
Proof.
  unfold capture_screen. destruct (is_capturing t); cbn [negb].
  2:{ intros [= <- _ _ _] H. now contradiction H. }
  destruct (if exists_ w (images_dir t) then _ else _) as [w1 |].
  2:{ intros [= <- _ _ _] H. now contradiction H. }
  destruct (grab i) as [shot | |].
  - destruct (alloc h shot) as [h1 screenshot].
    destruct (show_capture_preview h1 screenshot (user i)) as [h2 [[final_image d] |]].
    2:{ intros [= <- _ _ _] H. now contradiction H. }
    destruct (h2 !! final_image) as [final |].
    2:{ intros [= <- _ _ _] H. now contradiction H. }
    destruct (write w1 _ _) as [w2 |] eqn:Hw.
    2:{ intros [= <- _ _ _] H. now contradiction H. }
    intros [= <- <- _ _] _. exists d, final. split; [reflexivity |].
    unfold open_image, capture_file. cbn [show w_fs].
    now rewrite (proj1 (write_reads_back _ _ _ _ Hw)).
  - pose proof (stop_capture_captures (on_stop i) t (show w1 ErrMissingDependency)) as Hs.
    destruct (stop_capture _ _ _) as [[t0 w0] c0]. cbn [fst] in Hs.
    intros [= <- _ _ _] H. rewrite Hs in H. now contradiction H.
  - intros [= <- _ _ _] H. now contradiction H.
Qed.

(** X15. The file name of a capture is made from the clock read to the
    second. Two triggers that both add a record and read the same
    second write to one path: the session then has two records with
    successive ids and the same image path, and only one image file
    stands behind them. *)
Theorem same_second_captures_share_a_file {R : Rasterizer} (i1 i2 : trigger_input)
    (t t1 t2 : tool) (w w1 w2 : world) (h h1 h2 : list raster) (c1 c2 : completion) :
  capture_screen i1 t w h = (t1, w1, h1, c1) ->
  capture_screen i2 t1 w1 h1 = (t2, w2, h2, c2) ->
  List.length (s_captures (current_session t1))
    <> List.length (s_captures (current_session t)) ->
  List.length (s_captures (current_session t2))
    <> List.length (s_captures (current_session t1)) ->
  file_timestamp i1 = file_timestamp i2 ->
  exists a b final,
    s_captures (current_session t2) = s_captures (current_session t) ++ [a; b]
    /\ cap_id b = cap_id a + 1
    /\ cap_image_path a = cap_image_path b
    /\ open_image w2 (cap_image_path a) = Some final.
Proof.
  intros H1 H2 L1 L2 Hts.
  destruct (capture_screen_appends _ _ _ _ _ _ _ _ H1 L1) as (d1 & f1 & -> & _).
  destruct (capture_screen_appends _ _ _ _ _ _ _ _ H2 L2) as (d2 & f2 & -> & Hopen).
  cbn [current_session set_session images_dir] in *.
  cbn [append_capture set_captures s_captures] in *.
  eexists _, _, f2. rewrite <- app_assoc. cbn [app].
  split; [reflexivity |]. cbn [cap_id cap_image_path].
  split; [rewrite length_app; cbn; lia |].
  split; [now rewrite Hts |]. now rewrite Hts.
Qed.

Lemma same_second_captures_share_a_file_witness :
  exists t2 w2 a b,
    s_captures (current_session t2) = [a; b]
    /\ cap_image_path a = cap_image_path b
    /\ open_image w2 (cap_image_path a) = Some (Sample.flat 20 20 9%N).
Proof.
  pose (R := SampleCompose.blank_rasterizer).
  pose (i1 := SampleRun.shot "20240101_120003" "2024-01-01 12:00:03" "first" 7%N).
  pose (i2 := SampleRun.shot "20240101_120003" "2024-01-01 12:00:03" "second" 9%N).
  destruct (capture_screen i1 (fst Sample.armed) (snd Sample.armed) [])
    as [[[t1 w1] h1] c1] eqn:E1.
  destruct (capture_screen i2 t1 w1 h1) as [[[t2 w2] h2] c2] eqn:E2.
  assert (Et1 : t1 = fst (fst (fst (capture_screen i1 (fst Sample.armed)
                                      (snd Sample.armed) [])))) by (now rewrite E1).
  assert (Ew1 : w1 = snd (fst (fst (capture_screen i1 (fst Sample.armed)
                                      (snd Sample.armed) [])))) by (now rewrite E1).
  assert (Eh1 : h1 = snd (fst (capture_screen i1 (fst Sample.armed)
                                 (snd Sample.armed) []))) by (now rewrite E1).
  assert (Et2 : t2 = fst (fst (fst (capture_screen i2 t1 w1 h1)))) by (now rewrite E2).
  assert (Ew2 : w2 = snd (fst (fst (capture_screen i2 t1 w1 h1)))) by (now rewrite E2).
  destruct (same_second_captures_share_a_file i1 i2 _ _ _ _ _ _ _ _ _ _ _ E1 E2)
    as (a & b & final & Hcaps & _ & Hpath & Hopen).
  - rewrite Et1. vm_compute. discriminate.
  - rewrite Et2, Et1, Ew1, Eh1. vm_compute. discriminate.
  - reflexivity.
  - exists t2, w2, a, b. split; [exact Hcaps |]. split; [exact Hpath |].
    assert (Ea : cap_image_path a
                 = join (join Sample.dir Sample.sid) "capture_20240101_120003.png").
    { assert (Hl : s_captures (current_session t2) !! 0%nat = Some a)
        by (now rewrite Hcaps).
      rewrite Et2, Et1, Ew1, Eh1 in Hl. vm_compute in Hl. injection Hl as <-.
      reflexivity. }
    rewrite Ea, Ew2, Et1, Ew1, Eh1. reflexivity.
Defined.

End RunFacts.


(** * From the preview to the saved image *)

Section CropFacts.
Import Pil Compose Zoom Preview.
Local Open Scope list_scope.
Context {R : Rasterizer}.

(** X16. A region selected in the preview and confirmed without
    annotations yields a new image object of the size of the region,
    with both sides positive, and each of its pixels is the pixel of
    the screenshot at the same place: the crop never reaches outside
    the screenshot, so nothing is padded. *)
Theorem cropped_capture_is_a_sub_image (c : canvas) (evs : list event) (p : preview)
    (h : list raster) (original : nat) (base : raster) (x1 y1 x2 y2 : Z)
    (description : string) :
  run (open_preview c) evs = Some p ->
  selected_region p = Some (x1, y1, x2, y2) ->
  annotation_paths p = [] ->
  text_annotations p = [] ->
  h !! original = Some base ->
  r_width base = original_width c ->
  r_height base = original_height c ->
  exists h' final img,
    on_confirm h original (selected_region p) (annotation_paths p)
      (text_annotations p) description
    = Some (h', (final, PyStr.strip description))
    /\ h' !! final = Some img
    /\ final <> original
    /\ h' !! original = Some base
    /\ r_width img = x2 - x1 /\ 0 < r_width img
    /\ r_height img = y2 - y1 /\ 0 < r_height img
    /\ forall x y, 0 <= x < r_width img -> 0 <= y < r_height img ->
         r_pixel img x y = r_pixel base (x + x1) (y + y1).
Proof.
  intros Hrun Hreg Hpaths Htexts Hbase Hw Hh.
  pose proof (run_tidy evs _ _ (open_preview_tidy c) Hrun) as Ht.
  destruct Ht as (_ & _ & _ & _ & _ & _ & Hr).
  pose proof (Hr _ Hreg) as Hbox.
  destruct (run_original_size evs _ _ Hrun) as [Hw' Hh']. cbn in Hw', Hh'.
  unfold box_in_image in Hbox. rewrite Hw', Hh', <- Hw, <- Hh in Hbox.
  unfold on_confirm. rewrite Hreg, Hpaths, Htexts, Hbase. cbn [alloc nonempty orb].
  exists (h ++ [crop base (x1, y1, x2, y2)]), (List.length h), (crop base (x1, y1, x2, y2)).
  split; [reflexivity |].
  split; [rewrite lookup_app_r by lia; now rewrite Nat.sub_diag |].
  assert (Hlt : (original < List.length h)%nat) by (now apply lookup_lt_Some in Hbase).
  split; [lia |].
  split; [rewrite lookup_app_l by lia; exact Hbase |].
  cbn [crop r_width r_height r_pixel].
  split; [reflexivity |]. split; [lia |]. split; [reflexivity |]. split; [lia |].
  intros x y Hx Hy. unfold in_bounds. cbn [fst snd].
  destruct (Z.leb_spec 0 (x + x1)); [| lia].
  destruct (Z.ltb_spec (x + x1) (r_width base)); [| lia].
  destruct (Z.leb_spec 0 (y + y1)); [| lia].
  destruct (Z.ltb_spec (y + y1) (r_height base)); [| lia].
  reflexivity.
Qed.

End CropFacts.

Lemma cropped_capture_is_a_sub_image_witness :
  exists (h' : list Pil.raster) (final : nat) img,
    Compose.on_confirm (R := SampleCompose.blank_rasterizer)
      [Sample.flat 200 100 7%N] 0 (Some (22, 10, 77, 56)) [] [] "  saved " 
    = Some (h', (final, "saved"))
    /\ h' !! final = Some img
    /\ Pil.r_width img = 55 /\ Pil.r_height img = 46.
Proof.
  assert (Hrun : exists p,
            Preview.run (Preview.open_preview Preview.sample_canvas)
              Preview.selection_events = Some p
            /\ Preview.selected_region p = Some (22, 10, 77, 56)
            /\ Preview.annotation_paths p = [] /\ Preview.text_annotations p = []).
  { eexists. split; [vm_compute; reflexivity |]. repeat split. }
  destruct Hrun as (p & Hrun & Hreg & Hpaths & Htexts).
  destruct (cropped_capture_is_a_sub_image (R := SampleCompose.blank_rasterizer)
              Preview.sample_canvas Preview.selection_events p
              [Sample.flat 200 100 7%N] 0%nat (Sample.flat 200 100 7%N)
              22 10 77 56 "  saved " Hrun Hreg Hpaths Htexts eq_refl eq_refl eq_refl)
    as (h' & final & img & Hc & Hget & _ & _ & Hw & _ & Hh & _).
  exists h', final, img. rewrite Hreg, Hpaths, Htexts in Hc.
  split; [exact Hc |]. split; [exact Hget |]. split; [exact Hw | exact Hh].
Defined.


(** * The Markdown report *)

Section ReportFacts.
Import Py Pil Session Os Tool Report.
Local Open Scope list_scope.

Lemma grows_refl w : grows w w.
Proof. intros q _. reflexivity. Qed.

Lemma grows_trans w1 w2 w3 : grows w1 w2 -> grows w2 w3 -> grows w1 w3.
Proof.
  intros H12 H23 q Hq. rewrite H23, H12; auto. rewrite H12; auto.
Qed.

Lemma grows_exists w w' q : grows w w' -> exists_ w q = true -> exists_ w' q = true.
Proof.
  intros Hg. unfold exists_. destruct (lookup (w_fs w) q) eqn:E; [| discriminate].
  rewrite (Hg q), E; congruence.
Qed.

Lemma write_fresh_grows w p n w' :
  exists_ w p = false -> write w p n = Some w' -> grows w w'.
Proof.
  intros Hex Hw q Hq. apply (write_other _ _ _ _ _ Hw). intros <-.
  unfold exists_ in Hex. destruct (lookup (w_fs w) p); [discriminate | contradiction].
Qed.

Lemma ensure_dir_grows w path w' ok : ensure_dir w path = (w', ok) -> grows w w'.
Proof.
  unfold ensure_dir. destruct (exists_ w path) eqn:Hex; [intros [= <- _]; apply grows_refl |].
  destruct (makedirs w path) as [w1 |] eqn:Hmk; intros [= <- _];
    [| intros q _; reflexivity].
  unfold makedirs in Hmk. destruct (locked w path); [discriminate |]. injection Hmk as <-.
  intros q Hq. cbn [w_fs with_fs]. apply lookup_put_other. intros <-.
  unfold exists_ in Hex. destruct (lookup (w_fs w) path); [discriminate | contradiction].
Qed.

Lemma add_image_grows rel dir i cap w w' line :
  add_image rel dir i cap w = (w', line) -> grows w w'.
Proof.
  unfold add_image. destruct (exists_ w (cap_image_path cap)); [| intros [= <- _]; apply grows_refl].
  destruct rel; [| intros [= <- _]; apply grows_refl].
  destruct (exists_ w (join dir (basename (cap_image_path cap)))) eqn:Hex; cbn [negb];
    [intros [= <- _]; apply grows_refl |].
  destruct (open_image w (cap_image_path cap)) as [img |]; [| intros [= <- _]; apply grows_refl].
  destruct (write w _ _) as [w1 |] eqn:Hw; intros [= <- _]; [| apply grows_refl].
  exact (write_fresh_grows _ _ _ _ Hex Hw).
Qed.

Lemma add_steps_grows rel dir caps : forall i w w' lines,
  add_steps rel dir i caps w = (w', lines) -> grows w w'.
Proof.
  induction caps as [| cap rest IH]; intros i w w' lines; cbn [add_steps].
  - intros [= <- _]. apply grows_refl.
  - destruct (add_image rel dir i cap w) as [w1 line] eqn:H1.
    destruct (add_steps rel dir (i + 1) rest w1) as [w2 ls] eqn:H2.
    intros [= <- _]. exact (grows_trans _ _ _ (add_image_grows _ _ _ _ _ _ _ H1) (IH _ _ _ _ H2)).
Qed.

Lemma write_keeps_existing w p n w' q :
  write w p n = Some w' -> exists_ w q = true -> exists_ w' q = true.
Proof.
  intros Hw Hq. unfold exists_ in *. destruct (string_dec p q) as [<- | Hne].
  - now rewrite (proj1 (write_reads_back _ _ _ _ Hw)).
  - now rewrite (write_other _ _ _ _ _ Hw Hne).
Qed.

(** The picture line of one capture names a file that exists. *)
Lemma add_image_line rel dir i cap w w' line :
  add_image rel dir i cap w = (w', line) ->
  step_number line = None
  /\ forall j img_path, line = ImageLink j img_path ->
       exists_ w' img_path = true
       \/ exists img_filename,
            img_path = (img_rel_dir ++ "/" ++ img_filename)%string
            /\ exists_ w' (join dir img_filename) = true.
Proof.
  unfold add_image. destruct (exists_ w (cap_image_path cap)) eqn:Hsrc.
  2:{ intros [= <- <-]. split; [reflexivity | discriminate]. }
  destruct rel.
  2:{ intros [= <- <-]. split; [reflexivity |]. intros j p [= _ <-]. now left. }
  destruct (exists_ w (join dir (basename (cap_image_path cap)))) eqn:Hex; cbn [negb].
  { intros [= <- <-]. split; [reflexivity |]. intros j p [= _ <-]. right. eauto. }
  destruct (open_image w (cap_image_path cap)) as [img |].
  2:{ intros [= <- <-]. split; [reflexivity | discriminate]. }
  destruct (write w _ _) as [w1 |] eqn:Hw; intros [= <- <-];
    (split; [reflexivity |]); [| discriminate].
  intros j p [= _ <-]. right. eexists. split; [reflexivity |].
  unfold exists_. now rewrite (proj1 (write_reads_back _ _ _ _ Hw)).
Qed.

Lemma add_steps_lines rel dir caps : forall i w w' lines,
  add_steps rel dir i caps w = (w', lines) ->
  omap step_number lines = map (fun k => i + Z.of_nat k) (seq 0 (List.length caps))
  /\ forall j img_path, In (ImageLink j img_path) lines ->
       exists_ w' img_path = true
       \/ exists img_filename,
            img_path = (img_rel_dir ++ "/" ++ img_filename)%string
            /\ exists_ w' (join dir img_filename) = true.
Proof.
  induction caps as [| cap rest IH]; intros i w w' lines; cbn [add_steps].
  - intros [= <- <-]. split; [reflexivity | intros j p []].
  - destruct (add_image rel dir i cap w) as [w1 line] eqn:H1.
    destruct (add_steps rel dir (i + 1) rest w1) as [w2 ls] eqn:H2.
    intros [= <- <-]. destruct (add_image_line _ _ _ _ _ _ _ H1) as [Hno Hline].
    destruct (IH _ _ _ _ H2) as [Hnum Hrest].
    pose proof (add_steps_grows _ _ _ _ _ _ _ H2) as Hg. split.
    + change (omap step_number (StepHeading i :: ?a :: ?b :: line :: ls))
        with (i :: match step_number line with
                   | Some y => y :: omap step_number ls
                   | None => omap step_number ls
                   end).
      rewrite Hno, Hnum. cbn [List.length seq map]. f_equal; [lia |].
      rewrite <- seq_shift, List.map_map. apply map_ext. intros k. lia.
    + intros j p [[=] | [[=] | [[=] | [E | Hin]]]]; [| now apply (Hrest j)].
      destruct (Hline j p E) as [Hp | (name & -> & Hp)].
      * left. exact (grows_exists _ _ _ Hg Hp).
      * right. exists name. split; [reflexivity | exact (grows_exists _ _ _ Hg Hp)].
Qed.

Lemma write_locked w p n w' : write w p n = Some w' -> w_locked w' = w_locked w.
Proof.
  unfold write. destruct (locked w p); [discriminate |].
  destruct (lookup (w_fs w) p) as [[| |] |]; try discriminate; now intros [= <-].
Qed.

Lemma add_steps_locked rel dir caps : forall i w w' lines,
  add_steps rel dir i caps w = (w', lines) -> w_locked w' = w_locked w.
Proof.
  induction caps as [| cap rest IH]; intros i w w' lines; cbn [add_steps].
  - now intros [= <- _].
  - destruct (add_image rel dir i cap w) as [w1 line] eqn:H1.
    destruct (add_steps rel dir (i + 1) rest w1) as [w2 ls] eqn:H2.
    intros [= <- _]. rewrite (IH _ _ _ _ H2). unfold add_image in H1.
    destruct (exists_ w (cap_image_path cap)); [| now injection H1 as <- _].
    destruct rel; [| now injection H1 as <- _].
    destruct (negb _); [| now injection H1 as <- _].
    destruct (open_image w _); [| now injection H1 as <- _].
    destruct (write w _ _) as [w3 |] eqn:Hw; injection H1 as <- _; [| reflexivity].
    exact (write_locked _ _ _ _ Hw).
Qed.

(** X17. Generating a Markdown report overwrites nothing but the report
    file itself: every other path that existed before holds afterwards
    what it held before, whether or not the report could be written.
    In particular a picture already present in the report's image
    directory under the name of a capture file is kept as it is, also
    when the capture has been edited since it was copied. *)
Theorem report_generation_overwrites_nothing (now : string) (s : session)
    (save_path : string) (use_relative : bool) (w : world) :
  let '(w', _) := generate now s save_path use_relative w in
  w_locked w' = w_locked w
  /\ forall q, q <> save_path -> lookup (w_fs w) q <> None ->
       lookup (w_fs w') q = lookup (w_fs w) q.
Proof.
  unfold generate.
  set (dir := join (dirname save_path) img_rel_dir).
  destruct (if use_relative then ensure_dir w dir else (w, false)) as [w0 rel] eqn:H0.
  assert (Hg0 : grows w w0 /\ w_locked w0 = w_locked w).
  { destruct use_relative; [| injection H0 as <- _; split; [apply grows_refl | reflexivity]].
    split; [exact (ensure_dir_grows _ _ _ _ H0) |].
    unfold ensure_dir in H0. destruct (exists_ w dir); [now injection H0 as <- _ |].
    unfold makedirs in H0. destruct (locked w dir); now injection H0 as <- _. }
  destruct Hg0 as [Hg0 Hl0].
  destruct (add_steps rel dir 1 (s_captures s) w0) as [w1 steps] eqn:H1.
  pose proof (add_steps_grows _ _ _ _ _ _ _ H1) as Hg1.
  pose proof (add_steps_locked _ _ _ _ _ _ _ H1) as Hl1.
  pose proof (grows_trans _ _ _ Hg0 Hg1) as Hg.
  destruct (write w1 save_path (TextFile None)) as [w2 |] eqn:Hw.
  - split.
    + rewrite (write_locked _ _ _ _ Hw). congruence.
    + intros q Hq Hex. rewrite (write_other _ _ _ _ _ Hw (not_eq_sym Hq)). now apply Hg.
  - split; [congruence |]. intros q _ Hex. now apply Hg.
Qed.

(** X18. When the report is written, it has one step heading per
    capture, numbered 1..n in the order of the captures, and behind
    every picture line of the report there is a file: the path the
    line names exists, or for a line that points into [images/] the
    file of that name exists in the image directory next to the
    report. *)
Theorem report_pictures_exist (now : string) (s : session) (save_path : string)
    (use_relative : bool) (w w' : world) (lines : list md_item) :
  generate now s save_path use_relative w = (w', Some lines) ->
  omap step_number lines = one_to (List.length (s_captures s))
  /\ forall i img_path, In (ImageLink i img_path) lines ->
       picture_exists w' save_path img_path.
Proof.
  unfold generate.
  set (dir := join (dirname save_path) img_rel_dir).
  destruct (if use_relative then ensure_dir w dir else (w, false)) as [w0 rel].
  destruct (add_steps rel dir 1 (s_captures s) w0) as [w1 steps] eqn:H1.
  destruct (write w1 save_path (TextFile None)) as [w2 |] eqn:Hw; [| discriminate].
  intros [= <- <-]. destruct (add_steps_lines _ _ _ _ _ _ _ H1) as [Hnum Hlinks]. split.
  - repeat (change (omap step_number (?x :: ?l))
              with (match step_number x with
                    | Some y => y :: omap step_number l
                    | None => omap step_number l
                    end); cbn [step_number]).
    rewrite Hnum. unfold one_to. apply map_ext. intros k. lia.
  - intros i p Hin. do 10 (destruct Hin as [[=] | Hin]).
    destruct (Hlinks i p Hin) as [Hp | (name & -> & Hp)].
    + left. exact (write_keeps_existing _ _ _ _ _ Hw Hp).
    + right. exists name. split; [reflexivity |].
      exact (write_keeps_existing _ _ _ _ _ Hw Hp).
Qed.

Lemma report_generation_overwrites_nothing_witness :
  open_image
    (fst (generate "2024-01-02 08:00:00" Sample.two_captures SampleReport.save_path true
            SampleReport.world))
    SampleReport.old_copy
  = Some (Sample.flat 20 20 1%N)
  /\ open_image SampleReport.world Sample.img1 = Some (Sample.flat 20 20 7%N).
Proof.
  split; [| reflexivity].
  pose proof (report_generation_overwrites_nothing "2024-01-02 08:00:00"
                Sample.two_captures SampleReport.save_path true SampleReport.world) as H.
  destruct (generate _ _ _ _ _) as [w' r]. destruct H as [_ H]. cbn [fst].
  unfold open_image. rewrite (H SampleReport.old_copy); [reflexivity | | ].
  - discriminate.
  - vm_compute. discriminate.
Defined.

Lemma report_pictures_exist_witness :
  match generate "2024-01-02 08:00:00" Sample.two_captures SampleReport.save_path true
          SampleReport.world with
  | (w', Some lines) =>
      omap step_number lines = [1; 2]
      /\ picture_exists w' SampleReport.save_path "images/capture_20240101_120010.png"
  | (_, None) => False
  end.
Proof.
  destruct (generate "2024-01-02 08:00:00" Sample.two_captures SampleReport.save_path true
              SampleReport.world) as [w' [lines |]] eqn:E.
  - destruct (report_pictures_exist _ _ _ _ _ _ _ E) as [Hnum Hlinks].
    split; [exact Hnum |]. apply (Hlinks 2).
    assert (Hl : Some lines
                 = snd (generate "2024-01-02 08:00:00" Sample.two_captures
                          SampleReport.save_path true SampleReport.world))
      by (now rewrite E).
    vm_compute in Hl. injection Hl as ->. cbn. auto 20.
  - assert (Hl : None
                 = snd (generate "2024-01-02 08:00:00" Sample.two_captures
                          SampleReport.save_path true SampleReport.world))
      by (now rewrite E).
    vm_compute in Hl. discriminate Hl.
Defined.

End ReportFacts.


(** * The editor window *)

Section EditorFacts.
Import Py Pil Session Os Tool Store Editor.
Local Open Scope list_scope.

Lemma save_session_sync dir s w :
  writable w (session_path dir (s_id s)) ->
  in_sync dir s (save_session dir s w)
  /\ w_log (save_session dir s w) = w_log w.
Proof.
  intros Hwr.
  destruct (writable_write w _ (TextFile (Some (session_to_py s))) Hwr) as [w2 Hw].
  destruct (save_session_reads_back _ _ _ _ Hw) as [-> Hback].
  destruct (write_reads_back _ _ _ _ Hw) as [Hl Hlog].
  split; [| exact Hlog]. split; [| exact Hback]. split.
  - unfold locked. rewrite (write_locked _ _ _ _ Hw). exact (proj1 Hwr).
  - rewrite Hl. discriminate.
Qed.

Lemma writable_after_write w p n w1 q :
  write w p n = Some w1 -> n <> Dir -> writable w q -> writable w1 q.
Proof.
  intros Hw Hn [Hl Hd]. split.
  - unfold locked. now rewrite (write_locked _ _ _ _ Hw).
  - destruct (string_dec p q) as [<- | Hne].
    + rewrite (proj1 (write_reads_back _ _ _ _ Hw)). congruence.
    + now rewrite (write_other _ _ _ _ _ Hw Hne).
Qed.

Lemma writable_after_remove w p w1 q :
  remove w p = Some w1 -> writable w q -> writable w1 q.
Proof.
  intros Hr [Hl Hd]. destruct (remove_shrinks _ _ _ Hr) as [(Hlk & _ & _ & Hq) _]. split.
  - unfold locked. now rewrite Hlk.
  - destruct (Hq q) as [E | [_ E]]; rewrite E; [exact Hd | discriminate].
Qed.

Lemma handle_capture_operation_sync dir capture_id a s w :
  in_sync dir s w ->
  let '(s', w') := handle_capture_operation dir capture_id a s w in
  in_sync dir s' w' /\ s_id s' = s_id s
  /\ (In ErrSaveSession (w_log w') -> In ErrSaveSession (w_log w)).
Proof.
  intros Hin. unfold handle_capture_operation.
  destruct (find_capture s capture_id) as [[idx cap] |]; [| auto].
  destruct a as [[new_desc |] | [|]]; try (split; [exact Hin | auto]).
  - assert (Hid : s_id (describe s idx new_desc) = s_id s) by apply describe_id.
    destruct (save_session_sync dir (describe s idx new_desc) w) as [Hs Hlog].
    { rewrite Hid. exact (proj1 Hin). }
    split; [exact Hs |]. split; [exact Hid | now rewrite Hlog].
  - destruct (exists_ w (cap_image_path cap)).
    + destruct (remove w (cap_image_path cap)) as [w1 |] eqn:Hr.
      * destruct (save_session_sync dir (delete_capture s idx) w1) as [Hs Hlog].
        { exact (writable_after_remove _ _ _ _ Hr (proj1 Hin)). }
        split; [exact Hs |]. split; [reflexivity |]. rewrite Hlog.
        now rewrite (proj1 (proj2 (proj1 (remove_shrinks _ _ _ Hr)))).
      * split; [exact Hin |]. split; [reflexivity |]. cbn [show w_log].
        intros H. apply in_app_or in H as [H | [[=] | []]]. exact H.
    + destruct (save_session_sync dir (delete_capture s idx) w (proj1 Hin)) as [Hs Hlog].
      split; [exact Hs |]. split; [reflexivity | now rewrite Hlog].
Qed.

Lemma preview_screenshot_sync {R : Rasterizer} dir capture_id u s w (h : list raster) :
  in_sync dir s w ->
  let '(s', w', _) := preview_screenshot dir capture_id u s w h in
  in_sync dir s' w' /\ s_id s' = s_id s
  /\ (In ErrSaveSession (w_log w') -> In ErrSaveSession (w_log w)).
Proof.
  intros Hin. unfold preview_screenshot.
  assert (Hshow : forall e, e <> ErrSaveSession ->
            in_sync dir s (show w e) /\ s_id s = s_id s
            /\ (In ErrSaveSession (w_log (show w e)) -> In ErrSaveSession (w_log w))).
  { intros e He. split; [exact Hin |]. split; [reflexivity |]. cbn [show w_log].
    intros H. apply in_app_or in H as [H | [E | []]]; [exact H | congruence]. }
  destruct (find_capture s capture_id) as [[idx cap] |]; [| now apply Hshow].
  destruct (exists_ w (cap_image_path cap)); cbn [negb]; [| now apply Hshow].
  destruct (open_image w (cap_image_path cap)) as [img |]; [| now apply Hshow].
  destruct (alloc h img) as [h0 l0]. destruct (alloc h0 img) as [h1 screenshot].
  destruct (show_capture_preview h1 screenshot u) as [h2 [[updated_image d] |]]; [| auto].
  destruct (h2 !! updated_image) as [updated |]; [| auto].
  destruct (write w (cap_image_path cap) (ImageFile updated)) as [w1 |] eqn:Hw;
    [| now apply Hshow].
  set (s' := if String.eqb d (cap_description cap) then s else describe s idx d).
  assert (Hid : s_id s' = s_id s).
  { subst s'. destruct (String.eqb d (cap_description cap)); [reflexivity | apply describe_id]. }
  destruct (save_session_sync dir s' w1) as [Hs Hlog].
  { rewrite Hid. apply (writable_after_write _ _ _ _ _ Hw); [discriminate | exact (proj1 Hin)]. }
  split; [exact Hs |]. split; [exact Hid |]. cbn [show w_log]. rewrite Hlog.
  rewrite (proj2 (write_reads_back _ _ _ _ Hw)).
  intros H. apply in_app_or in H as [H | [[=] | []]]. exact H.
Qed.

Lemma step_sync {R : Rasterizer} t a s w (h : list raster) :
  in_sync (sessions_dir t) s w ->
  let '(s', w', _) := step t a (s, w, h) in
  in_sync (sessions_dir t) s' w' /\ s_id s' = s_id s
  /\ (In ErrSaveSession (w_log w') -> In ErrSaveSession (w_log w)).
Proof.
  intros Hin. destruct a as [capture_id a | capture_id u | name_var desc_text]; cbn [step].
  - pose proof (handle_capture_operation_sync (sessions_dir t) capture_id a s w Hin).
    now destruct (handle_capture_operation _ _ _ _ _).
  - exact (preview_screenshot_sync (sessions_dir t) capture_id u s w h Hin).
  - unfold save_session_info.
    set (s' := set_info s (PyStr.strip name_var) (PyStr.strip desc_text)).
    destruct (save_session_sync (sessions_dir t) s' w (proj1 Hin)) as [Hs Hlog].
    destruct (update_history_list t);
      (split; [exact Hs |]; split; [reflexivity | now rewrite Hlog]).
Qed.

(** X19. While the editor window is used, the record file follows the
    session: when the record of the session can be written, after any
    sequence of description edits, capture deletions, re-edited
    screenshots and saved names, whatever the user answers and
    whichever image operation fails, the record file holds exactly the
    session the window shows, under the same id, and no save error has
    been shown. *)
Theorem editor_keeps_record_in_sync {R : Rasterizer} (t : tool) (actions : list action)
    (s : session) (w : world) (h : list raster) :
  in_sync (sessions_dir t) s w ->
  let '(s', w', _) := run t actions (s, w, h) in
  s_id s' = s_id s
  /\ in_sync (sessions_dir t) s' w'
  /\ (In ErrSaveSession (w_log w') -> In ErrSaveSession (w_log w)).
Proof.
  revert s w h. induction actions as [| a rest IH]; intros s w h Hin.
  - cbn. auto.
  - unfold run. cbn [fold_left]. pose proof (step_sync t a s w h Hin) as Hstep.
    destruct (step t a (s, w, h)) as [[s1 w1] h1]. destruct Hstep as (Hs1 & Hid1 & Hlog1).
    specialize (IH s1 w1 h1 Hs1). unfold run in IH.
    destruct (fold_left _ rest (s1, w1, h1)) as [[s' w'] h'].
    destruct IH as (Hid & Hs & Hlog). split; [congruence |]. split; [exact Hs | auto].
Qed.

Lemma editor_keeps_record_in_sync_witness :
  let '(s', w', _) :=
    run (R := SampleCompose.blank_rasterizer) Sample.tool0 SampleStore.editing
      (Sample.two_captures, Sample.world0, []) in
  read_json w' (session_path Sample.dir Sample.sid) = Some (session_to_py s')
  /\ s_name s' = "Demo, second take"
  /\ capture_ids s' = [1].
Proof.
  assert (Hin : in_sync (sessions_dir Sample.tool0) Sample.two_captures Sample.world0).
  { split; [split; [reflexivity | discriminate] | reflexivity]. }
  pose proof (editor_keeps_record_in_sync (R := SampleCompose.blank_rasterizer)
                Sample.tool0 SampleStore.editing Sample.two_captures Sample.world0 []
                Hin) as H.
  destruct (run Sample.tool0 SampleStore.editing (Sample.two_captures, Sample.world0, []))
    as [[s' w'] h'] eqn:E.
  destruct H as (Hid & [_ Hread] & _).
  assert (Es : s' = fst (fst (run (R := SampleCompose.blank_rasterizer) Sample.tool0
                               SampleStore.editing
                               (Sample.two_captures, Sample.world0, []))))
    by (now rewrite E).
  split; [rewrite Hid in Hread; exact Hread |].
  rewrite Es. split; reflexivity.
Defined.

End EditorFacts.


(** * Exporting captures *)

Section ExportFacts.
Import Py Pil Session Os Tool Report.
Local Open Scope list_scope.

Lemma export_one_effect dir cap w w' failure :
  export_one dir cap w = (w', failure) ->
  (forall q, q <> join dir (basename (cap_image_path cap)) ->
     lookup (w_fs w') q = lookup (w_fs w) q)
  /\ (forall q, open_image w q <> None -> open_image w' q <> None)
  /\ w_locked w' = w_locked w /\ w_log w' = w_log w
  /\ match failure with
     | None => open_image w' (join dir (basename (cap_image_path cap))) <> None
     | Some f => failed_id f = cap_id cap /\ w' = w
     end.
Proof.
  unfold export_one. destruct (exists_ w (cap_image_path cap)).
  2:{ intros [= <- <-]. repeat split; auto. }
  destruct (open_image w (cap_image_path cap)) as [img |].
  2:{ intros [= <- <-]. repeat split; auto. }
  destruct (write w _ _) as [w1 |] eqn:Hw; intros [= <- <-].
  2:{ repeat split; auto. }
  destruct (write_reads_back _ _ _ _ Hw) as [Hback Hlog].
  split; [intros q Hq; now apply (write_other _ _ _ _ _ Hw), not_eq_sym |].
  split.
  { intros q Hq. unfold open_image in *.
    destruct (string_dec (join dir (basename (cap_image_path cap))) q) as [<- | Hne].
    - rewrite Hback. discriminate.
    - now rewrite (write_other _ _ _ _ _ Hw Hne). }
  split; [exact (write_locked _ _ _ _ Hw) |]. split; [exact Hlog |].
  unfold open_image. rewrite Hback. discriminate.
Qed.

Lemma export_all_effect dir caps : forall w w' success_count fail_list,
  export_all dir caps w = (w', success_count, fail_list) ->
  (success_count + List.length fail_list = List.length caps)%nat
  /\ (forall q, (forall cap, In cap caps -> q <> join dir (basename (cap_image_path cap))) ->
        lookup (w_fs w') q = lookup (w_fs w) q)
  /\ (forall q, open_image w q <> None -> open_image w' q <> None)
  /\ w_locked w' = w_locked w /\ w_log w' = w_log w
  /\ (forall cap, In cap caps -> ~ In (cap_id cap) (map failed_id fail_list) ->
        open_image w' (join dir (basename (cap_image_path cap))) <> None).
Proof.
  induction caps as [| cap rest IH]; intros w w' n fails; cbn [export_all].
  - intros [= <- <- <-]. repeat split; auto.
  - destruct (export_one dir cap w) as [w1 failure] eqn:H1.
    destruct (export_all dir rest w1) as [[w2 n2] fails2] eqn:H2.
    destruct (export_one_effect _ _ _ _ _ H1) as (Hf1 & Hi1 & Hl1 & Hg1 & Hres).
    destruct (IH _ _ _ _ H2) as (Hcount & Hf2 & Hi2 & Hl2 & Hg2 & Hok).
    assert (Hframe : forall q,
              (forall c, In c (cap :: rest) -> q <> join dir (basename (cap_image_path c))) ->
              lookup (w_fs w2) q = lookup (w_fs w) q).
    { intros q Hq. rewrite Hf2, Hf1; [reflexivity | apply Hq; now left |].
      intros c Hc. apply Hq. now right. }
    destruct failure as [f |]; intros [= <- <- <-].
    + destruct Hres as [Hfid ->]. split; [cbn; lia |]. split; [exact Hframe |].
      split; [auto |]. split; [congruence |]. split; [congruence |].
      intros c [<- | Hc] Hno.
      * exfalso. apply Hno. cbn. now left.
      * apply Hok; [exact Hc |]. intros H. apply Hno. cbn. now right.
    + split; [cbn; lia |]. split; [exact Hframe |].
      split; [auto |]. split; [congruence |]. split; [congruence |].
      intros c [<- | Hc] Hno; [now apply Hi2 | now apply Hok].
Qed.

(** X20. An export accounts for every selected capture: the numbers of
    successes and failures add up to the number of selected captures,
    each capture not named in the failure list has an image file under
    its own file name in the export directory, and no path other than
    these targets is changed; nothing is shown or changed when the
    selection is empty or the directory dialog is cancelled. *)
Theorem export_accounts_for_every_selection (s : session) (selected_ids : list Z)
    (export_dir : option string) (w : world) :
  let '(w', result) := export_screenshots s selected_ids export_dir w in
  match result, export_dir with
  | Some (success_count, fail_count, fail_list), Some dir =>
      (success_count + fail_count = List.length (selected_captures s selected_ids))%nat
      /\ fail_count = List.length fail_list
      /\ (forall cap, In cap (selected_captures s selected_ids) ->
            ~ In (cap_id cap) (map failed_id fail_list) ->
            open_image w' (join dir (basename (cap_image_path cap))) <> None)
      /\ (forall q,
            (forall cap, In cap (selected_captures s selected_ids) ->
               q <> join dir (basename (cap_image_path cap))) ->
            lookup (w_fs w') q = lookup (w_fs w) q)
  | Some _, None => False
  | None, _ => w' = w
  end.
Proof.
  unfold export_screenshots. destruct selected_ids as [| i ids]; [reflexivity |].
  destruct export_dir as [dir |]; [| reflexivity].
  destruct (PyStr.is_empty dir); [reflexivity |].
  destruct (export_all dir (selected_captures s (i :: ids)) w) as [[w' n] fails] eqn:H.
  destruct (export_all_effect _ _ _ _ _ _ H) as (Hcount & Hframe & _ & _ & _ & Hok).
  split; [exact Hcount |]. split; [reflexivity |]. split; [exact Hok | exact Hframe].
Qed.

Lemma export_accounts_for_every_selection_witness :
  let '(w', result) :=
    export_screenshots Sample.two_captures [2; 1] (Some "/home/u/export")
      Sample.world_missing in
  result = Some (1%nat, 1%nat, [FileMissing 1])
  /\ open_image w' "/home/u/export/capture_20240101_120010.png" <> None.
Proof.
  pose proof (export_accounts_for_every_selection Sample.two_captures [2; 1]
                (Some "/home/u/export") Sample.world_missing) as H.
  destruct (export_screenshots Sample.two_captures [2; 1] (Some "/home/u/export")
              Sample.world_missing) as [w' result] eqn:E.
  assert (Er : result = Some (1%nat, 1%nat, [FileMissing 1])).
  { change result with (snd (w', result)). rewrite <- E. reflexivity. }
  subst result. destruct H as (_ & _ & Hok & _). split; [reflexivity |].
  apply (Hok {| cap_id := 2; cap_time := "2024-01-01 12:00:10";
                cap_description := "press save"; cap_image_path := Sample.img2 |}).
  - left. reflexivity.
  - cbn. intros [H | []]. discriminate H.
Defined.

End ExportFacts.


(** * The current loader and the loader of version 1.1 *)

Section VersionFacts.
Import Py Pil Session Os Tool.
Local Open Scope list_scope.

Lemma v11_load_one_sound w dir n v :
  read_json w (join dir n) = Some v ->
  all_in ToolV11.required_keys v = Some true ->
  ToolV11.load_one w dir n = inl v.
Proof.
  unfold read_json, ToolV11.load_one.
  destruct (lookup (w_fs w) (join dir n)) as [[| [x |] |] |]; try discriminate.
  intros [= ->] ->. reflexivity.
Qed.

Lemma v11_sound_directory w dir names :
  (forall n, In n names -> PyStr.endswith n ".json" = true ->
     exists v, read_json w (join dir n) = Some v
               /\ all_in ToolV11.required_keys v = Some true) ->
  ToolV11.kept w dir names = records_of w dir names
  /\ ToolV11.diagnostics w dir names = [].
Proof.
  unfold ToolV11.kept, ToolV11.diagnostics, records_of.
  induction names as [| f rest IH]; intros H; [split; reflexivity |].
  destruct IH as [IHk IHd]; [intros n Hn; apply H; now right |].
  change (omap ?g (f :: rest)) with
    (match g f with Some y => y :: omap g rest | None => omap g rest end).
  cbv beta. destruct (PyStr.endswith f ".json") eqn:E; [| now split].
  destruct (H f (or_introl eq_refl) E) as (v & Hv & Hk).
  rewrite (v11_load_one_sound _ _ _ _ Hv Hk), Hv, IHk, IHd. now split.
Qed.

(** X21. On a sessions directory in which every [*.json] entry parses
    and has the keys version 1.1 requires, the current loader and the
    loader of version 1.1 leave the same history, record for record and
    in the same order, and neither changes a file. They differ only
    when the sort cannot compare two start times: the current loader
    then shows its error dialog, version 1.1 lets the exception out. *)
Theorem loaders_agree_on_sound_directories (t : tool) (w : world) (names : list string) :
  listdir w (sessions_dir t) = Some names ->
  (forall n, In n names -> PyStr.endswith n ".json" = true ->
     exists v, read_json w (join (sessions_dir t) n) = Some v
               /\ all_in ToolV11.required_keys v = Some true) ->
  let '(t1, w1) := load_history_sessions t w in
  let '(t2, w2, c) := ToolV11.load_history_sessions t w in
  history_sessions t1 = history_sessions t2
  /\ w_fs w1 = w_fs w /\ w_fs w2 = w_fs w /\ w_log w2 = w_log w
  /\ (c = Returned <-> w_log w1 = w_log w).
Proof.
  intros Hl Hall. unfold load_history_sessions, ToolV11.load_history_sessions.
  assert (Hex : exists_ w (sessions_dir t) = true).
  { unfold listdir in Hl. unfold exists_. destruct (lookup _ _); [reflexivity | discriminate]. }
  rewrite Hex, Hl. cbn [negb]. rewrite v11_load_files_split. cbn [app].
  destruct (v11_sound_directory w (sessions_dir t) names Hall) as [-> ->].
  rewrite load_files_all.
  2:{ intros n Hn He. destruct (Hall n Hn He) as (v & -> & _). discriminate. }
  destruct (sort_by_key_desc _ _) as [sorted |];
    cbn [history_sessions set_history ToolV11.add_log show w_fs w_log];
    rewrite app_nil_r; repeat split; try reflexivity; try discriminate.
  intros E. apply (f_equal (@List.length _)) in E. rewrite length_app in E. cbn in E. lia.
Qed.

Lemma loaders_agree_on_sound_directories_witness :
  history_sessions (fst (load_history_sessions Sample.tool0 SampleStore.shelf_world))
  = history_sessions
      (fst (fst (ToolV11.load_history_sessions Sample.tool0 SampleStore.shelf_world))).
Proof.
  assert (Hl : listdir SampleStore.shelf_world (sessions_dir Sample.tool0)
               = Some SampleStore.shelf_names) by reflexivity.
  pose proof (loaders_agree_on_sound_directories Sample.tool0 SampleStore.shelf_world
                SampleStore.shelf_names Hl) as H.
  destruct (load_history_sessions Sample.tool0 SampleStore.shelf_world) as [t1 w1].
  destruct (ToolV11.load_history_sessions Sample.tool0 SampleStore.shelf_world)
    as [[t2 w2] c].
  apply H. intros n Hn He. cbn in Hn.
  decompose [or] Hn; subst; try discriminate He; try contradiction;
    eexists; split; reflexivity.
Defined.

End VersionFacts.


(** * Durations in version 1.1 *)

Section DurationVersionFacts.
Import PyStr Session Store.

Lemma v11_format_duration_form n :
  0 <= n ->
  DurationV11.format_duration n
  = if 3600 <=? n
    then (decimal (n / 3600)
          ++ String "h" (decimal (n / 60 mod 60)
                         ++ String "m" (decimal (n mod 60) ++ "s")))%string
    else if 60 <=? n
         then (decimal (n / 60) ++ String "m" (decimal (n mod 60) ++ "s"))%string
         else (decimal n ++ "s")%string.
Proof.
  intros Hn. unfold DurationV11.format_duration.
  pose proof (Z.div_mod n 60 ltac:(lia)). pose proof (Z.mod_pos_bound n 60 ltac:(lia)).
  pose proof (Z.div_mod n 3600 ltac:(lia)). pose proof (Z.mod_pos_bound n 3600 ltac:(lia)).
  pose proof (Z.div_mod (n / 60) 60 ltac:(lia)).
  pose proof (Z.mod_pos_bound (n / 60) 60 ltac:(lia)).
  pose proof (Z.div_mod (n mod 3600) 60 ltac:(lia)).
  pose proof (Z.mod_pos_bound (n mod 3600) 60 ltac:(lia)).
  assert (Hq : 0 <= n mod 3600 / 60 < 60).
  { split; [apply Z.div_pos; lia | apply Z.div_lt_upper_bound; lia]. }
  assert (Hh : 0 <= n / 3600) by (apply Z.div_pos; lia).
  assert (E4 : n mod 3600 / 60 = (n / 60) mod 60).
  { apply (Z.mod_unique_pos _ _ (n / 3600)); lia. }
  assert (E5 : (n mod 3600) mod 60 = n mod 60).
  { symmetry. apply (Z.mod_unique_pos _ _ (n mod 3600 / 60)); lia. }
  rewrite E4, E5.
  destruct (Z.leb_spec 3600 n) as [Hge | Hlt].
  - assert (0 < n / 3600) by (apply Z.div_str_pos; lia).
    destruct (Z.gtb_spec (n / 3600) 0); [reflexivity | lia].
  - assert (E0 : n / 3600 = 0) by (apply Z.div_small; lia).
    rewrite E0. cbn [Z.gtb Z.compare].
    assert (Em : (n / 60) mod 60 = n / 60).
    { apply Z.mod_small. split; [apply Z.div_pos; lia |].
      apply Z.div_lt_upper_bound; lia. }
    rewrite Em. destruct (Z.leb_spec 60 n) as [Hge | Hlt60].
    + assert (0 < n / 60) by (apply Z.div_str_pos; lia).
      destruct (Z.gtb_spec (n / 60) 0); [reflexivity | lia].
    + assert (E1 : n / 60 = 0) by (apply Z.div_small; lia).
      rewrite E1. cbn [Z.gtb Z.compare]. now rewrite Z.mod_small by lia.
Qed.

(** X22. Version 1.1 shows a duration with its seconds also from one
    hour on: for durations that are not negative its display is exact,
    two durations being shown alike only when they are equal. Below
    one hour the current display is the display of version 1.1. *)
Theorem version_1_1_shows_durations_exactly (a b : Z) :
  0 <= a -> 0 <= b ->
  (DurationV11.format_duration a = DurationV11.format_duration b <-> a = b)
  /\ (a < 3600 -> format_duration a = DurationV11.format_duration a).
Proof.
  intros Ha Hb. split.
  2:{ intros Hlt. rewrite (format_duration_form a Ha), (v11_format_duration_form a Ha).
      destruct (Z.leb_spec 3600 a); [lia | reflexivity]. }
  split; [| now intros <-].
  rewrite (v11_format_duration_form a Ha), (v11_format_duration_form b Hb).
  pose proof (Z.div_mod a 60 ltac:(lia)) as Da.
  pose proof (Z.mod_pos_bound a 60 ltac:(lia)) as Ma.
  pose proof (Z.div_mod b 60 ltac:(lia)) as Db.
  pose proof (Z.mod_pos_bound b 60 ltac:(lia)) as Mb.
  pose proof (Z.div_mod (a / 60) 60 ltac:(lia)) as Da2.
  pose proof (Z.mod_pos_bound (a / 60) 60 ltac:(lia)) as Ma2.
  pose proof (Z.div_mod (b / 60) 60 ltac:(lia)) as Db2.
  pose proof (Z.mod_pos_bound (b / 60) 60 ltac:(lia)) as Mb2.
  assert (Ha3 : a / 60 / 60 = a / 3600) by (rewrite Zdiv_Zdiv by lia; reflexivity).
  assert (Hb3 : b / 60 / 60 = b / 3600) by (rewrite Zdiv_Zdiv by lia; reflexivity).
  assert (Hqa : 0 <= a / 60) by (apply Z.div_pos; lia).
  assert (Hqb : 0 <= b / 60) by (apply Z.div_pos; lia).
  assert (Hha : 0 <= a / 3600) by (apply Z.div_pos; lia).
  assert (Hhb : 0 <= b / 3600) by (apply Z.div_pos; lia).
  assert (Hmark : forall u v c1 r1 c2 r2, 0 <= u -> 0 <= v ->
            Hotkey.ascii_digit c1 = false -> Hotkey.ascii_digit c2 = false ->
            (decimal u ++ String c1 r1)%string = (decimal v ++ String c2 r2)%string ->
            u = v /\ c1 = c2 /\ r1 = r2).
  { intros u v c1 r1 c2 r2 Hu Hv H1 H2 E.
    destruct (digits_then_mark _ _ _ _ _ _ (decimal_digits u Hu) (decimal_digits v Hv)
                H1 H2 E) as (Euv & ? & ?).
    apply decimal_inj in Euv. auto. }
  destruct (Z.leb_spec 3600 a); destruct (Z.leb_spec 3600 b);
    try destruct (Z.leb_spec 60 a); try destruct (Z.leb_spec 60 b); intros E;
    apply Hmark in E as (E1 & [=] & E2); try lia; try reflexivity;
    apply Hmark in E2 as (E2 & [=] & E3); try lia; try reflexivity;
    apply Hmark in E3 as (E3 & _); try lia; reflexivity.
Qed.

Lemma version_1_1_shows_durations_exactly_witness :
  DurationV11.format_duration 3725 <> DurationV11.format_duration 3779
  /\ format_duration 59 = DurationV11.format_duration 59.
Proof.
  destruct (version_1_1_shows_durations_exactly 3725 3779) as [Hex _]; [lia | lia |].
  destruct (version_1_1_shows_durations_exactly 59 59) as [_ Hlow]; [lia | lia |].
  split; [| apply Hlow; lia]. intros E. apply Hex in E. discriminate E.
Defined.

End DurationVersionFacts.
